(** * Cache-augmented generation notebook (cagdemo.ipynb)

    A shallow embedding of the notebook's code cells: the helper functions
    [generate], [get_kv_cache], [clean_up] and [get_env], and the top-level
    statements of the knowledge-prompt cell and of the two query cells.

    The pretrained model, the tokenizer and [torch.argmax] belong to external
    libraries; they are the fields of a [runtime] record that every
    definition takes as a parameter.  Caches are objects on a heap, because
    the model extends the cache it is given in place and the notebook reads
    the same object again for the next query. *)

From stdpp Require Import gmap strings list fin_maps.
From Stdlib Require Import ZArith Ascii.

Local Open Scope Z_scope.

(** ** Python built-ins used by the notebook

    Text is a [string] of characters with code points below 256. *)

Module Py.

(** Exceptions that the embedded code can raise. *)
Inductive exn :=
| NameError (name : string)
| FileNotFoundError (msg : string)
| IsADirectoryError
| PermissionError
| ValueError
| IndexError
| TypeError
| AttributeError
| RuntimeError.

(** [str.isspace] on the code points below 256. *)
Definition isspace (a : ascii) : bool :=
  let n := nat_of_ascii a in
  ((9 <=? n)%nat && (n <=? 13)%nat) || ((28 <=? n)%nat && (n <=? 32)%nat)
  || (n =? 133)%nat || (n =? 160)%nat.

Fixpoint lstrip_by (p : ascii → bool) (s : list ascii) : list ascii :=
  match s with
  | a :: s' => if p a then lstrip_by p s' else s
  | [] => []
  end.

Definition rstrip_by (p : ascii → bool) (s : list ascii) : list ascii :=
  reverse (lstrip_by p (reverse s)).

Definition strip_by (p : ascii → bool) (s : string) : string :=
  String.string_of_list_ascii (rstrip_by p (lstrip_by p (String.list_ascii_of_string s))).

(** [s.strip()] *)
Definition strip (s : string) : string := strip_by isspace s.

(** [s.strip(chars)] *)
Definition strip_chars (chars : string) (s : string) : string :=
  strip_by (λ a, existsb (Ascii.eqb a) (String.list_ascii_of_string chars)) s.

(** [s.split(sep)] for a separator of one character. *)
Fixpoint split (sep : ascii) (s : string) : list string :=
  match s with
  | EmptyString => [EmptyString]
  | String a s' =>
      if Ascii.eqb a sep then EmptyString :: split sep s'
      else match split sep s' with
           | p :: ps => String a p :: ps
           | [] => [String a EmptyString]
           end
  end.

(** Text-mode reading translates "\r\n" and "\r" to "\n". *)
Fixpoint translate_newlines (s : string) : string :=
  match s with
  | String "013" (String "010" s') => String "010" (translate_newlines s')
  | String "013" s' => String "010" (translate_newlines s')
  | String a s' => String a (translate_newlines s')
  | EmptyString => EmptyString
  end.

(** The lines of a text, each keeping its final "\n". *)
Fixpoint lines_keepends (s : string) : list string :=
  match s with
  | EmptyString => []
  | String a s' =>
      if Ascii.eqb a "010" then String a EmptyString :: lines_keepends s'
      else match lines_keepends s' with
           | l :: ls => String a l :: ls
           | [] => [String a EmptyString]
           end
  end.

(** [f.read()] and [for line in f] on a file opened in text mode. *)
Definition read_text (content : string) : string := translate_newlines content.
Definition file_lines (content : string) : list string :=
  lines_keepends (translate_newlines content).

(** [l[:stop]] on a sequence: a negative [stop] counts from the end. *)
Definition slice_to {A} (stop : Z) (l : list A) : list A :=
  if stop <? 0 then take (Z.to_nat (Z.of_nat (length l) + stop)) l
  else take (Z.to_nat stop) l.

End Py.

Export Py.

(** ** Tensors and the key/value cache *)

(** A tensor of token ids, [batch, seq], as the list of its rows. *)
Abbreviation ids := (list (list Z)).

(** A key or value tensor, [batch, heads, seq, head_dim]. *)
Abbreviation tensor4 elt := (list (list (list (list elt)))).

(** Logits, [batch, seq, vocab]. *)
Abbreviation logits3 logit := (list (list (list logit))).

(** Cache objects live on a heap and are named by their address. *)
Abbreviation loc := nat (only parsing).

Section Notebook.

Context {elt logit : Type}.

(** [t.shape[-1]] of a tensor of ids. *)
Definition shape_last (t : ids) : nat :=
  match t with r :: _ => length r | [] => 0%nat end.

(** [t.shape[-2]] of a key or value tensor. *)
Definition seq_len (t : tensor4 elt) : nat :=
  match t with (h :: _) :: _ => length h | _ => 0%nat end.

(** [t[:, :, :origin_len, :]] *)
Definition slice_seq (origin_len : Z) (t : tensor4 elt) : tensor4 elt :=
  fmap (fmap (M := list) (slice_to origin_len)) t.

(** [transformers.cache_utils.DynamicCache]: one key and one value tensor per
    layer, in two lists. *)
Record DynamicCache := mkCache {
  key_cache : list (tensor4 elt);
  value_cache : list (tensor4 elt)
}.

Definition set_key (i : nat) (t : tensor4 elt) (c : DynamicCache) : DynamicCache :=
  mkCache (<[i := t]> (key_cache c)) (value_cache c).

Definition set_value (i : nat) (t : tensor4 elt) (c : DynamicCache) : DynamicCache :=
  mkCache (key_cache c) (<[i := t]> (value_cache c)).

(** ** The kernel: files, heap of cache objects, globals and an event log *)

(** What a path of the file system holds: a file with its text, a
    directory, or a file that the process may not read.  A path that holds
    nothing does not exist. *)
Inductive node :=
| File (content : string)
| Directory
| Unreadable.

Inductive value :=
| VNone
| VStr (s : string)
| VInt (n : Z)
| VIds (t : ids)
| VCache (l : loc)
| VModel
| VTokenizer.

(** The log records the calls into the operating system and the libraries,
    and the entries into [get_kv_cache] and [generate] together with the
    cache object they are given and its state at that moment. *)
Inductive event :=
| EvExists (path : string)
| EvOpen (path : string)
| EvPrint (text : string)
| EvTokenize (text : string)
| EvForward (input_ids : ids) (cache : loc) (before : DynamicCache)
| EvGetKvCache (prompt : string)
| EvGenerate (input_ids : ids) (cache : loc) (before : DynamicCache).

Record kernel := Kernel {
  files : gmap string node;
  heap : list DynamicCache;
  globals : gmap string value;
  trace : list event
}.

(** State and exception monad: an exception keeps the state reached. *)
Definition M (A : Type) : Type := kernel → (exn + A) * kernel.

Global Instance M_ret : MRet M := λ A a k, (inr a, k).

Global Instance M_bind : MBind M :=
  λ A B f m k, match m k with
               | (inl e, k') => (inl e, k')
               | (inr a, k') => f a k'
               end.

Definition raise {A} (e : exn) : M A := λ k, (inl e, k).

Definition lift {A} (r : exn + A) : M A := λ k, (r, k).

Definition add_event (ev : event) (k : kernel) : kernel :=
  Kernel (files k) (heap k) (globals k) (trace k ++ [ev]).

Definition log (ev : event) : M unit := λ k, (inr tt, add_event ev k).

Definition print (text : string) : M unit := log (EvPrint text).

(** Reading and assigning a global name. *)
Definition lookup_name (x : string) : M value :=
  λ k, match globals k !! x with
       | Some v => (inr v, k)
       | None => (inl (NameError x), k)
       end.

Definition assign (x : string) (v : value) : M unit :=
  λ k, (inr tt, Kernel (files k) (heap k) (<[x := v]> (globals k)) (trace k)).

(** Cache objects.  [DynamicCache()] allocates a new object; a Python
    reference always names one, so the [RuntimeError] of [load] on an address
    that holds nothing does not arise in the notebook. *)
Definition alloc (c : DynamicCache) : M loc :=
  λ k, (inr (length (heap k)), Kernel (files k) (heap k ++ [c]) (globals k) (trace k)).

Definition load (l : loc) : M DynamicCache :=
  λ k, match heap k !! l with
       | Some c => (inr c, k)
       | None => (inl RuntimeError, k)
       end.

Definition store (l : loc) (c : DynamicCache) : M unit :=
  λ k, (inr tt, Kernel (files k) (<[l := c]> (heap k)) (globals k) (trace k)).

(** [l[i]] on a Python list. *)
Definition index {A} (l : list A) (i : nat) : M A :=
  match l !! i with
  | Some a => mret a
  | None => raise IndexError
  end.

Definition gets {A} (f : kernel → A) : M A := λ k, (inr (f k), k).

(** [os.path.exists(path)] *)
Definition path_exists (path : string) : M bool :=
  log (EvExists path);;
  fs ← gets files;
  mret (bool_decide (is_Some (fs !! path))).

(** [open(path, "r")] followed by reading the whole file.  [open] raises
    on a path that holds nothing, on a directory and on a file that may not
    be read. *)
Definition open_read (path : string) : M string :=
  log (EvOpen path);;
  fs ← gets files;
  match fs !! path with
  | Some (File content) => mret content
  | Some Directory => raise IsADirectoryError
  | Some Unreadable => raise PermissionError
  | None => raise (FileNotFoundError path)
  end.

(** ** The external libraries

    [tokenize text] is the single row of
    [tokenizer(text, return_tensors="pt").input_ids]; [forward] is the call
    [model(input_ids=..., past_key_values=cache, use_cache=True)], giving the
    logits (or the exception raised) and the state in which it leaves the
    cache object; [argmax] is [torch.argmax] along the vocabulary axis;
    [device_ok] tells which device names [Tensor.to] accepts, and
    [ordinal_ok] which device ordinals. *)
Record runtime := Runtime {
  tokenize : string → list Z;
  decode : list Z → string;
  forward : ids → DynamicCache → (exn + logits3 logit) * DynamicCache;
  argmax : list logit → Z;
  eos_token_id : option Z;
  device_ok : string → bool;
  ordinal_ok : Z → bool
}.

Variable rt : runtime.

Definition tokenizer_call (text : string) : M ids :=
  log (EvTokenize text);;
  mret [tokenize rt text].

(** The model works on the cache object in place and hands the same object
    back as [out.past_key_values]. *)
Definition call_model (input_ids : ids) (past_key_values : loc) : M (logits3 logit * loc) :=
  c ← load past_key_values;
  log (EvForward input_ids past_key_values c);;
  store past_key_values (snd (forward rt input_ids c));;
  lg ← lift (fst (forward rt input_ids c));
  mret (lg, past_key_values).

(** [tensor.to(device)] with the value of a global name as its argument: a
    string names a device and an integer is a device ordinal, which the
    runtime accepts or not; [None] leaves the tensor where it is; another
    tensor of ids stands for its own device and type, which are those of
    [t]; any other object is no argument of [to]. *)
Definition to_device (t : ids) (device : value) : M ids :=
  match device with
  | VStr d => if device_ok rt d then mret t else raise RuntimeError
  | VInt n => if ordinal_ok rt n then mret t else raise RuntimeError
  | VNone => mret t
  | VIds _ => mret t
  | VCache _ | VModel | VTokenizer => raise TypeError
  end.

(** ** Tensor operations of [generate] *)

(** [logits[:, -1, :]] *)
Fixpoint last_position (lg : logits3 logit) : exn + list (list logit) :=
  match lg with
  | [] => inr []
  | row :: rest =>
      match last row with
      | None => inl IndexError
      | Some v =>
          match last_position rest with
          | inl e => inl e
          | inr vs => inr (v :: vs)
          end
      end
  end.

(** [torch.argmax(logits, dim=-1, keepdim=True)] *)
Definition argmax_keepdim (lg : list (list logit)) : ids :=
  fmap (λ v, [argmax rt v]) lg.

(** [torch.cat([a, b], dim=-1)] *)
Definition cat_last (a b : ids) : exn + ids :=
  if decide (length a = length b) then inr (zip_with app a b)
  else inl RuntimeError.

(** [t.item()] *)
Definition item (t : ids) : exn + Z :=
  match t with
  | [[x]] => inr x
  | _ => inl RuntimeError
  end.

(** ** generate

    The first two lines of [generate], and the first of [get_kv_cache],
    enter the call in the log and have no counterpart in the source.
    [range(max_new_tokens)] runs [Z.to_nat max_new_tokens] times; the
    [with torch.no_grad()] block and the moves to the model's own device
    change no value. *)

Fixpoint generate_loop (n : nat) (output_ids : ids) (past_key_values : loc)
    (next_token : ids) : M ids :=
  match n with
  | O => mret output_ids
  | S n' =>
      out ← call_model next_token past_key_values;
      logits ← lift (last_position (fst out));
      let token := argmax_keepdim logits in
      output_ids ← lift (cat_last output_ids token);
      let past_key_values := snd out in
      let next_token := token in
      stop ← match eos_token_id rt with
             | None => mret false
             | Some eos => t ← lift (item token); mret (t =? eos)
             end;
      if (stop : bool) then mret output_ids
      else generate_loop n' output_ids past_key_values next_token
  end.

Definition generate (input_ids : ids) (past_key_values : loc)
    (max_new_tokens : Z) : M ids :=
  c ← load past_key_values;
  log (EvGenerate input_ids past_key_values c);;
  let origin_len := shape_last input_ids in
  let output_ids := input_ids in
  let next_token := input_ids in
  output_ids ← generate_loop (Z.to_nat max_new_tokens) output_ids
                 past_key_values next_token;
  mret (fmap (drop origin_len) output_ids).

(** ** get_kv_cache and clean_up *)

(** Using a value as the model ([model.model...]) or calling it as the
    tokenizer: [None], as any value that is not the loaded object, has no
    such attribute and cannot be called. *)
Definition as_model (v : value) : M unit :=
  match v with VModel => mret tt | _ => raise AttributeError end.

Definition as_tokenizer (v : value) : M unit :=
  match v with VTokenizer => mret tt | _ => raise TypeError end.

(** The first line of [get_kv_cache] reads the model's device, the second
    calls the tokenizer; the move of the tokens to the model's own device
    changes no value. *)
Definition get_kv_cache (model tokenizer : value) (prompt : string) : M loc :=
  log (EvGetKvCache prompt);;
  as_model model;;
  as_tokenizer tokenizer;;
  input_ids ← tokenizer_call prompt;
  cache ← alloc (mkCache [] []);
  _ ← call_model input_ids cache;
  mret cache.

Fixpoint clean_up_loop (cache : loc) (origin_len : Z) (idxs : list nat) : M unit :=
  match idxs with
  | [] => mret tt
  | i :: rest =>
      c ← load cache;
      k ← index (key_cache c) i;
      store cache (set_key i (slice_seq origin_len k) c);;
      c ← load cache;
      v ← index (value_cache c) i;
      store cache (set_value i (slice_seq origin_len v) c);;
      clean_up_loop cache origin_len rest
  end.

Definition clean_up (cache : loc) (origin_len : Z) : M unit :=
  c ← load cache;
  clean_up_loop cache origin_len (seq 0 (length (key_cache c))).

(** ** get_env *)

Definition quote : string := String "034" EmptyString.

Fixpoint get_env_loop (lines : list string) (env_dict : gmap string string)
    : exn + gmap string string :=
  match lines with
  | [] => inr env_dict
  | line :: rest =>
      match split "=" (strip line) with
      | [key; value] => get_env_loop rest (<[key := strip_chars quote value]> env_dict)
      | _ => inl ValueError
      end
  end.

Definition get_env : M (gmap string string) :=
  let env_dict := ∅ in
  dot ← path_exists ".env";
  let env_file := if (dot : bool) then ".env" else "env" in
  found ← path_exists env_file;
  if (found : bool) then
    content ← open_read env_file;
    lift (get_env_loop (file_lines content) env_dict)
  else
    print "No .env or env file found; HF_TOKEN may not be set.";;
    mret env_dict.

(** ** The code cells

    The cells that only import modules and define the functions above have
    no other effect and are left out. *)

Definition nl : string := String "010" EmptyString.

Definition as_cache (v : value) : M loc :=
  match v with VCache l => mret l | _ => raise AttributeError end.

Definition as_int (v : value) : M Z :=
  match v with VInt n => mret n | _ => raise TypeError end.

(** The cell that defines [get_env] and the global placeholders. *)
Definition cell_env : M unit :=
  assign "HF_TOKEN" (VStr "API_TOKEN");;
  assign "model_name" VNone;;
  assign "model" VNone;;
  assign "tokenizer" VNone;;
  assign "rand_seed" VNone;;
  print "Environment and imports are set.".

(** The cell that loads the tokenizer and the model. *)
Definition cell_load : M unit :=
  assign "model_name" (VStr "mistralai/Mistral-7B-Instruct-v0.1");;
  _ ← lookup_name "HF_TOKEN";
  assign "tokenizer" VTokenizer;;
  _ ← lookup_name "HF_TOKEN";
  assign "model" VModel;;
  print "Loaded mistralai/Mistral-7B-Instruct-v0.1.".

Definition system_prompt_of (doc_text : string) : string :=
  strip (nl +:+ "<|system|>" +:+ nl
         +:+ "You are an assistant who provides concise factual answers." +:+ nl
         +:+ "<|user|>" +:+ nl
         +:+ "Context:" +:+ nl
         +:+ doc_text +:+ nl
         +:+ "Question:" +:+ nl).

(** The cell that reads [document.txt] and builds the cache. *)
Definition cell_knowledge : M unit :=
  present ← path_exists "document.txt";
  (if (present : bool) then mret tt
   else raise (FileNotFoundError
     "Please create a `document.txt` with info about Ronan Takizawa."));;
  content ← open_read "document.txt";
  let doc_text := read_text content in
  assign "doc_text" (VStr doc_text);;
  let system_prompt := system_prompt_of doc_text in
  assign "system_prompt" (VStr system_prompt);;
  vm ← lookup_name "model";
  vt ← lookup_name "tokenizer";
  cache ← get_kv_cache vm vt system_prompt;
  assign "ronan_cache" (VCache cache);;
  c ← load cache;
  k0 ← index (key_cache c) 0;
  assign "origin_len" (VInt (Z.of_nat (seq_len k0)));;
  print "KV cache built.".

(** A query cell; the two cells differ in the question and in the suffix
    [n] of the names they assign.  Names are looked up in the order in which
    Python evaluates them: in [tokenizer(...).input_ids.to(device)] the
    tokenizer is called before [device] is read. *)
Definition cell_query (n : string) (question : string) : M unit :=
  assign ("question" +:+ n) (VStr question);;
  vc ← lookup_name "ronan_cache";
  vo ← lookup_name "origin_len";
  cache ← as_cache vc;
  origin_len ← as_int vo;
  clean_up cache origin_len;;
  vt ← lookup_name "tokenizer";
  as_tokenizer vt;;
  input_ids ← tokenizer_call (question +:+ nl);
  device ← lookup_name "device";
  input_ids ← to_device input_ids device;
  assign ("input_ids_q" +:+ n) (VIds input_ids);;
  vm ← lookup_name "model";
  vc ← lookup_name "ronan_cache";
  as_model vm;;
  cache ← as_cache vc;
  gen_ids ← generate input_ids cache 50;
  assign ("gen_ids_q" +:+ n) (VIds gen_ids);;
  row ← index gen_ids 0;
  let answer := decode rt row in
  assign ("answer" +:+ n) (VStr answer);;
  print ("Q" +:+ n +:+ ": " +:+ question);;
  print ("A" +:+ n +:+ ": " +:+ answer).

Definition question1 : string := "Who is Priya Nair?".
Definition question2 : string := "What are his main projects?".

Definition cell_query1 : M unit := cell_query "1" question1.
Definition cell_query2 : M unit := cell_query "2" question2.

Definition notebook : list (M unit) :=
  [cell_env; cell_load; cell_knowledge; cell_query1; cell_query2].

(** Running cells in order until one raises. *)
Fixpoint run_all (cells : list (M unit)) : M unit :=
  match cells with
  | [] => mret tt
  | c :: cs => c;; run_all cs
  end.

(** Running one cell on its own: the kernel keeps the state it reached,
    whether the cell raised or not. *)
Definition exec (c : M unit) (k : kernel) : kernel := snd (c k).

(** A kernel that has run nothing yet. *)
Definition fresh (fs : gmap string node) : kernel := Kernel fs [] ∅ [].

End Notebook.

(** ** A small runtime to run the definitions on

    Two layers, one head, head dimension one; the key and value states of a
    token are the token itself; the logits of a position put all weight on
    the token that follows the input token modulo four; the tokenizer starts
    every encoding with token 1 and maps a character to its code modulo
    four. *)

Module Toy.

Definition new_states (input_ids : ids) : tensor4 Z :=
  fmap (λ row : list Z, [fmap (λ t, [t]) row]) input_ids.

(** [torch.cat([old, new], dim=-2)] *)
Definition cat_seq (old new : tensor4 Z) : tensor4 Z :=
  zip_with (zip_with app) old new.

(** [DynamicCache.update] for one layer. *)
Definition update (layer_idx : nat) (k v : tensor4 Z) (c : @DynamicCache Z)
    : @DynamicCache Z :=
  match key_cache c !! layer_idx, value_cache c !! layer_idx with
  | Some k0, Some v0 =>
      mkCache (<[layer_idx := cat_seq k0 k]> (key_cache c))
              (<[layer_idx := cat_seq v0 v]> (value_cache c))
  | _, _ => mkCache (key_cache c ++ [k]) (value_cache c ++ [v])
  end.

Definition one_hot (t : Z) : list Z :=
  fmap (λ i, if (i =? (t + 1) mod 4) then 1 else 0) [0; 1; 2; 3].

Definition toy_forward (input_ids : ids) (c : @DynamicCache Z)
    : (exn + logits3 Z) * @DynamicCache Z :=
  let s := new_states input_ids in
  (inr (fmap (fmap (M := list) one_hot) input_ids), update 1 s s (update 0 s s c)).

Fixpoint argmax_from (best : Z) (besti i : Z) (v : list Z) : Z :=
  match v with
  | [] => besti
  | x :: v' => if best <? x then argmax_from x i (i + 1) v'
               else argmax_from best besti (i + 1) v'
  end.

Definition toy_argmax (v : list Z) : Z :=
  match v with
  | [] => 0
  | x :: v' => argmax_from x 0 1 v'
  end.

Definition toy_tokenize (text : string) : list Z :=
  1 :: fmap (λ a, Z.of_nat (nat_of_ascii a) mod 4) (String.list_ascii_of_string text).

Definition toy_decode (row : list Z) : string :=
  String.string_of_list_ascii (fmap (λ t, ascii_of_nat (48 + Z.to_nat t)) row).

Definition toy (eos : option Z) : @runtime Z Z :=
  Runtime toy_tokenize toy_decode toy_forward toy_argmax eos
          (λ d, bool_decide (d = "cpu")) (λ _, false).

Definition doc_fs : gmap string node := {[ "document.txt" := File "Priya" ]}.

(** A kernel that holds one empty cache object. *)
Definition k_gen : @kernel Z := Kernel ∅ [mkCache [] []] ∅ [].

(** A cache of one layer, one head, three positions, and a kernel that
    holds it. *)
Definition c3 : @DynamicCache Z :=
  mkCache [[[[[1]; [2]; [3]]]]] [[[[[4]; [5]; [6]]]]].

Definition k_clean : @kernel Z := Kernel ∅ [c3] ∅ [].

(** Globals that bind [device] beforehand. *)
Definition cpu_globals : gmap string value := {[ "device" := VStr "cpu" ]}.

(** A cache object as the model leaves it after three tokens, and a kernel
    that holds it. *)
Definition c_doc : @DynamicCache Z := snd (toy_forward [[1; 2; 3]] (mkCache [] [])).

Definition k_doc : @kernel Z := Kernel ∅ [c_doc] ∅ [].

(** A cache object that lacks the value tensor of its second layer, and a
    kernel that holds it. *)
Definition c_short : @DynamicCache Z :=
  mkCache [[[[[1]; [2]; [3]]]]; [[[[1]; [2]; [3]]]]] [[[[[4]; [5]; [6]]]]].

Definition k_short : @kernel Z := Kernel ∅ [c_short] ∅ [].

End Toy.

(** ** Notions used to state the properties *)

Section Notions.

Context {elt logit : Type}.

(** The path that [get_env] goes by, [.env] when it exists and else [env],
    and the text of the file at that path, when the path holds a file that
    can be read. *)
Definition chosen_env_path (fs : gmap string node) : string :=
  if bool_decide (is_Some (fs !! ".env")) then ".env" else "env".

Definition chosen_env_file (fs : gmap string node) : option string :=
  match fs !! chosen_env_path fs with
  | Some (File content) => Some content
  | _ => None
  end.

Definition env_lines (fs : gmap string node) : list string :=
  match chosen_env_file fs with
  | Some content => file_lines content
  | None => []
  end.

(** Number of occurrences of a character. *)
Fixpoint count_char (a : ascii) (s : string) : nat :=
  match s with
  | EmptyString => 0
  | String b s' => (if Ascii.eqb b a then 1 else 0) + count_char a s'
  end.

Definition count_list (a : ascii) (l : list ascii) : nat :=
  length (filter (λ b, b = a) l).

(** A line splits on "=" into exactly two parts. *)
Definition two_parts (line : string) : Prop :=
  length (split "=" (strip line)) = 2%nat.

(** The key and the value of a line, the value without its surrounding
    double quotes. *)
Definition line_entry (line : string) : option (string * string) :=
  match split "=" (strip line) with
  | [key; value] => Some (key, strip_chars quote value)
  | _ => None
  end.

(** The value that the last line with the given key carries. *)
Fixpoint last_value (key : string) (lines : list string) : option string :=
  match lines with
  | [] => None
  | line :: rest =>
      match last_value key rest with
      | Some v => Some v
      | None =>
          match line_entry line with
          | Some (k, v) => if decide (k = key) then Some v else None
          | None => None
          end
      end
  end.


(** The kernel with another heap. *)
Definition with_heap (h : list (@DynamicCache elt)) (k : @kernel elt) : @kernel elt :=
  Kernel (files k) h (globals k) (trace k).

(** What the loop of [clean_up] does to the cache object it works on. *)
Fixpoint clean_loop (origin_len : Z) (idxs : list nat) (c : @DynamicCache elt)
    : (exn + unit) * @DynamicCache elt :=
  match idxs with
  | [] => (inr tt, c)
  | i :: rest =>
      match key_cache c !! i with
      | None => (inl IndexError, c)
      | Some kt =>
          let c1 := set_key i (slice_seq origin_len kt) c in
          match value_cache c1 !! i with
          | None => (inl IndexError, c1)
          | Some vt => clean_loop origin_len rest (set_value i (slice_seq origin_len vt) c1)
          end
      end
  end.

(** Every head of every batch entry spans at least [n] positions. *)
Definition seq_at_least (n : nat) (t : tensor4 elt) : Prop :=
  Forall (Forall (λ r, (n ≤ length r)%nat)) t.

(** Every head of every batch entry spans exactly [n] positions. *)
Definition seq_exactly (n : nat) (t : tensor4 elt) : Prop :=
  Forall (Forall (λ r, length r = n)) t.

(** [t'] is [t] cut to its first [n] positions along the sequence axis: same
    batch entries, same heads, and in each head the [n] first positions of
    [t], each with its vector unchanged. *)
Definition first_positions (n : nat) (t t' : tensor4 elt) : Prop :=
  length t' = length t ∧
  ∀ b m, t !! b = Some m →
    ∃ m', t' !! b = Some m' ∧ length m' = length m ∧
      ∀ h r, m !! h = Some r →
        ∃ r', m' !! h = Some r' ∧ length r' = n ∧
          ∀ s, (s < n)%nat → r' !! s = r !! s.

(** The kernel with further events in its log. *)
Definition add_events (evs : list (@event elt)) (k : @kernel elt) : @kernel elt :=
  Kernel (files k) (heap k) (globals k) (trace k ++ evs).

(** The log entry of a model call on cache object [l]. *)
Definition ev_forward (l : loc) (call : ids * @DynamicCache elt) : @event elt :=
  EvForward (fst call) l (snd call).

(** All rows of a tensor of ids have the length that [shape[-1]] reports. *)
Definition rect (t : ids) : Prop := Forall (λ r, length r = shape_last t) t.

(** Successive [torch.cat] of token tensors onto [rows] along the last axis. *)
Definition hcat (rows : ids) (toks : list ids) : ids :=
  foldl (zip_with app) rows toks.

Section WithRuntime.

Variable rt : @runtime elt logit.

(** The token tensor that a model call on input [x] and cache state [c]
    gives rise to: per row, the argmax of the logits at the last position. *)
Definition produces (x : ids) (c : @DynamicCache elt) (tok : ids) : Prop :=
  ∃ lg v, fst (forward rt x c) = inr lg ∧ last_position lg = inr v
          ∧ tok = argmax_keepdim rt v.

(** A chain of model calls: the first is fed [x] on cache state [c]; each
    later one is fed the token tensor that the call before it produced, on
    the cache state that call left behind. *)
Inductive feeds : ids → @DynamicCache elt → list (ids * @DynamicCache elt) → list ids → Prop :=
| feeds_nil x c : feeds x c [] []
| feeds_cons x c tok calls toks :
    produces x c tok →
    feeds tok (snd (forward rt x c)) calls toks →
    feeds x c ((x, c) :: calls) (tok :: toks).

(** The cache state after model calls on the inputs [xs] in turn. *)
Definition after_calls (c : @DynamicCache elt) (xs : list ids) : @DynamicCache elt :=
  foldl (λ c x, snd (forward rt x c)) c xs.

(** A tensor of ids with [b] rows of one token each. *)
Definition token_column (b : nat) (t : ids) : Prop :=
  length t = b ∧ Forall (λ row, length row = 1%nat) t.

(** The inputs of the model calls of one run of the loop of [generate]
    started on [next] with [b] output rows: [next] first, token columns
    after it. *)
Definition fed (next : ids) (b : nat) (xs : list ids) : Prop :=
  match xs with
  | [] => True
  | x :: rest => x = next ∧ Forall (token_column b) rest
  end.

(** How the loop of [generate] ends after producing [toks] within [n]
    iterations: without an end-of-sequence id it runs all [n] iterations;
    with one, every token tensor holds a single token, the id can only be
    the last token, and the loop stops short of [n] only on that id. *)
Definition stops (n : nat) (toks : list ids) : Prop :=
  match eos_token_id rt with
  | None => length toks = n
  | Some eos =>
      (∀ i tok, toks !! i = Some tok →
         ∃ t, tok = [[t]] ∧ (t = eos → S i = length toks))
      ∧ (length toks = n ∨ last toks = Some [[eos]])
  end.

End WithRuntime.

(** ** Relations between the kernel before and after a computation *)

(** [m] takes every kernel to an [R]-related one, whether it returns or
    raises. *)
Definition preserves {A} (R : relation (@kernel elt)) (m : @M elt A) : Prop :=
  ∀ k, R k (snd (m k)).

(** The log grows by events that satisfy [P]; nothing is removed. *)
Definition appends (P : @event elt → Prop) : relation (@kernel elt) :=
  λ k k', ∃ evs, trace k' = trace k ++ evs ∧ Forall P evs.

(** The files and the binding of the global name [x] stay as they are. *)
Definition keeps (x : string) : relation (@kernel elt) :=
  λ k k', files k' = files k ∧ globals k' !! x = globals k !! x.

Definition is_generate (ev : @event elt) : Prop :=
  match ev with EvGenerate _ _ _ => True | _ => False end.

Definition is_exists (ev : @event elt) : Prop :=
  match ev with EvExists _ => True | _ => False end.

Definition is_get_kv_cache (ev : @event elt) : Prop :=
  match ev with EvGetKvCache _ => True | _ => False end.

(** What a run leaves untouched when it never reaches [generate] nor tests
    for a file: no such entry is logged, and the files and the binding of
    [device] are unchanged. *)
Definition quiet : relation (@kernel elt) :=
  λ k k', appends (λ ev, ¬ is_generate ev ∧ ¬ is_exists ev) k k' ∧ keeps "device" k k'.

(** [m] raises from every kernel in which [device] is unbound, and does so
    quietly. *)
Definition stuck_on_device {A} (m : @M elt A) : Prop :=
  ∀ k, globals k !! "device" = None →
    ∃ e, fst (m k) = inl e ∧ quiet k (snd (m k)).

(** The kernel after the cell that sets the placeholders, and after the cell
    that loads the model. *)
Definition after_env (k : @kernel elt) : @kernel elt :=
  Kernel (files k) (heap k)
    (<["rand_seed" := VNone]> (<["tokenizer" := VNone]> (<["model" := VNone]>
       (<["model_name" := VNone]> (<["HF_TOKEN" := VStr "API_TOKEN"]> (globals k))))))
    (trace k ++ [EvPrint "Environment and imports are set."]).

Definition after_load (k : @kernel elt) : @kernel elt :=
  Kernel (files k) (heap k)
    (<["model" := VModel]> (<["tokenizer" := VTokenizer]>
       (<["model_name" := VStr "mistralai/Mistral-7B-Instruct-v0.1"]> (globals k))))
    (trace k ++ [EvPrint "Loaded mistralai/Mistral-7B-Instruct-v0.1."]).

Definition missing_document : exn :=
  FileNotFoundError "Please create a `document.txt` with info about Ronan Takizawa.".

(** ** What the notebook relies on from the libraries *)

(** A key or value tensor with [b] batch entries of [h] heads that span [s]
    positions each. *)
Definition has_shape (b h s : nat) (t : tensor4 elt) : Prop :=
  length t = b ∧ Forall (λ m, length m = h ∧ Forall (λ r, length r = s) m) t.

(** A cache with [layers] key and value tensors of that shape. *)
Definition cache_shape (layers b h s : nat) (c : @DynamicCache elt) : Prop :=
  length (key_cache c) = layers ∧ length (value_cache c) = layers
  ∧ Forall (has_shape b h s) (key_cache c) ∧ Forall (has_shape b h s) (value_cache c).

(** The cache cut to its first [n] positions. *)
Definition truncated (n : Z) (c : @DynamicCache elt) : @DynamicCache elt :=
  mkCache (slice_seq n <$> key_cache c) (slice_seq n <$> value_cache c).

(** An input the model is called on: rectangular, with at least one row and
    at least one token per row. *)
Definition model_input (x : ids) : Prop :=
  rect x ∧ x ≠ [] ∧ (1 ≤ shape_last x)%nat.

(** The behaviour of the tokenizer and of a causal language model with
    [layers] layers and [heads] key/value heads called with a
    [DynamicCache]: the tokenizer never yields an empty encoding; the model
    returns logits for every position of its input; called on an empty cache
    it leaves one key and one value tensor per layer that span the input
    positions; called on a filled cache it appends the input positions to
    every tensor and keeps what was there. *)
Record library_contract (rt : @runtime elt logit) (layers heads : nat) : Prop := {
  lc_layers : (1 ≤ layers)%nat;
  lc_heads : (1 ≤ heads)%nat;
  lc_tokens : ∀ text, tokenize rt text ≠ [];
  lc_returns : ∀ x c,
    model_input x →
    c = mkCache [] [] ∨ (∃ s, cache_shape layers (length x) heads s c) →
    ∃ lg, fst (forward rt x c) = inr lg ∧ Forall2 (λ xr lr, length lr = length xr) x lg;
  lc_prefill : ∀ x,
    model_input x →
    cache_shape layers (length x) heads (shape_last x) (snd (forward rt x (mkCache [] [])));
  lc_extend : ∀ x c s,
    model_input x →
    cache_shape layers (length x) heads s c →
    cache_shape layers (length x) heads (s + shape_last x) (snd (forward rt x c))
    ∧ truncated (Z.of_nat s) (snd (forward rt x c)) = c
}.

(** The kernel with other globals. *)
Definition with_globals (g : gmap string value) (k : @kernel elt) : @kernel elt :=
  Kernel (files k) (heap k) g (trace k).

(** The name of a device is bound to the global name [device] and
    [Tensor.to] accepts it. *)
Definition usable_device (rt : @runtime elt logit) (g : gmap string value) : Prop :=
  ∃ d, g !! "device" = Some (VStr d) ∧ device_ok rt d = true.

(** The kernel is ready for a query: the names that the query cells read
    are bound, and the cache object [l] spans at least [n] positions in
    every layer and holds the cache [c0] in its first [n] positions. *)
Definition ready (layers heads : nat) (l n : nat) (c0 : @DynamicCache elt)
    (k : @kernel elt) : Prop :=
  globals k !! "ronan_cache" = Some (VCache l)
  ∧ globals k !! "origin_len" = Some (VInt (Z.of_nat n))
  ∧ globals k !! "model" = Some VModel
  ∧ globals k !! "tokenizer" = Some VTokenizer
  ∧ ∃ c s, heap k !! l = Some c ∧ (n ≤ s)%nat
           ∧ cache_shape layers 1 heads s c ∧ truncated (Z.of_nat n) c = c0.

(** Log entries of model calls and of printing. *)
Definition is_tail_event (ev : @event elt) : Prop :=
  match ev with EvForward _ _ _ | EvPrint _ => True | _ => False end.

(** [Tensor.to] accepts the value: a device string or a device ordinal
    that the runtime accepts, [None], or another tensor. *)
Definition device_accepted (rt : @runtime elt logit) (v : value) : bool :=
  match v with
  | VStr d => device_ok rt d
  | VInt n => ordinal_ok rt n
  | VNone | VIds _ => true
  | VCache _ | VModel | VTokenizer => false
  end.

(** The global name [device] is bound to a value that [Tensor.to]
    accepts. *)
Definition to_accepts (rt : @runtime elt logit) (g : gmap string value) : Prop :=
  ∃ v, g !! "device" = Some v ∧ device_accepted rt v = true.

(** What a query cell adds to the log after tokenizing its question:
    nothing when [device] is unbound or bound to a value that [Tensor.to]
    does not accept; otherwise one entry of [generate], on the question's
    tokens and on cache object [l] in state [c0], followed by model calls
    and printing only. *)
Definition query_events (rt : @runtime elt logit) (g : gmap string value)
    (l : nat) (c0 : @DynamicCache elt) (question : string)
    (evs : list (@event elt)) : Prop :=
  (¬ to_accepts rt g ∧ evs = [])
  ∨ (to_accepts rt g
     ∧ ∃ post, evs = EvGenerate [tokenize rt (question +:+ nl)] l c0 :: post
               ∧ Forall is_tail_event post).

(** Every model call in a log is fed one token per row. *)
Definition one_token_inputs (evs : list (@event elt)) : Prop :=
  ∀ x l c, EvForward x l c ∈ evs → Forall (λ row, length row = 1%nat) x.

(** ** Further notions *)


Section Answers.

Variable rt : @runtime elt logit.

(** The text that a query cell decodes for a question when the cache holds
    [c0]: the decoding of the row that [generate] returns, with its default
    budget of 50 tokens, on the tokens of the question followed by a newline
    and a cache object in state [c0]. *)
Definition answer_to (c0 : @DynamicCache elt) (question : string) : option string :=
  match fst (generate rt [tokenize rt (question +:+ nl)] 0 50 (Kernel ∅ [c0] ∅ [])) with
  | inr (row :: _) => Some (decode rt row)
  | _ => None
  end.

(** The kernel after running query cells, each given by the suffix of the
    names it assigns and by its question, one after the other. *)
Definition after_queries (earlier : list (string * string)) (k : @kernel elt) : @kernel elt :=
  foldl (λ k '(i, question), exec (cell_query rt i question) k) k earlier.

(** The kernel after the first three cells, run from a kernel that has run
    nothing yet and binds the names [g]. *)
Definition built (fs : gmap string node) (g : gmap string value) : @kernel elt :=
  snd (run_all [cell_env; cell_load; cell_knowledge rt] (Kernel fs [] g [])).

End Answers.

(** The first and the last character of a text. *)
Definition first_char (s : string) : option ascii :=
  head (String.list_ascii_of_string s).

Definition last_char (s : string) : option ascii :=
  last (String.list_ascii_of_string s).

(** A line of an env file as one writes it: the key, "=", the value, bare
    or between double quotes, and a line break; and the text of a file of
    such lines. *)
Definition wrap (quoted : bool) : string := if quoted then quote else "".

Definition env_line (quoted : bool) (key value : string) : string :=
  key +:+ "=" +:+ wrap quoted +:+ value +:+ wrap quoted +:+ nl.

Definition env_text (entries : list (bool * string * string)) : string :=
  foldr (λ '(quoted, key, value) text, env_line quoted key value +:+ text) "" entries.

(** A text without "=", line feed and carriage return. *)
Definition plain (s : string) : Prop :=
  count_char "=" s = 0%nat ∧ count_char "010" s = 0%nat ∧ count_char "013" s = 0%nat.

(** A key and a value that such a line carries faithfully: both plain, the
    key not beginning with white space, the value neither beginning nor
    ending with a double quote and, when written bare, not ending with
    white space. *)
Definition readable (quoted : bool) (key value : string) : Prop :=
  plain key ∧ plain value
  ∧ (∀ a, first_char key = Some a → isspace a = false)
  ∧ first_char value ≠ Some "034"%char
  ∧ last_char value ≠ Some "034"%char
  ∧ (quoted = false → ∀ a, last_char value = Some a → isspace a = false).

(** The dictionary that assigning the entries in turn gives. *)
Definition env_dict_of (entries : list (bool * string * string)) : gmap string string :=
  foldl (λ d '(_, key, value), <[key := value]> d) ∅ entries.

(** The texts printed, in the order of the log. *)
Definition printed (evs : list (@event elt)) : list string :=
  omap (λ ev, match ev with EvPrint text => Some text | _ => None end) evs.

(** ** The env file in the words of its reader

    These notions say what an env file holds without the functions that
    [get_env] calls: the lines of a text as they are written, the key and
    the value that a line carries, and the entry that wins for a key. *)

Definition cr : string := String "013" EmptyString.

(** The text made of the given lines. *)
Definition text_of (ls : list string) : string := foldr String.append "" ls.

(** A piece of text within one line: it holds no line feed and no carriage
    return. *)
Definition unbroken (s : string) : Prop :=
  count_char "010" s = 0%nat ∧ count_char "013" s = 0%nat.

(** The three ways in which a line ends. *)
Definition line_end (t : string) : Prop := t = nl ∨ t = cr +:+ nl ∨ t = cr.

(** The lines of a text as they are written: each is an unbroken body
    followed by a line end; the last line may also be a body without a
    line end; a lone carriage return ends a line only when no line feed
    follows it. *)
Fixpoint written_lines (ls : list string) : Prop :=
  match ls with
  | [] => True
  | l :: rest =>
      (∃ body t, l = body +:+ t ∧ unbroken body
         ∧ (line_end t ∨ (t = "" ∧ body ≠ "" ∧ rest = []))
         ∧ (t = cr → first_char (text_of rest) ≠ Some "010"%char))
      ∧ written_lines rest
  end.

(** Text made of white space only, and text made of double quotes only. *)
Definition blank (s : string) : Prop :=
  Forall (λ a, isspace a = true) (String.list_ascii_of_string s).

Definition quotes (s : string) : Prop :=
  Forall (λ a, a = "034"%char) (String.list_ascii_of_string s).

(** The line carries the key and the value: between white space at both
    ends it reads key, "=", raw value, with no other "="; the raw value is
    the value between double quotes, any number of them on either side. *)
Definition entry_of (line key value : string) : Prop :=
  ∃ pre raw post q1 q2,
    line = pre +:+ key +:+ "=" +:+ raw +:+ post
    ∧ blank pre ∧ blank post
    ∧ (∀ a, first_char key = Some a → isspace a = false)
    ∧ (∀ a, last_char raw = Some a → isspace a = false)
    ∧ count_char "=" key = 0%nat ∧ count_char "=" raw = 0%nat
    ∧ raw = q1 +:+ value +:+ q2
    ∧ quotes q1 ∧ quotes q2
    ∧ first_char value ≠ Some "034"%char ∧ last_char value ≠ Some "034"%char.

(** The value of the last line that carries the key. *)
Definition last_entry (ls : list string) (key value : string) : Prop :=
  ∃ i line,
    ls !! i = Some line ∧ entry_of line key value
    ∧ ∀ j line' value', (i < j)%nat → ls !! j = Some line' → ¬ entry_of line' key value'.

(** The lines of the chosen env file: those of its text when the chosen
    path holds a file that can be read; a path that holds no such file has
    no lines. *)
Definition lines_of_chosen (fs : gmap string node) (ls : list string) : Prop :=
  match fs !! chosen_env_path fs with
  | Some (File content) => content = text_of ls ∧ written_lines ls
  | _ => ls = []
  end.

(** [get_env] succeeds exactly when every line of the chosen env file
    holds one "=". *)
Definition succeeds_when_lines_split (k : @kernel elt) : Prop :=
  ∀ ls, lines_of_chosen (files k) ls →
    ((∃ d, fst (get_env k) = inr d) ↔ Forall (λ line, count_char "=" line = 1%nat) ls).

End Notions.

Section Proofs.

Context {elt logit : Type} (rt : @runtime elt logit).

Implicit Types (k : @kernel elt) (c : @DynamicCache elt).

(** *** Strings *)

Lemma split_length sep s : length (split sep s) = S (count_char sep s).
Proof.
  induction s as [|a s IH]; [done|]. simpl.
  destruct (Ascii.eqb a sep); simpl; [by rewrite IH|].
  destruct (split sep s); simpl in *; lia.
Qed.

Lemma count_char_list a s :
  count_char a s = count_list a (String.list_ascii_of_string s).
Proof.
  unfold count_list. induction s as [|b s IH]; [done|]. simpl.
  rewrite filter_cons. destruct (Ascii.eqb_spec b a); case_decide; simpl; try done; by rewrite IH.
Qed.

Lemma count_lstrip p a l : p a = false → count_list a (lstrip_by p l) = count_list a l.
Proof.
  intros Hp. unfold count_list. induction l as [|b l IH]; [done|]. simpl.
  destruct (p b) eqn:Hb; [|done].
  rewrite filter_cons. case_decide; [congruence|done].
Qed.

Lemma count_reverse a l : count_list a (reverse l) = count_list a l.
Proof.
  unfold count_list. apply Permutation_length.
  apply filter_Permutation. apply reverse_Permutation. 
Qed.

Lemma count_strip_by p a s : p a = false → count_char a (strip_by p s) = count_char a s.
Proof.
  intros Hp. rewrite !count_char_list. unfold strip_by, rstrip_by.
  rewrite String.list_ascii_of_string_of_list_ascii.
  by rewrite count_reverse, count_lstrip, count_reverse, count_lstrip.
Qed.

Lemma two_parts_count line : two_parts line ↔ count_char "=" line = 1%nat.
Proof.
  unfold two_parts, strip. rewrite split_length, count_strip_by by done. lia.
Qed.

Lemma two_parts_entry line : two_parts line ↔ is_Some (line_entry line).
Proof.
  unfold two_parts, line_entry.
  destruct (split "=" (strip line)) as [|a [|b [|? ?]]]; simpl; split; intros H;
    try done; try lia; by destruct H.
Qed.

(** *** Strings, continued *)

Lemma list_ascii_app s t :
  String.list_ascii_of_string (s +:+ t)
  = String.list_ascii_of_string s ++ String.list_ascii_of_string t.
Proof. induction s as [|a s IH]; [done|]. simpl. by rewrite IH. Qed.

Lemma lstrip_by_stop p pre a l :
  Forall (λ b, p b = true) pre → p a = false → lstrip_by p (pre ++ a :: l) = a :: l.
Proof.
  intros Hpre Ha. induction Hpre as [|b pre Hb _ IH]; simpl; [by rewrite Ha|by rewrite Hb].
Qed.

Lemma rstrip_by_stop p l b post :
  Forall (λ b, p b = true) post → p b = false → rstrip_by p (l ++ b :: post) = l ++ [b].
Proof.
  intros Hpost Hb. unfold rstrip_by. rewrite reverse_app, reverse_cons, <- app_assoc.
  simpl. rewrite lstrip_by_stop; [|by apply Forall_reverse|done].
  by rewrite reverse_cons, reverse_involutive.
Qed.

Lemma strip_by_between p pre a l b post :
  Forall (λ b, p b = true) pre → Forall (λ b, p b = true) post →
  p a = false → p b = false →
  strip_by p (String.string_of_list_ascii (pre ++ a :: l ++ b :: post))
  = String.string_of_list_ascii (a :: l ++ [b]).
Proof.
  intros Hpre Hpost Ha Hb. unfold strip_by.
  rewrite String.list_ascii_of_string_of_list_ascii, lstrip_by_stop by done.
  f_equal. by apply (rstrip_by_stop p (a :: l) b post).
Qed.

Lemma last_value_entry key lines v :
  last_value key lines = Some v → ∃ line, line ∈ lines ∧ line_entry line = Some (key, v).
Proof.
  induction lines as [|line lines IH]; [done|]. simpl.
  destruct (last_value key lines) as [v'|].
  - intros [= ->]. destruct IH as (l & ? & ?); [done|]. exists l. split; [by right|done].
  - destruct (line_entry line) as [[k0 v0]|] eqn:E; [|done]. case_decide; [|done].
    intros [= ->]. subst. exists line. split; [by left|done].
Qed.

Lemma count_lstrip_le p a l : (count_list a (lstrip_by p l) ≤ count_list a l)%nat.
Proof.
  unfold count_list. induction l as [|b l IH]; [done|]. simpl.
  destruct (p b); [|done]. rewrite filter_cons. case_decide; simpl; lia.
Qed.

Lemma count_strip_by_le p a s : (count_char a (strip_by p s) ≤ count_char a s)%nat.
Proof.
  rewrite !count_char_list. unfold strip_by, rstrip_by.
  rewrite String.list_ascii_of_string_of_list_ascii, count_reverse.
  etrans; [apply count_lstrip_le|]. rewrite count_reverse. apply count_lstrip_le.
Qed.

Lemma rstrip_by_snoc p l a : p a = true → rstrip_by p (l ++ [a]) = rstrip_by p l.
Proof. intros Ha. unfold rstrip_by. rewrite reverse_snoc. simpl. by rewrite Ha. Qed.

Lemma strip_by_snoc p s a :
  p a = true → strip_by p (s +:+ String a EmptyString) = strip_by p s.
Proof.
  intros Ha. unfold strip_by. f_equal. rewrite list_ascii_app. simpl.
  induction (String.list_ascii_of_string s) as [|b l IH]; simpl.
  - by rewrite Ha.
  - destruct (p b); [done|]. by apply (rstrip_by_snoc p (b :: l)).
Qed.

Lemma split_pieces sep s piece :
  piece ∈ split sep s →
  count_char sep piece = 0%nat ∧ ∀ a, (count_char a piece ≤ count_char a s)%nat.
Proof.
  revert piece. induction s as [|b s IH]; intros piece; simpl.
  - intros ->%list_elem_of_singleton. done.
  - destruct (Ascii.eqb_spec b sep) as [->|Hne].
    + intros [->|Hin]%elem_of_cons; [split; [done|intros; simpl; lia]|].
      destruct (IH _ Hin) as [? Hle]. split; [done|]. intros a. specialize (Hle a). lia.
    + destruct (split sep s) as [|q qs] eqn:E; [exfalso; by destruct s; simpl in E;
        [|destruct (Ascii.eqb _ _); [|destruct (split sep _)]]|].
      intros [->|Hin]%elem_of_cons.
      * destruct (IH q) as [Hq Hle]; [by left|]. simpl.
        destruct (Ascii.eqb_spec b sep); [done|]. split; [done|].
        intros a. specialize (Hle a). lia.
      * destruct (IH piece) as [? Hle]; [by right|]. split; [done|].
        intros a. specialize (Hle a). lia.
Qed.

Lemma split_first_char sep s key rest a :
  split sep s = key :: rest → first_char key = Some a → first_char s = Some a.
Proof.
  destruct s as [|b s]; simpl; [by intros [= <- _]|].
  destruct (Ascii.eqb b sep); [by intros [= <- _]|].
  destruct (split sep s); by intros [= <- _].
Qed.

Lemma lstrip_by_head p l a : head (lstrip_by p l) = Some a → p a = false.
Proof.
  induction l as [|b l IH]; simpl; [done|].
  destruct (p b) eqn:Hb; [done|]. by intros [= <-].
Qed.

Lemma rstrip_by_prefix p l : ∃ post, l = rstrip_by p l ++ post.
Proof.
  induction l as [|b l IH] using rev_ind; [by exists []|].
  destruct (p b) eqn:Hb.
  - rewrite rstrip_by_snoc by done. destruct IH as [post Hpost].
    exists (post ++ [b]). by rewrite app_assoc, <- Hpost.
  - exists []. rewrite (rstrip_by_stop p l b []) by done. by rewrite app_nil_r.
Qed.

Lemma strip_by_first_char p s a : first_char (strip_by p s) = Some a → p a = false.
Proof.
  unfold first_char, strip_by. rewrite String.list_ascii_of_string_of_list_ascii.
  intros H. apply (lstrip_by_head p (String.list_ascii_of_string s)).
  destruct (rstrip_by_prefix p (lstrip_by p (String.list_ascii_of_string s))) as [post E].
  rewrite E. by destruct (rstrip_by p _).
Qed.

Lemma strip_by_last_char p s a : last_char (strip_by p s) = Some a → p a = false.
Proof.
  unfold last_char, strip_by, rstrip_by. rewrite String.list_ascii_of_string_of_list_ascii.
  rewrite last_reverse. apply lstrip_by_head.
Qed.

Lemma lines_keepends_line s line :
  line ∈ lines_keepends s →
  ∃ body, count_char "010" body = 0%nat ∧ (line = body ∨ line = body +:+ nl).
Proof.
  revert line. induction s as [|a s IH]; intros line; simpl.
  - by intros ?%elem_of_nil.
  - destruct (Ascii.eqb_spec a "010") as [->|Hne].
    + intros [->|Hin]%elem_of_cons; [|by apply IH]. exists "". split; [done|by right].
    + destruct (lines_keepends s) as [|l ls].
      * intros ->%list_elem_of_singleton. exists (String a ""). split; [|by left].
        simpl. by destruct (Ascii.eqb_spec a "010").
      * intros [->|Hin]%elem_of_cons; [|apply IH; by right].
        destruct (IH l) as (body & Hb & Hl); [by left|].
        exists (String a body). split; [simpl; by destruct (Ascii.eqb_spec a "010")|].
        destruct Hl as [->| ->]; [by left|by right].
Qed.

Lemma strip_line_no_newline s line :
  line ∈ lines_keepends s → count_char "010" (strip line) = 0%nat.
Proof.
  intros (body & Hb & [->| ->])%lines_keepends_line; unfold strip.
  - pose proof (count_strip_by_le isspace "010" body). lia.
  - unfold nl. rewrite strip_by_snoc by done.
    pose proof (count_strip_by_le isspace "010" body). lia.
Qed.

Lemma append_cons a (s t : string) : String a s +:+ t = String a (s +:+ t).
Proof. reflexivity. Qed.

Lemma append_assoc (s t u : string) : (s +:+ t) +:+ u = s +:+ t +:+ u.
Proof. induction s as [|a s IH]; [done|]. by rewrite !append_cons, IH. Qed.

Lemma count_char_app a s t : count_char a (s +:+ t) = (count_char a s + count_char a t)%nat.
Proof.
  induction s as [|b s IH]; [done|]. rewrite append_cons. simpl. rewrite IH. lia.
Qed.

Lemma lstrip_by_id p l : (∀ a, head l = Some a → p a = false) → lstrip_by p l = l.
Proof. destruct l as [|b l]; [done|]. intros H. simpl. by rewrite (H b). Qed.

Lemma rstrip_by_id p l : (∀ a, last l = Some a → p a = false) → rstrip_by p l = l.
Proof.
  destruct l as [|b l _] using rev_ind; [done|]. intros H.
  apply (rstrip_by_stop p l b []); [done|]. apply H. by rewrite last_snoc.
Qed.

Lemma strip_by_id p s :
  (∀ a, first_char s = Some a → p a = false) →
  (∀ a, last_char s = Some a → p a = false) →
  strip_by p s = s.
Proof.
  intros Hf Hl. unfold strip_by. rewrite lstrip_by_id, rstrip_by_id by done.
  apply String.string_of_list_ascii_of_string.
Qed.

Lemma first_char_app s t :
  first_char (s +:+ t) = match first_char s with Some a => Some a | None => first_char t end.
Proof. by destruct s. Qed.

Lemma last_char_app s t :
  last_char (s +:+ t) = match last_char t with Some a => Some a | None => last_char s end.
Proof.
  unfold last_char. rewrite list_ascii_app.
  destruct (String.list_ascii_of_string t) as [|b l _] using rev_ind.
  - by rewrite app_nil_r.
  - by rewrite app_assoc, !last_snoc.
Qed.

Lemma split_whole sep s : count_char sep s = 0%nat → split sep s = [s].
Proof.
  induction s as [|a s IH]; [done|]. simpl.
  destruct (Ascii.eqb a sep); [done|]. intros H. by rewrite IH.
Qed.

Lemma split_at_sep sep key rest :
  count_char sep key = 0%nat →
  split sep (key +:+ String sep rest) = key :: split sep rest.
Proof.
  induction key as [|a key IH].
  - intros _. change ("" +:+ String sep rest) with (String sep rest). simpl.
    by rewrite Ascii.eqb_refl.
  - rewrite append_cons. simpl. destruct (Ascii.eqb a sep); [done|]. intros H. by rewrite IH.
Qed.

Lemma translate_newlines_id s : count_char "013" s = 0%nat → translate_newlines s = s.
Proof.
  induction s as [|a s IH]; [done|]. simpl count_char.
  destruct (Ascii.eqb_spec a "013") as [->|Hne]; [done|]. intros H.
  rewrite <- (IH H) at 2. clear IH H.
  destruct a as [[] [] [] [] [] [] [] []]; try done.
Qed.

Lemma lines_keepends_line_break body rest :
  count_char "010" body = 0%nat →
  lines_keepends (body +:+ nl +:+ rest) = (body +:+ nl) :: lines_keepends rest.
Proof.
  induction body as [|a body IH]; [done|]. rewrite !append_cons. simpl.
  destruct (Ascii.eqb a "010"); [done|]. intros H. by rewrite IH.
Qed.

Lemma append_nil_r (s : string) : s +:+ "" = s.
Proof. induction s as [|a s IH]; [done|]. by rewrite append_cons, IH. Qed.

Lemma not_quote a :
  a ≠ "034"%char → existsb (Ascii.eqb a) (String.list_ascii_of_string quote) = false.
Proof. intros Ha. simpl. by destruct (Ascii.eqb_spec a "034"). Qed.

Lemma strip_quotes quoted value :
  first_char value ≠ Some "034"%char →
  last_char value ≠ Some "034"%char →
  strip_chars quote (wrap quoted +:+ value +:+ wrap quoted) = value.
Proof.
  intros Hf Hl. unfold strip_chars.
  assert (strip_by (λ a, existsb (Ascii.eqb a) (String.list_ascii_of_string quote)) value
          = value) as Hid.
  { apply strip_by_id; intros a Ha; apply not_quote; congruence. }
  destruct quoted; [|by rewrite append_nil_r].
  unfold strip_by in *. f_equal. apply (f_equal String.list_ascii_of_string) in Hid.
  rewrite String.list_ascii_of_string_of_list_ascii in Hid.
  unfold wrap, quote. rewrite append_cons. change ("" +:+ ?s) with s.
  rewrite <- (String.string_of_list_ascii_of_string value) at 2.
  f_equal. cbn [String.list_ascii_of_string lstrip_by existsb]. rewrite Ascii.eqb_refl.
  cbn [orb]. rewrite list_ascii_app. cbn [String.list_ascii_of_string].
  unfold first_char, last_char in *.
  destruct (String.list_ascii_of_string value) as [|b l] eqn:E; [done|].
  assert (b ≠ "034"%char) as Hb by (intros ->; by apply Hf).
  change ((b :: l) ++ ["034"%char]) with (b :: (l ++ ["034"%char])).
  cbn [lstrip_by existsb]. destruct (Ascii.eqb_spec b "034"); [done|]. cbn [orb].
  change (b :: l ++ ["034"%char]) with ((b :: l) ++ ["034"%char]).
  rewrite (rstrip_by_snoc _ (b :: l)) by done.
  apply rstrip_by_id. intros a Ha. apply not_quote. congruence.
Qed.

Lemma line_entry_env_line quoted key value :
  readable quoted key value → line_entry (env_line quoted key value) = Some (key, value).
Proof.
  intros ((Hk1 & Hk2 & Hk3) & (Hv1 & Hv2 & Hv3) & Hkf & Hvf & Hvl & Hbare).
  unfold line_entry, env_line.
  set (rhs := wrap quoted +:+ value +:+ wrap quoted).
  assert (count_char "=" rhs = 0%nat) as Hrhs.
  { subst rhs. rewrite !count_char_app, Hv1. by destruct quoted. }
  assert (key +:+ "=" +:+ wrap quoted +:+ value +:+ wrap quoted +:+ nl
          = (key +:+ String "=" rhs) +:+ nl) as ->.
  { subst rhs. rewrite append_assoc.
    rewrite (append_cons "=" (wrap quoted +:+ value +:+ wrap quoted) nl).
    by rewrite !append_assoc. }
  assert (strip ((key +:+ String "=" rhs) +:+ nl) = key +:+ String "=" rhs) as ->.
  { unfold strip, nl. rewrite strip_by_snoc by done. apply strip_by_id.
    - intros a. rewrite first_char_app. destruct (first_char key) as [b|] eqn:E.
      + intros [= <-]. by apply Hkf.
      + by intros [= <-].
    - intros a. rewrite last_char_app. change (String "=" rhs) with ("=" +:+ rhs).
      rewrite last_char_app. subst rhs. rewrite !last_char_app.
      destruct quoted; [by intros [= <-]|]. cbn [wrap]. change (last_char "") with (@None ascii).
      destruct (last_char value) as [b|] eqn:E.
      + intros [= <-]. by apply Hbare.
      + by intros [= <-]. }
  rewrite split_at_sep, split_whole by done. subst rhs. by rewrite strip_quotes.
Qed.

Lemma get_env_loop_env_lines entries : ∀ d,
  Forall (λ '(quoted, key, value), readable quoted key value) entries →
  get_env_loop ((λ '(quoted, key, value), env_line quoted key value) <$> entries) d
  = inr (foldl (λ d '(_, key, value), <[key := value]> d) d entries).
Proof.
  induction entries as [|[[q key] value] entries IH]; intros d H; [done|].
  apply Forall_cons in H as [He H]. rewrite fmap_cons. cbn [get_env_loop foldl].
  pose proof (line_entry_env_line q key value He) as Hentry. unfold line_entry in Hentry.
  destruct (split "=" (strip (env_line q key value))) as [|a [|b [|? ?]]]; try done.
  injection Hentry as -> ->. by apply IH.
Qed.

Lemma env_line_counts quoted key value :
  readable quoted key value →
  count_char "013" (env_line quoted key value) = 0%nat
  ∧ ∃ body, env_line quoted key value = body +:+ nl ∧ count_char "010" body = 0%nat.
Proof.
  intros ((Hk1 & Hk2 & Hk3) & (Hv1 & Hv2 & Hv3) & _). split.
  - unfold env_line. rewrite !count_char_app, Hk3, Hv3. by destruct quoted.
  - exists (key +:+ "=" +:+ wrap quoted +:+ value +:+ wrap quoted). split.
    + unfold env_line. by rewrite !append_assoc.
    + rewrite !count_char_app, Hk2, Hv2. by destruct quoted.
Qed.

Lemma file_lines_env_text entries :
  Forall (λ '(quoted, key, value), readable quoted key value) entries →
  file_lines (env_text entries)
  = (λ '(quoted, key, value), env_line quoted key value) <$> entries.
Proof.
  intros H. unfold file_lines. rewrite translate_newlines_id.
  - induction H as [|[[q key] value] entries He _ IH]; [done|].
    destruct (env_line_counts q key value He) as (_ & body & Hbody & Hnl).
    cbn [env_text foldr]. rewrite fmap_cons, Hbody, append_assoc.
    rewrite lines_keepends_line_break by done. f_equal. apply IH.
  - induction H as [|[[q key] value] entries He _ IH]; [done|].
    destruct (env_line_counts q key value He) as (Hcr & _).
    cbn [env_text foldr]. rewrite count_char_app, Hcr. apply IH.
Qed.

(** *** get_env *)

Lemma path_exists_run p k :
  path_exists p k = (inr (bool_decide (is_Some (files k !! p))), add_event (EvExists p) k).
Proof. reflexivity. Qed.

Lemma open_read_outcome path k :
  open_read path k
  = (match files k !! path with
     | Some (File content) => inr content
     | Some Directory => inl IsADirectoryError
     | Some Unreadable => inl PermissionError
     | None => inl (FileNotFoundError path)
     end, add_event (EvOpen path) k).
Proof.
  unfold open_read, mbind, M_bind, log, gets. cbn [files add_event].
  by destruct (files k !! path) as [[content| |]|].
Qed.

Lemma open_read_run path k content :
  files k !! path = Some (File content) →
  open_read path k = (inr content, add_event (EvOpen path) k).
Proof. intros H. by rewrite open_read_outcome, H. Qed.

(** A run of [get_env], by what the chosen path holds. *)
Lemma get_env_run k :
  get_env k
  = let path := chosen_env_path (files k) in
    let k2 := add_event (EvExists path) (add_event (EvExists ".env") k) in
    match files k !! path with
    | Some (File content) =>
        (get_env_loop (file_lines content) ∅, add_event (EvOpen path) k2)
    | Some Directory => (inl IsADirectoryError, add_event (EvOpen path) k2)
    | Some Unreadable => (inl PermissionError, add_event (EvOpen path) k2)
    | None =>
        (inr ∅, add_event (EvPrint "No .env or env file found; HF_TOKEN may not be set.") k2)
    end.
Proof.
  unfold get_env, chosen_env_path. unfold mbind at 1, M_bind at 1. rewrite path_exists_run.
  set (path := if bool_decide (is_Some (files k !! ".env")) then ".env" else "env").
  unfold mbind at 1, M_bind at 1. rewrite path_exists_run. cbn [files add_event].
  cbv zeta. destruct (files k !! path) as [[content| |]|] eqn:Hf.
  - rewrite bool_decide_true by eauto. unfold mbind at 1, M_bind at 1.
    rewrite (open_read_run _ _ content) by done. reflexivity.
  - rewrite bool_decide_true by eauto. unfold mbind at 1, M_bind at 1.
    rewrite open_read_outcome. cbn [files add_event]. by rewrite Hf.
  - rewrite bool_decide_true by eauto. unfold mbind at 1, M_bind at 1.
    rewrite open_read_outcome. cbn [files add_event]. by rewrite Hf.
  - rewrite bool_decide_false by (by intros [? ?]). reflexivity.
Qed.

Lemma get_env_text k content :
  chosen_env_file (files k) = Some content →
  fst (get_env k) = get_env_loop (file_lines content) ∅.
Proof.
  unfold chosen_env_file. rewrite get_env_run. cbv zeta.
  destruct (files k !! chosen_env_path (files k)) as [[c| |]|]; try done. by intros [= ->].
Qed.

Lemma get_env_success k d :
  fst (get_env k) = inr d → get_env_loop (env_lines (files k)) ∅ = inr d.
Proof.
  unfold env_lines, chosen_env_file. rewrite get_env_run. cbv zeta.
  by destruct (files k !! chosen_env_path (files k)) as [[c| |]|].
Qed.

Lemma get_env_loop_ok lines d :
  Forall two_parts lines → ∃ d', get_env_loop lines d = inr d'.
Proof.
  intros H. revert d. induction H as [|line lines Hl _ IH]; intros d; [by eexists|].
  simpl. apply two_parts_entry in Hl. unfold line_entry in Hl.
  destruct (split "=" (strip line)) as [|a [|b [|? ?]]];
    try (exfalso; by destruct Hl as [? ?]).
  apply IH.
Qed.

Lemma get_env_loop_err lines d :
  ¬ Forall two_parts lines → get_env_loop lines d = inl ValueError.
Proof.
  revert d. induction lines as [|line lines IH]; intros d Hn; [by destruct Hn|].
  simpl. destruct (decide (two_parts line)) as [Hl|Hl].
  - apply two_parts_entry in Hl as Hl'. unfold line_entry in Hl'.
    destruct (split "=" (strip line)) as [|a [|b [|? ?]]];
      try (exfalso; by destruct Hl' as [? ?]).
    apply IH. intros HF. apply Hn. by constructor.
  - rewrite two_parts_entry in Hl. unfold line_entry in Hl.
    destruct (split "=" (strip line)) as [|a [|b [|? ?]]]; try done.
    destruct Hl. by eexists.
Qed.

Lemma get_env_loop_lookup lines d d' key :
  get_env_loop lines d = inr d' →
  d' !! key = match last_value key lines with Some v => Some v | None => d !! key end.
Proof.
  revert d. induction lines as [|line lines IH]; intros d H; simpl in *; [by simplify_eq|].
  unfold line_entry.
  destruct (split "=" (strip line)) as [|a [|b [|? ?]]]; try done.
  apply IH in H. rewrite H. destruct (last_value key lines); [done|].
  case_decide; subst; [by rewrite lookup_insert_eq|by rewrite lookup_insert_ne].
Qed.

(** [get_env] looks at a line through [strip] only. *)
Lemma line_entry_ext l1 l2 : strip l1 = strip l2 → line_entry l1 = line_entry l2.
Proof. intros H. unfold line_entry. by rewrite H. Qed.

Lemma get_env_loop_ext l1 : ∀ l2 d,
  strip <$> l1 = strip <$> l2 → get_env_loop l1 d = get_env_loop l2 d.
Proof.
  induction l1 as [|a l1 IH]; intros [|b l2] d H; try done.
  rewrite !fmap_cons in H. injection H as Hs Hr. simpl. rewrite Hs.
  destruct (split "=" (strip b)) as [|? [|? [|? ?]]]; try done. by apply IH.
Qed.

Lemma last_value_ext key l1 : ∀ l2,
  strip <$> l1 = strip <$> l2 → last_value key l1 = last_value key l2.
Proof.
  induction l1 as [|a l1 IH]; intros [|b l2] H; try done.
  rewrite !fmap_cons in H. injection H as Hs Hr. simpl.
  by rewrite (IH l2 Hr), (line_entry_ext a b Hs).
Qed.

(** **** The lines of a text *)

Lemma translate_unbroken body s :
  count_char "013" body = 0%nat →
  translate_newlines (body +:+ s) = body +:+ translate_newlines s.
Proof.
  induction body as [|a body IH]; [done|]. rewrite !append_cons. simpl count_char.
  destruct (Ascii.eqb_spec a "013") as [->|Hne]; [done|]. intros H.
  rewrite <- (IH H). clear IH H.
  destruct a as [[] [] [] [] [] [] [] []]; try done.
Qed.

Lemma translate_cr s :
  first_char s ≠ Some "010"%char →
  translate_newlines (cr +:+ s) = nl +:+ translate_newlines s.
Proof.
  destruct s as [|a s]; [done|]. intros H.
  assert (a ≠ "010"%char) as Hne by (intros ->; by apply H). clear H.
  change (cr +:+ String a s) with (String "013" (String a s)).
  change (nl +:+ ?x) with (String "010" x).
  destruct a as [[] [] [] [] [] [] [] []]; try done.
Qed.

Lemma lines_keepends_single body :
  body ≠ "" → count_char "010" body = 0%nat → lines_keepends body = [body].
Proof.
  induction body as [|a body IH]; [done|]. intros _. simpl.
  destruct (Ascii.eqb a "010"); [done|]. intros H.
  destruct body as [|b body]; [done|]. by rewrite IH.
Qed.

Lemma strip_line_end body t :
  line_end t ∨ t = "" → strip (body +:+ t) = strip body.
Proof.
  unfold strip. intros [[->|[->| ->]]| ->].
  - exact (strip_by_snoc isspace body "010" eq_refl).
  - rewrite <- append_assoc.
    etrans; [exact (strip_by_snoc isspace (body +:+ cr) "010" eq_refl)|].
    exact (strip_by_snoc isspace body "013" eq_refl).
  - exact (strip_by_snoc isspace body "013" eq_refl).
  - by rewrite append_nil_r.
Qed.

Lemma written_file_lines ls :
  written_lines ls → strip <$> file_lines (text_of ls) = strip <$> ls.
Proof.
  unfold file_lines. induction ls as [|l rest IH]; [done|].
  intros [(body & t & -> & [Hnl Hcr] & Hend & Hlone) Hrest].
  specialize (IH Hrest). cbn [text_of foldr]. fold (text_of rest).
  rewrite append_assoc, translate_unbroken by done.
  assert (strip (body +:+ t) = strip (body +:+ nl)) as Hs.
  { rewrite !strip_line_end; [done|left; by left|].
    destruct Hend as [?|(-> & _)]; [by left|by right]. }
  rewrite fmap_cons, Hs.
  destruct Hend as [[->|[->| ->]]|(-> & Hbody & ->)].
  - change (translate_newlines (nl +:+ text_of rest))
      with (nl +:+ translate_newlines (text_of rest)).
    rewrite lines_keepends_line_break by done. rewrite fmap_cons. by f_equal.
  - rewrite append_assoc.
    change (translate_newlines (cr +:+ nl +:+ text_of rest))
      with (nl +:+ translate_newlines (text_of rest)).
    rewrite lines_keepends_line_break by done. rewrite fmap_cons. by f_equal.
  - rewrite translate_cr by (by apply Hlone).
    rewrite lines_keepends_line_break by done. rewrite fmap_cons. by f_equal.
  - cbn [text_of foldr]. change (translate_newlines ("" +:+ "")) with "".
    rewrite append_nil_r, lines_keepends_single by done.
    by rewrite !fmap_cons, strip_line_end by (left; by left).
Qed.

(** Every text is made of lines as they are written. *)
Lemma text_written s : ∃ ls, text_of ls = s ∧ written_lines ls.
Proof.
  induction s as [|a s (ls & Hs & Hw)]; [by exists []|].
  destruct (Ascii.eqb_spec a "010") as [->|Hlf].
  { exists (nl :: ls). split; [cbn [text_of foldr]; fold (text_of ls); by rewrite Hs|].
    split; [|done]. exists "", nl. split_and!; [done|done|left; by left|done]. }
  destruct (Ascii.eqb_spec a "013") as [->|Hcr].
  - destruct (decide (first_char s = Some "010"%char)) as [Hfirst|Hfirst].
    + destruct ls as [|l rest]; [by subst|].
      destruct Hw as [(body & t & -> & [Hb _] & Hend & _) Hrest].
      cbn [text_of foldr] in Hs. fold (text_of rest) in Hs.
      destruct body as [|b body].
      * destruct Hend as [[->|[->| ->]]|(_ & ? & _)]; [|by subst|by subst|done].
        exists ((cr +:+ nl) :: rest). split; [by rewrite <- Hs|].
        split; [|done]. exists "", (cr +:+ nl). split_and!; [done|done|left; right; by left|done].
      * rewrite <- Hs in Hfirst. injection Hfirst as ->. done.
    + exists (cr :: ls). split; [cbn [text_of foldr]; fold (text_of ls); by rewrite Hs|].
      split; [|done]. exists "", cr. split_and!; [done|done|left; right; by right|].
      intros _. by rewrite Hs.
  - assert (∀ body, unbroken body → unbroken (String a body)) as Hun.
    { intros body [H1 H2]. split; simpl.
      - by destruct (Ascii.eqb_spec a "010").
      - by destruct (Ascii.eqb_spec a "013"). }
    destruct ls as [|l rest].
    + exists [String a ""]. split; [by subst|]. split; [|done].
      exists (String a ""), "". split_and!; [done|by apply Hun|by right|done].
    + destruct Hw as [(body & t & -> & Hb & Hend & Hlone) Hrest].
      exists ((String a body +:+ t) :: rest). split.
      * cbn [text_of foldr] in *. fold (text_of rest) in *. by rewrite <- Hs, !append_cons.
      * split; [|done]. exists (String a body), t. split_and!; [done|by apply Hun| |done].
        destruct Hend as [?|(-> & _ & ->)]; [by left|by right].
Qed.

(** **** What a line carries *)

Lemma string_of_list_app l1 l2 :
  String.string_of_list_ascii (l1 ++ l2)
  = String.string_of_list_ascii l1 +:+ String.string_of_list_ascii l2.
Proof. induction l1 as [|a l1 IH]; [done|]. simpl. by rewrite append_cons, IH. Qed.

Lemma lstrip_by_split p l :
  ∃ pre, l = pre ++ lstrip_by p l ∧ Forall (λ b, p b = true) pre.
Proof.
  induction l as [|a l (pre & IH & Hpre)]; [by exists []|]. simpl.
  destruct (p a) eqn:Ha; [|by exists []].
  exists (a :: pre). split; [by rewrite <- app_comm_cons, <- IH|by constructor].
Qed.

Lemma rstrip_by_split p l :
  ∃ post, l = rstrip_by p l ++ post ∧ Forall (λ b, p b = true) post.
Proof.
  destruct (lstrip_by_split p (reverse l)) as (pre & H & Hpre).
  exists (reverse pre). split; [|by apply Forall_reverse].
  unfold rstrip_by. rewrite <- reverse_app, <- H. by rewrite reverse_involutive.
Qed.

Lemma strip_by_split p s :
  ∃ pre post,
    s = String.string_of_list_ascii pre +:+ strip_by p s +:+ String.string_of_list_ascii post
    ∧ Forall (λ b, p b = true) pre ∧ Forall (λ b, p b = true) post.
Proof.
  destruct (lstrip_by_split p (String.list_ascii_of_string s)) as (pre & H1 & Hpre).
  destruct (rstrip_by_split p (lstrip_by p (String.list_ascii_of_string s)))
    as (post & H2 & Hpost).
  exists pre, post. split; [|done]. unfold strip_by.
  rewrite <- !string_of_list_app, <- H2, <- H1.
  by rewrite String.string_of_list_ascii_of_string.
Qed.

Lemma lstrip_by_all p l : Forall (λ b, p b = true) l → lstrip_by p l = [].
Proof. induction 1 as [|a l Ha _ IH]; [done|]. simpl. by rewrite Ha. Qed.

Lemma lstrip_by_drop p pre l :
  Forall (λ b, p b = true) pre → lstrip_by p (pre ++ l) = lstrip_by p l.
Proof. induction 1 as [|a pre Ha _ IH]; [done|]. simpl. by rewrite Ha. Qed.

Lemma rstrip_by_drop p l post :
  Forall (λ b, p b = true) post → rstrip_by p (l ++ post) = rstrip_by p l.
Proof.
  intros H. unfold rstrip_by. rewrite reverse_app, lstrip_by_drop; [done|].
  by apply Forall_reverse.
Qed.

Lemma strip_by_pad p pre s post :
  Forall (λ b, p b = true) (String.list_ascii_of_string pre) →
  Forall (λ b, p b = true) (String.list_ascii_of_string post) →
  strip_by p (pre +:+ s +:+ post) = strip_by p s.
Proof.
  intros Hpre Hpost. unfold strip_by. rewrite !list_ascii_app, lstrip_by_drop by done.
  f_equal. induction (String.list_ascii_of_string s) as [|a l IH].
  - simpl. by rewrite lstrip_by_all.
  - simpl. destruct (p a); [done|]. by rewrite app_comm_cons, rstrip_by_drop.
Qed.

Lemma split_two sep s key raw :
  split sep s = [key; raw] →
  s = key +:+ String sep raw ∧ count_char sep key = 0%nat ∧ count_char sep raw = 0%nat.
Proof.
  revert key. induction s as [|a s IH]; intros key; [done|]. simpl.
  destruct (Ascii.eqb_spec a sep) as [->|Hne].
  - intros [= <- Hs]. assert (count_char sep s = 0%nat) as Hc.
    { pose proof (split_length sep s) as Hl. rewrite Hs in Hl. simpl in Hl. lia. }
    rewrite split_whole in Hs by done. by simplify_eq.
  - destruct (split sep s) as [|h t] eqn:Hs; [done|]. intros [= <- ->].
    destruct (IH h eq_refl) as (-> & Hh & Hraw). split_and!; [done| |done].
    simpl. by destruct (Ascii.eqb_spec a sep).
Qed.

Lemma blank_list s :
  blank s ↔ Forall (λ b, isspace b = true) (String.list_ascii_of_string s).
Proof. done. Qed.

Lemma quotes_list s :
  quotes s ↔
  Forall (λ b, existsb (Ascii.eqb b) (String.list_ascii_of_string quote) = true)
    (String.list_ascii_of_string s).
Proof.
  unfold quotes. apply Forall_iff. intros b. simpl. rewrite orb_false_r.
  by destruct (Ascii.eqb_spec b "034").
Qed.

Lemma quote_not b :
  existsb (Ascii.eqb b) (String.list_ascii_of_string quote) = false → b ≠ "034"%char.
Proof. simpl. rewrite orb_false_r. by destruct (Ascii.eqb_spec b "034"). Qed.

(** The key and the value that [get_env] takes from a line are those that
    the line carries. *)
Lemma line_entry_carries line key value :
  line_entry line = Some (key, value) ↔ entry_of line key value.
Proof.
  unfold line_entry. split.
  - destruct (split "=" (strip line)) as [|a [|raw [|? ?]]] eqn:Hs; try done.
    intros [= -> <-]. apply split_two in Hs as (Hs & Hkey & Hraw).
    destruct (strip_by_split isspace line) as (pre & post & Hline & Hpre & Hpost).
    fold (strip line) in Hline.
    destruct (strip_by_split (λ a, existsb (Ascii.eqb a) (String.list_ascii_of_string quote)) raw)
      as (q1 & q2 & Hq & Hq1 & Hq2).
    fold (strip_chars quote raw) in Hq.
    exists (String.string_of_list_ascii pre), raw, (String.string_of_list_ascii post),
      (String.string_of_list_ascii q1), (String.string_of_list_ascii q2).
    split_and!.
    + rewrite Hline at 1. rewrite Hs. by rewrite append_assoc.
    + apply blank_list. by rewrite String.list_ascii_of_string_of_list_ascii.
    + apply blank_list. by rewrite String.list_ascii_of_string_of_list_ascii.
    + intros a Ha. apply (strip_by_first_char isspace line). fold (strip line).
      by rewrite Hs, first_char_app, Ha.
    + intros a Ha. apply (strip_by_last_char isspace line). fold (strip line).
      rewrite Hs, last_char_app.
      destruct raw as [|b raw']; [done|].
      change (last_char (String "=" (String b raw'))) with (last_char (String b raw')).
      by rewrite Ha.
    + done.
    + done.
    + done.
    + apply quotes_list. by rewrite String.list_ascii_of_string_of_list_ascii.
    + apply quotes_list. by rewrite String.list_ascii_of_string_of_list_ascii.
    + intros Hf. by apply strip_by_first_char, quote_not in Hf.
    + intros Hf. by apply strip_by_last_char, quote_not in Hf.
  - intros (pre & raw & post & q1 & q2 & -> & Hpre & Hpost & Hk & Hr & Hck & Hcr
            & Hraw & Hq1 & Hq2 & Hv1 & Hv2).
    assert (strip (pre +:+ key +:+ "=" +:+ raw +:+ post) = key +:+ "=" +:+ raw) as ->.
    { unfold strip.
      replace (pre +:+ key +:+ "=" +:+ raw +:+ post)
        with (pre +:+ (key +:+ "=" +:+ raw) +:+ post) by (by rewrite !append_assoc).
      rewrite strip_by_pad by done. apply strip_by_id.
      - intros a. rewrite first_char_app. destruct (first_char key) eqn:Hf.
        + intros [= <-]. by apply Hk.
        + by intros [= <-].
      - intros a. rewrite last_char_app.
        change ("=" +:+ raw) with (String "=" raw).
        destruct raw as [|b raw']; [by intros [= <-]|].
        change (last_char (String "=" (String b raw'))) with (last_char (String b raw')).
        destruct (last_char (String b raw')) eqn:Hl; [|by apply last_None in Hl].
        intros [= <-]. by apply Hr. }
    change ("=" +:+ raw) with (String "=" raw).
    rewrite split_at_sep, split_whole by done. f_equal. f_equal.
    rewrite Hraw. unfold strip_chars. rewrite strip_by_pad by (by apply quotes_list).
    apply strip_by_id.
    + intros a Ha. apply not_quote. intros ->. by apply Hv1.
    + intros a Ha. apply not_quote. intros ->. by apply Hv2.
Qed.

Lemma last_value_none key ls :
  last_value key ls = None ↔
  ∀ j line value, ls !! j = Some line → line_entry line ≠ Some (key, value).
Proof.
  induction ls as [|l rest IH]; [done|]. simpl. split.
  - destruct (last_value key rest) eqn:Hrest; [done|]. intros Hl [|j] line value Hj.
    + simplify_eq/=. intros He. rewrite He in Hl. by rewrite decide_True in Hl.
    + by apply (proj1 IH eq_refl j).
  - intros H. rewrite (proj2 IH) by (intros j; apply (H (S j))).
    destruct (line_entry l) as [[k v]|] eqn:Hl; [|done].
    case_decide; [|done]. subst. by destruct (H 0%nat l v).
Qed.

Lemma last_value_carries key ls value :
  last_value key ls = Some value ↔ last_entry ls key value.
Proof.
  unfold last_entry. setoid_rewrite <- line_entry_carries.
  induction ls as [|l rest IH]; simpl.
  - split; [done|]. by intros (i & line & ? & _).
  - destruct (last_value key rest) as [v|] eqn:Hrest.
    + split.
      * intros [= ->]. destruct (proj1 IH eq_refl) as (i & line & Hi & He & Hlast).
        exists (S i), line. split_and!; [done..|].
        intros [|j] line' value' Hj; [lia|]. apply Hlast. lia.
      * intros ([|i] & line & Hi & He & Hlast).
        -- apply last_value_entry in Hrest as (line' & Hin & He').
           apply list_elem_of_lookup in Hin as [j Hj].
           by destruct (Hlast (S j) line' v ltac:(lia) Hj).
        -- apply IH. exists i, line. split_and!; [done..|].
           intros j line' value' Hlt Hj. apply (Hlast (S j)); [lia|done].
    + split.
      * intros Hl. exists 0%nat, l. split_and!; [done| |].
        -- destruct (line_entry l) as [[k v]|]; [|done]. case_decide; by simplify_eq.
        -- intros [|j] line' value' Hlt Hj; [lia|].
           by apply (proj1 (last_value_none key rest) Hrest j).
      * intros ([|i] & line & Hi & He & Hlast).
        -- simplify_eq/=. rewrite He. by rewrite decide_True.
        -- by destruct (proj1 (last_value_none key rest) Hrest i line value).
Qed.

Lemma get_env_on_lines k ls :
  lines_of_chosen (files k) ls →
  (files k !! chosen_env_path (files k) = None →
     fst (get_env k) = inr ∅
     ∧ printed (trace (snd (get_env k)))
       = printed (trace k) ++ ["No .env or env file found; HF_TOKEN may not be set."])
  ∧ (∀ content, files k !! chosen_env_path (files k) = Some (File content) →
       ((∃ d, fst (get_env k) = inr d) ↔ Forall (λ line, count_char "=" line = 1%nat) ls)
       ∧ (¬ Forall (λ line, count_char "=" line = 1%nat) ls →
            fst (get_env k) = inl ValueError)
       ∧ (∀ d, fst (get_env k) = inr d →
            ∀ key value, d !! key = Some value ↔ last_entry ls key value))
  ∧ (files k !! chosen_env_path (files k) = Some Directory →
       fst (get_env k) = inl IsADirectoryError)
  ∧ (files k !! chosen_env_path (files k) = Some Unreadable →
       fst (get_env k) = inl PermissionError).
Proof.
  unfold lines_of_chosen. intros Hls. rewrite get_env_run. cbv zeta.
  destruct (files k !! chosen_env_path (files k)) as [[c| |]|] eqn:Hf;
    (split_and!; try done).
  - intros content [= <-]. destruct Hls as [-> Hw]. cbn [fst].
    assert (Forall (λ line, count_char "=" line = 1%nat) ls ↔ Forall two_parts ls) as Hone.
    { apply Forall_iff. intros line. symmetry. apply two_parts_count. }
    rewrite (get_env_loop_ext _ ls) by (by apply written_file_lines).
    split_and!.
    + rewrite Hone. split.
      * intros [d Hd]. destruct (decide (Forall two_parts ls)) as [|Hn]; [done|].
        apply (get_env_loop_err _ ∅) in Hn. congruence.
      * apply get_env_loop_ok.
    + rewrite Hone. apply get_env_loop_err.
    + intros d Hd key value. rewrite (get_env_loop_lookup _ _ _ key Hd), lookup_empty.
      rewrite <- last_value_carries. by destruct (last_value key ls).
  - intros _. split; [done|]. cbn [snd]. unfold printed, add_event. cbn [trace].
    rewrite !omap_app. simpl. by rewrite !app_nil_r.
Qed.

(** C9. [get_env] on the path it chooses, [.env] when that exists and [env]
    otherwise.  The text of a file is made of lines as they are written,
    each ended by a line feed, a carriage return or both, the last one
    possibly by nothing.  When the path does not exist the result is the
    empty dictionary, after a printed notice.  When it holds a text file,
    [get_env] succeeds exactly when every line as written holds exactly one
    "=", and raises [ValueError] otherwise; on success the dictionary maps a
    key to a value exactly when the last line that carries the key, between
    white space, carries that value between double quotes.  When the path
    holds a directory [get_env] raises [IsADirectoryError], and when it
    holds a file that cannot be read, [PermissionError]. *)
Theorem get_env_spec k :
  (∃ ls, lines_of_chosen (files k) ls)
  ∧ ∀ ls, lines_of_chosen (files k) ls →
      (files k !! chosen_env_path (files k) = None →
         fst (get_env k) = inr ∅
         ∧ printed (trace (snd (get_env k)))
           = printed (trace k) ++ ["No .env or env file found; HF_TOKEN may not be set."])
      ∧ (∀ content, files k !! chosen_env_path (files k) = Some (File content) →
           ((∃ d, fst (get_env k) = inr d) ↔ Forall (λ line, count_char "=" line = 1%nat) ls)
           ∧ (¬ Forall (λ line, count_char "=" line = 1%nat) ls →
                fst (get_env k) = inl ValueError)
           ∧ (∀ d, fst (get_env k) = inr d →
                ∀ key value, d !! key = Some value ↔ last_entry ls key value))
      ∧ (files k !! chosen_env_path (files k) = Some Directory →
           fst (get_env k) = inl IsADirectoryError)
      ∧ (files k !! chosen_env_path (files k) = Some Unreadable →
           fst (get_env k) = inl PermissionError).
Proof.
  split; [|apply get_env_on_lines].
  unfold lines_of_chosen.
  destruct (files k !! chosen_env_path (files k)) as [[content| |]|]; try by exists [].
  destruct (text_written content) as (ls & Hs & Hw). by exists ls.
Qed.


(** *** clean_up *)

Lemma kernel_eta k : Kernel (files k) (heap k) (globals k) (trace k) = k.
Proof. by destruct k. Qed.

Lemma with_heap_id k : with_heap (heap k) k = k.
Proof. apply kernel_eta. Qed.

Lemma with_heap_twice h h' k : with_heap h (with_heap h' k) = with_heap h k.
Proof. reflexivity. Qed.

Lemma clean_up_loop_run n idxs : ∀ k l c,
  heap k !! l = Some c →
  clean_up_loop l n idxs k =
    (fst (clean_loop n idxs c), with_heap (<[l := snd (clean_loop n idxs c)]> (heap k)) k).
Proof.
  induction idxs as [|i rest IH]; intros k l c Hl.
  - simpl. rewrite list_insert_id by done. by rewrite with_heap_id.
  - assert (l < length (heap k))%nat as Hlt by (by eapply lookup_lt_Some).
    simpl. unfold mbind, M_bind, load at 1. rewrite Hl. unfold index.
    destruct (key_cache c !! i) as [kt|] eqn:Hk; simpl.
    + unfold load. cbn [heap files globals trace].
      rewrite list_lookup_insert_eq by done. cbn [value_cache set_key].
      destruct (value_cache c !! i) as [vt|] eqn:Hv; simpl.
      * rewrite list_insert_insert_eq.
        erewrite IH; [|cbn [heap]; by apply list_lookup_insert_eq].
        cbn [heap]. by rewrite list_insert_insert_eq.
      * reflexivity.
    + rewrite list_insert_id by done. by rewrite with_heap_id.
Qed.

Lemma clean_loop_frame n idxs : ∀ c,
  length (key_cache (snd (clean_loop n idxs c))) = length (key_cache c)
  ∧ length (value_cache (snd (clean_loop n idxs c))) = length (value_cache c)
  ∧ ∀ j, j ∉ idxs →
      key_cache (snd (clean_loop n idxs c)) !! j = key_cache c !! j
      ∧ value_cache (snd (clean_loop n idxs c)) !! j = value_cache c !! j.
Proof.
  induction idxs as [|i rest IH]; intros c; [done|]. simpl.
  destruct (key_cache c !! i) as [kt|] eqn:Hk; [|done].
  destruct (value_cache c !! i) as [vt|] eqn:Hv; simpl.
  - destruct (IH (set_value i (slice_seq n vt) (set_key i (slice_seq n kt) c)))
      as (HK & HV & Hj). simpl in *.
    rewrite HK, HV, !length_insert. split_and!; [done..|].
    intros j Hj'. apply not_elem_of_cons in Hj' as [Hne Hj'].
    destruct (Hj j Hj') as [-> ->]. by rewrite !list_lookup_insert_ne.
  - rewrite length_insert. split_and!; [done..|].
    intros j Hj'. apply not_elem_of_cons in Hj' as [Hne Hj'].
    by rewrite list_lookup_insert_ne.
Qed.

Lemma clean_loop_effect n idxs : ∀ c,
  NoDup idxs →
  (∀ j, j ∈ idxs → (j < length (key_cache c))%nat ∧ (j < length (value_cache c))%nat) →
  fst (clean_loop n idxs c) = inr tt
  ∧ ∀ j, j ∈ idxs →
      key_cache (snd (clean_loop n idxs c)) !! j = slice_seq n <$> key_cache c !! j
      ∧ value_cache (snd (clean_loop n idxs c)) !! j = slice_seq n <$> value_cache c !! j.
Proof.
  induction idxs as [|i rest IH]; intros c Hnd Hlt.
  - split; [done|]. intros j Hj. by apply elem_of_nil in Hj.
  - apply NoDup_cons in Hnd as [Hi Hnd]. simpl.
    destruct (Hlt i) as [HiK HiV]; [by left|].
    destruct (lookup_lt_is_Some_2 _ _ HiK) as [kt Hk].
    destruct (lookup_lt_is_Some_2 _ _ HiV) as [vt Hv].
    rewrite Hk, Hv.
    set (c2 := set_value i (slice_seq n vt) (set_key i (slice_seq n kt) c)).
    destruct (IH c2 Hnd) as [Hok Heff].
    { intros j Hj. subst c2. simpl. rewrite !length_insert. apply Hlt. by right. }
    split; [done|]. intros j Hj. apply elem_of_cons in Hj as [->|Hj].
    + destruct (clean_loop_frame n rest c2) as (_ & _ & Hfr).
      destruct (Hfr i Hi) as [-> ->]. subst c2. simpl.
      rewrite !list_lookup_insert_eq by done. by rewrite Hk, Hv.
    + destruct (Heff j Hj) as [-> ->]. subst c2. simpl.
      assert (i ≠ j) by (intros ->; done).
      by rewrite !list_lookup_insert_ne.
Qed.

Lemma slice_to_idem {A} n (l : list A) : 0 ≤ n → slice_to n (slice_to n l) = slice_to n l.
Proof.
  intros Hn. unfold slice_to. destruct (Z.ltb_spec n 0); [lia|].
  rewrite take_take. f_equal. lia.
Qed.

Lemma slice_seq_idem n (t : tensor4 elt) : 0 ≤ n → slice_seq n (slice_seq n t) = slice_seq n t.
Proof.
  intros Hn. unfold slice_seq. rewrite <- list_fmap_compose.
  apply list_fmap_ext. intros _ m _. simpl. rewrite <- list_fmap_compose.
  apply list_fmap_ext. intros _ r _. simpl. by apply slice_to_idem.
Qed.

Lemma clean_loop_idem n idxs : ∀ c,
  0 ≤ n → NoDup idxs →
  clean_loop n idxs (snd (clean_loop n idxs c)) = clean_loop n idxs c.
Proof.
  induction idxs as [|i rest IH]; intros c Hn Hnd; [done|].
  apply NoDup_cons in Hnd as [Hi Hnd]. simpl.
  destruct (key_cache c !! i) as [kt|] eqn:Hk; simpl; [|by rewrite Hk].
  assert (i < length (key_cache c))%nat as HiK by (by eapply lookup_lt_Some).
  destruct (value_cache c !! i) as [vt|] eqn:Hv; simpl.
  - assert (i < length (value_cache c))%nat as HiV by (by eapply lookup_lt_Some).
    set (c2 := set_value i (slice_seq n vt) (set_key i (slice_seq n kt) c)).
    destruct (clean_loop_frame n rest c2) as (HlK & HlV & Hfr).
    destruct (Hfr i Hi) as [HK HV]. subst c2. simpl in *.
    rewrite list_lookup_insert_eq in HK by done.
    rewrite list_lookup_insert_eq in HV by done.
    set (c2 := set_value i (slice_seq n vt) (set_key i (slice_seq n kt) c)) in *.
    rewrite HK. simpl. rewrite HV.
    rewrite !slice_seq_idem by done.
    assert (set_value i (slice_seq n vt) (set_key i (slice_seq n kt) (snd (clean_loop n rest c2)))
            = snd (clean_loop n rest c2)) as ->.
    { destruct (snd (clean_loop n rest c2)) as [K V]. unfold set_value, set_key. simpl in *.
      by rewrite !list_insert_id. }
    by apply IH.
  - rewrite list_lookup_insert_eq by done. simpl. rewrite Hv.
    rewrite slice_seq_idem by done. unfold set_key. simpl.
    by rewrite list_insert_insert_eq.
Qed.

Lemma clean_up_run n k l c :
  heap k !! l = Some c →
  clean_up l n k =
    (fst (clean_loop n (seq 0 (length (key_cache c))) c),
     with_heap (<[l := snd (clean_loop n (seq 0 (length (key_cache c))) c)]> (heap k)) k).
Proof.
  intros Hl. unfold clean_up, mbind, M_bind, load. rewrite Hl.
  by apply clean_up_loop_run.
Qed.

Lemma clean_up_dangling n k l :
  heap k !! l = None → clean_up l n k = (inl RuntimeError, k).
Proof. intros Hl. unfold clean_up, mbind, M_bind, load. by rewrite Hl. Qed.

Lemma clean_loop_all n c :
  length (key_cache c) = length (value_cache c) →
  clean_loop n (seq 0 (length (key_cache c))) c
  = (inr tt, mkCache (slice_seq n <$> key_cache c) (slice_seq n <$> value_cache c)).
Proof.
  intros Hwf. set (idxs := seq 0 (length (key_cache c))).
  destruct (clean_loop_effect n idxs c) as [Hok Heff].
  { apply NoDup_seq. }
  { intros j Hj. apply elem_of_seq in Hj. lia. }
  destruct (clean_loop_frame n idxs c) as (HlK & HlV & _).
  destruct (clean_loop n idxs c) as [r [K V]] eqn:E. simpl in *. subst r.
  f_equal. f_equal.
  - apply list_eq. intros j. rewrite list_lookup_fmap.
    destruct (decide (j < length (key_cache c))%nat) as [Hj|Hj].
    + apply Heff, elem_of_seq. lia.
    + rewrite !lookup_ge_None_2; [done| |]; lia.
  - apply list_eq. intros j. rewrite list_lookup_fmap.
    destruct (decide (j < length (key_cache c))%nat) as [Hj|Hj].
    + apply Heff, elem_of_seq. lia.
    + rewrite !lookup_ge_None_2; [done| |]; lia.
Qed.

Lemma slice_first_positions n (t : tensor4 elt) :
  0 ≤ n → seq_at_least (Z.to_nat n) t →
  first_positions (Z.to_nat n) t (slice_seq n t).
Proof.
  intros Hn Hge. unfold first_positions, slice_seq. split; [by rewrite length_fmap|].
  intros b m Hb. exists (slice_to n <$> m). rewrite list_lookup_fmap, Hb.
  split; [done|]. split; [by rewrite length_fmap|].
  intros h r Hh. exists (slice_to n r). rewrite list_lookup_fmap, Hh.
  split; [done|].
  assert (Z.to_nat n ≤ length r)%nat as Hr.
  { unfold seq_at_least in Hge. rewrite Forall_forall in Hge.
    specialize (Hge m (list_elem_of_lookup_2 _ _ _ Hb)).
    rewrite Forall_forall in Hge. apply Hge. by eapply list_elem_of_lookup_2. }
  unfold slice_to. destruct (Z.ltb_spec n 0); [lia|].
  split; [rewrite length_take; lia|].
  intros s Hs. by rewrite lookup_take_lt.
Qed.

(** C3. On a cache object with as many value as key tensors whose tensors
    all span at least [origin_len] positions, [clean_up] returns normally
    and leaves every layer's key and value tensor cut to exactly its first
    [origin_len] positions, batch entries, heads and the retained vectors
    unchanged; nothing else in the kernel changes. *)
Theorem clean_up_truncates k l c origin_len :
  heap k !! l = Some c →
  length (key_cache c) = length (value_cache c) →
  0 ≤ origin_len →
  Forall (seq_at_least (Z.to_nat origin_len)) (key_cache c) →
  Forall (seq_at_least (Z.to_nat origin_len)) (value_cache c) →
  ∃ c', clean_up l origin_len k = (inr tt, with_heap (<[l := c']> (heap k)) k)
    ∧ length (key_cache c') = length (key_cache c)
    ∧ length (value_cache c') = length (value_cache c)
    ∧ (∀ i t, key_cache c !! i = Some t →
         ∃ t', key_cache c' !! i = Some t' ∧ first_positions (Z.to_nat origin_len) t t')
    ∧ (∀ i t, value_cache c !! i = Some t →
         ∃ t', value_cache c' !! i = Some t' ∧ first_positions (Z.to_nat origin_len) t t').
Proof.
  intros Hl Hwf Hn HK HV.
  exists (mkCache (slice_seq origin_len <$> key_cache c) (slice_seq origin_len <$> value_cache c)).
  rewrite (clean_up_run _ _ _ _ Hl), clean_loop_all by done. simpl.
  rewrite !length_fmap. split_and!; try done.
  - intros i t Hi. exists (slice_seq origin_len t). rewrite list_lookup_fmap, Hi.
    split; [done|]. apply slice_first_positions; [done|].
    rewrite Forall_forall in HK. apply HK. by eapply list_elem_of_lookup_2.
  - intros i t Hi. exists (slice_seq origin_len t). rewrite list_lookup_fmap, Hi.
    split; [done|]. apply slice_first_positions; [done|].
    rewrite Forall_forall in HV. apply HV. by eapply list_elem_of_lookup_2.
Qed.

(** C8. For a non-negative [origin_len], a second [clean_up] in succession
    ends as the first did and leaves the kernel, and so the cache, exactly
    as the first left it. *)
Theorem clean_up_idempotent k l origin_len :
  0 ≤ origin_len →
  clean_up l origin_len (snd (clean_up l origin_len k)) = clean_up l origin_len k.
Proof.
  intros Hn. destruct (heap k !! l) as [c|] eqn:Hl.
  - rewrite (clean_up_run _ _ _ _ Hl). cbn [snd].
    assert (l < length (heap k))%nat as Hlt by (by eapply lookup_lt_Some).
    set (idxs := seq 0 (length (key_cache c))).
    destruct (clean_loop_frame origin_len idxs c) as (HlK & _ & _).
    erewrite clean_up_run; [|cbn [heap with_heap]; by apply list_lookup_insert_eq].
    rewrite HlK. fold idxs. rewrite clean_loop_idem by (done || apply NoDup_seq).
    cbn [heap with_heap]. by rewrite list_insert_insert_eq.
  - rewrite (clean_up_dangling _ _ _ Hl). cbn [snd]. by rewrite (clean_up_dangling _ _ _ Hl).
Qed.

(** *** generate *)

Lemma call_model_run x l k c :
  heap k !! l = Some c →
  call_model rt x l k =
    (match fst (forward rt x c) with inl e => inl e | inr lg => inr (lg, l) end,
     with_heap (<[l := snd (forward rt x c)]> (heap k)) (add_events [EvForward x l c] k)).
Proof.
  intros Hl. unfold call_model, mbind, M_bind, load. rewrite Hl.
  unfold log, store, lift. cbn [add_event heap files globals trace].
  by destruct (fst (forward rt x c)).
Qed.

Lemma add_events_app evs evs' k :
  add_events evs' (add_events evs k) = add_events (evs ++ evs') k.
Proof. unfold add_events. cbn. by rewrite <- app_assoc. Qed.

Lemma add_events_nil k : add_events [] k = k.
Proof. unfold add_events. rewrite app_nil_r. apply kernel_eta. Qed.

Lemma generate_loop_spec n : ∀ out l next k c r k',
  heap k !! l = Some c →
  generate_loop rt n out l next k = (r, k') →
  ∃ calls c',
    k' = with_heap (<[l := c']> (heap k)) (add_events (ev_forward l <$> calls) k)
    ∧ c' = after_calls rt c (fst <$> calls)
    ∧ fed next (length out) (fst <$> calls)
    ∧ (length calls ≤ n)%nat
    ∧ ∀ out', r = inr out' →
        ∃ toks, feeds rt next c calls toks
          ∧ length toks = length calls
          ∧ Forall (λ tok, length tok = length out) toks
          ∧ stops rt n toks
          ∧ out' = hcat out toks.
Proof.
  induction n as [|n IH]; intros out l next k c r k' Hl Hrun.
  - exists [], c. simpl in Hrun. injection Hrun as <- <-.
    rewrite list_insert_id by done.
    rewrite add_events_nil, with_heap_id.
    split_and!; [done|done|done|done|].
    intros out' [= <-]. exists []. split_and!; [constructor|done|constructor| |done].
    unfold stops. destruct (eos_token_id rt); [|done].
    split; [|by left]. intros i tok Hi. by rewrite lookup_nil in Hi.
  - assert (l < length (heap k))%nat as Hlt by (by eapply lookup_lt_Some).
    cbn [generate_loop] in Hrun. unfold mbind at 1, M_bind at 1 in Hrun.
    rewrite (call_model_run _ _ _ _ Hl) in Hrun.
    set (c1 := snd (forward rt next c)) in *.
    set (k1 := with_heap (<[l:=c1]> (heap k)) (add_events [EvForward next l c] k)) in *.
    assert (∀ e : exn, (inl e, k1) = (r, k') →
      ∃ calls c', k' = with_heap (<[l:=c']> (heap k)) (add_events (ev_forward l <$> calls) k)
        ∧ c' = after_calls rt c (fst <$> calls)
        ∧ fed next (length out) (fst <$> calls) ∧ (length calls ≤ S n)%nat
        ∧ ∀ out', r = inr out' →
          ∃ toks, feeds rt next c calls toks
            ∧ length toks = length calls
            ∧ Forall (λ tok, length tok = length out) toks
            ∧ stops rt (S n) toks
            ∧ out' = hcat out toks) as Hfail.
    { intros e [= <- <-]. exists [(next, c)], c1. split_and!; try done. simpl. lia. }
    destruct (fst (forward rt next c)) as [e|lg] eqn:Hfw; [by eapply Hfail|].
    cbn [fst snd] in Hrun. unfold mbind at 1, M_bind at 1, lift at 1 in Hrun.
    destruct (last_position lg) as [e|v] eqn:Hlast; [by eapply Hfail|].
    set (token := argmax_keepdim rt v) in *.
    unfold mbind at 1, M_bind at 1, lift at 1 in Hrun.
    destruct (cat_last out token) as [e|out1] eqn:Hcat; [by eapply Hfail|].
    assert (length token = length out ∧ out1 = zip_with app out token) as [Htl Hout1].
    { unfold cat_last in Hcat. case_decide; by simplify_eq. }
    assert (produces rt next c token) as Hprod by (by exists lg, v).
    assert (heap k1 !! l = Some c1) as Hl1.
    { subst k1. cbn [heap with_heap]. by apply list_lookup_insert_eq. }
    assert (length out1 = length out) as Hlo.
    { subst out1. rewrite length_zip_with. lia. }
    assert (token_column (length out) token) as Hcol.
    { split; [done|]. subst token. unfold argmax_keepdim. by apply Forall_fmap, Forall_true. }
    assert (∀ r' k'', generate_loop rt n out1 l token k1 = (r', k'') →
      ∃ calls c', k'' = with_heap (<[l:=c']> (heap k)) (add_events (ev_forward l <$> (next, c) :: calls) k)
        ∧ c' = after_calls rt c (fst <$> (next, c) :: calls)
        ∧ fed next (length out) (fst <$> (next, c) :: calls) ∧ (length calls ≤ n)%nat
        ∧ ∀ out', r' = inr out' →
          ∃ toks, feeds rt token c1 calls toks
            ∧ length toks = length calls
            ∧ Forall (λ tok, length tok = length out) toks
            ∧ stops rt n toks
            ∧ out' = hcat out1 toks) as Hmore.
    { intros r' k'' Hrun'.
      destruct (IH out1 l token k1 c1 r' k'' Hl1 Hrun') as (calls & c' & Hk & Hf & Hfed & Hlen & Hres).
      exists calls, c'. split_and!; [|done| |done|].
      - rewrite Hk. subst k1. cbn [heap with_heap]. rewrite list_insert_insert_eq.
        unfold with_heap, add_events. cbn. by rewrite <- app_assoc.
      - split; [done|]. rewrite Hlo in Hfed. destruct calls as [|[x0 c0] calls]; [done|].
        destruct Hfed as [Hx0 Hrest]. simpl in Hx0. subst x0. by constructor.
      - intros out' Ho. destruct (Hres out' Ho) as (toks & ? & ? & Hrows & ? & ?).
        exists toks. split_and!; try done. by rewrite <- Hlo. }
    unfold mbind at 1, M_bind at 1 in Hrun.
    destruct (eos_token_id rt) as [eos|] eqn:Heos.
    + unfold mbind at 1, M_bind at 1, lift at 1 in Hrun.
      destruct (item token) as [e|t] eqn:Hitem; [by eapply Hfail|].
      assert (token = [[t]]) as Htok.
      { unfold item in Hitem. destruct token as [|[|x []] []]; by simplify_eq. }
      cbn [mret M_ret] in Hrun. destruct (Z.eqb_spec t eos) as [->|Hne].
      * injection Hrun as <- <-.
        exists [(next, c)], c1. split_and!; [done|done|done|simpl; lia|].
        intros out' [= <-]. exists [token]. split_and!; try done.
        -- repeat constructor. done.
        -- by repeat constructor.
        -- unfold stops. rewrite Heos. split; [|right; by rewrite Htok].
           intros [|i] tok Hi; simpl in Hi; [|by rewrite lookup_nil in Hi].
           simplify_eq. by exists eos.
      * destruct (Hmore _ _ Hrun) as (calls & c' & Hk & Hf & Hfed & Hlen & Hres).
        exists ((next, c) :: calls), c'. split_and!; [done|done|done|simpl; lia|].
        intros out' Hout'. destruct (Hres out' Hout') as (toks & Hfeeds & Hlt' & Hrows & Hstops & ->).
        exists (token :: toks). split_and!.
        -- by constructor.
        -- simpl. lia.
        -- by constructor.
        -- unfold stops in *. rewrite Heos in *. destruct Hstops as [Hall Hend]. split.
           ++ intros [|i] tok Hi; simpl in Hi.
              ** simplify_eq. exists t. split; [done|]. done.
              ** destruct (Hall i tok Hi) as (t' & -> & Ht'). exists t'. split; [done|].
                 intros He. simpl. f_equal. by apply Ht'.
           ++ destruct Hend as [Hend|Hend]; [left; simpl; lia|right].
              destruct toks; [done|]. done.
        -- by subst out1.
    + cbn [mret M_ret] in Hrun.
      destruct (Hmore _ _ Hrun) as (calls & c' & Hk & Hf & Hfed & Hlen & Hres).
      exists ((next, c) :: calls), c'. split_and!; [done|done|done|simpl; lia|].
      intros out' Hout'. destruct (Hres out' Hout') as (toks & Hfeeds & Hlt' & Hrows & Hstops & ->).
      exists (token :: toks). split_and!.
      -- by constructor.
      -- simpl. lia.
      -- by constructor.
      -- unfold stops in *. rewrite Heos in *. simpl. lia.
      -- by subst out1.
Qed.

Lemma generate_spec x l mnt k r k' :
  generate rt x l mnt k = (r, k') →
  (heap k !! l = None ∧ r = inl RuntimeError ∧ k' = k)
  ∨ ∃ c calls c',
      heap k !! l = Some c
      ∧ k' = with_heap (<[l := c']> (heap k))
               (add_events (EvGenerate x l c :: (ev_forward l <$> calls)) k)
      ∧ c' = after_calls rt c (fst <$> calls)
      ∧ fed x (length x) (fst <$> calls)
      ∧ (length calls ≤ Z.to_nat mnt)%nat
      ∧ ∀ out, r = inr out →
          ∃ toks, feeds rt x c calls toks
            ∧ length toks = length calls
            ∧ Forall (λ tok, length tok = length x) toks
            ∧ stops rt (Z.to_nat mnt) toks
            ∧ out = drop (shape_last x) <$> hcat x toks.
Proof.
  intros Hrun. unfold generate, mbind at 1, M_bind at 1, load in Hrun.
  destruct (heap k !! l) as [c|] eqn:Hl; [right|left; by simplify_eq].
  unfold mbind at 1, M_bind at 1, log at 1 in Hrun.
  unfold mbind at 1, M_bind at 1 in Hrun.
  destruct (generate_loop rt (Z.to_nat mnt) x l x (add_event (EvGenerate x l c) k))
    as [r0 k0] eqn:Hloop.
  destruct (generate_loop_spec _ _ _ _ (add_event (EvGenerate x l c) k) c _ _ Hl Hloop)
    as (calls & c' & -> & Hf & Hfed & Hlen & Hres).
  exists c, calls, c'. split_and!; [done| |done|done|done|].
  - destruct r0; injection Hrun as <- <-;
      unfold with_heap, add_events, add_event; cbn; by rewrite <- app_assoc.
  - intros out Hout. destruct r0 as [e|out0]; injection Hrun as <- <-; [done|].
    injection Hout as <-.
    destruct (Hres out0 eq_refl) as (toks & ? & ? & ? & ? & ->). by exists toks.
Qed.

Lemma zip_app_dropped n (x y tok : ids) :
  Forall2 (λ xr yr, (n ≤ length xr)%nat ∧ drop n xr = yr) x y →
  Forall2 (λ xr yr, (n ≤ length xr)%nat ∧ drop n xr = yr)
          (zip_with app x tok) (zip_with app y tok).
Proof.
  intros H. revert tok. induction H as [|xr yr x y [Hle Hd] _ IH]; intros tok.
  - constructor.
  - destruct tok as [|t tok]; simpl; constructor; [|apply IH].
    split; [rewrite length_app; lia|]. rewrite drop_app_le by done. by rewrite Hd.
Qed.

Lemma drop_hcat n toks : ∀ (x y : ids),
  Forall2 (λ xr yr, (n ≤ length xr)%nat ∧ drop n xr = yr) x y →
  drop n <$> hcat x toks = hcat y toks.
Proof.
  induction toks as [|tok toks IH]; intros x y H; simpl.
  - induction H as [|xr yr x y [_ Hd] _ IH]; [done|]. rewrite fmap_cons. by f_equal.
  - apply IH. by apply zip_app_dropped.
Qed.

Lemma rect_dropped (x : ids) :
  rect x → Forall2 (λ xr yr, (shape_last x ≤ length xr)%nat ∧ drop (shape_last x) xr = yr)
                   x ((λ _, []) <$> x).
Proof.
  unfold rect. generalize (shape_last x). intros n H.
  induction H as [|xr x Hr _ IH]; simpl; constructor; [|done].
  split; [lia|]. apply drop_ge. lia.
Qed.

Lemma feeds_columns x c calls toks :
  feeds rt x c calls toks → Forall (Forall (λ row : list Z, length row = 1%nat)) toks.
Proof.
  induction 1 as [|x c tok calls toks (lg & v & _ & _ & ->) _ IH]; constructor; [|done].
  unfold argmax_keepdim. apply Forall_fmap, Forall_true. done.
Qed.

Lemma hcat_row_lengths toks : ∀ (y : ids),
  Forall (λ tok, length tok = length y) toks →
  Forall (Forall (λ row : list Z, length row = 1%nat)) toks →
  Forall2 (λ yr r, length r = (length yr + length toks)%nat) y (hcat y toks).
Proof.
  induction toks as [|tok toks IH]; intros y Hl Hc; simpl.
  - apply Forall2_same_length_lookup_2; [done|]. intros i a b Ha Hb. simplify_eq. lia.
  - apply Forall_cons in Hl as [Hl Hls]. apply Forall_cons in Hc as [Hc Hcs].
    assert (length (zip_with app y tok) = length y) as Hz by (rewrite length_zip_with; lia).
    specialize (IH (zip_with app y tok)). rewrite Hz in IH. specialize (IH Hls Hcs).
    apply Forall2_same_length_lookup_2.
    { apply Forall2_length in IH. lia. }
    intros i yr r Hy Hr.
    destruct (lookup_lt_is_Some_2 tok i) as [tr Htr].
    { apply lookup_lt_Some in Hy. lia. }
    assert (zip_with app y tok !! i = Some (yr ++ tr)) as Hzi.
    { rewrite lookup_zip_with, Hy. simpl. by rewrite Htr. }
    rewrite Forall2_lookup in IH. specialize (IH i). rewrite Hzi, Hr in IH.
    inversion IH as [? ? Hrl|]; subst. rewrite Hrl, length_app.
    rewrite Forall_forall in Hc. rewrite (Hc tr); [lia|]. by eapply list_elem_of_lookup_2.
Qed.

(** C2, as the code has it.  On a rectangular input and
    [max_new_tokens >= 1], whenever [generate] returns: the model calls it
    made form a chain whose first call is fed the whole [input_ids] on the
    cache as it was given, and each later call is fed only the token tensor
    produced by the call before it, on the cache state that call left; every
    call produces one token per row, the argmax of the logits at the last
    position; there are between one and [max_new_tokens] calls; and the
    result holds, per row, exactly the produced tokens and none of the
    prompt positions. *)
Theorem generate_token_by_token x l max_new_tokens k out k' :
  1 ≤ max_new_tokens →
  rect x →
  generate rt x l max_new_tokens k = (inr out, k') →
  ∃ c calls toks,
    heap k !! l = Some c
    ∧ trace k' = trace k ++ EvGenerate x l c :: (ev_forward l <$> calls)
    ∧ feeds rt x c calls toks
    ∧ length calls = length toks
    ∧ (1 ≤ length toks ≤ Z.to_nat max_new_tokens)%nat
    ∧ Forall (Forall (λ row : list Z, length row = 1%nat)) toks
    ∧ out = hcat ((λ _, []) <$> x) toks.
Proof.
  intros Hm Hrect Hrun.
  destruct (generate_spec _ _ _ _ _ _ Hrun) as [(_ & ? & _)|(c & calls & c' & Hl & -> & _ & _ & Hlen & Hres)];
    [done|].
  destruct (Hres out eq_refl) as (toks & Hfeeds & Hlt & Hrows & Hstops & ->).
  exists c, calls, toks. split_and!; try done.
  - unfold stops in Hstops. destruct (eos_token_id rt).
    + destruct Hstops as [_ [?|Hlast]]; [lia|]. destruct toks; [done|simpl; lia].
    + lia.
  - lia.
  - by eapply feeds_columns.
  - apply drop_hcat. by apply rect_dropped.
Qed.

Lemma hcat_single (ts : list Z) : ∀ r, hcat [r] ((λ t, [[t]]) <$> ts) = [r ++ ts].
Proof.
  induction ts as [|t ts IH]; intros r; simpl; [by rewrite app_nil_r|].
  rewrite IH. by rewrite <- app_assoc.
Qed.

(** C7. For [max_new_tokens >= 0], whenever [generate] returns, every row
    of the result holds exactly one token per model call made, at most
    [max_new_tokens] of them, and a configured end-of-sequence id can only
    be the last token of a row: no model call and no token follow it. *)
Theorem generate_stops_at_eos x l max_new_tokens k out k' :
  0 ≤ max_new_tokens →
  rect x →
  generate rt x l max_new_tokens k = (inr out, k') →
  ∃ c calls,
    trace k' = trace k ++ EvGenerate x l c :: (ev_forward l <$> calls)
    ∧ (length calls ≤ Z.to_nat max_new_tokens)%nat
    ∧ Forall (λ row, length row = length calls) out
    ∧ ∀ eos row i, eos_token_id rt = Some eos →
        row ∈ out → row !! i = Some eos → S i = length row.
Proof.
  intros Hm Hrect Hrun.
  destruct (generate_spec _ _ _ _ _ _ Hrun) as [(_ & ? & _)|(c & calls & c' & Hl & -> & _ & _ & Hlen & Hres)];
    [done|].
  destruct (Hres out eq_refl) as (toks & Hfeeds & Hlt & Hrows & Hstops & ->).
  rewrite (drop_hcat _ _ _ _ (rect_dropped _ Hrect)).
  exists c, calls. split_and!; [done|done| |].
  - assert (Forall (λ tok, length tok = length ((λ _, []) <$> x : ids)) toks) as Hrows'.
    { eapply Forall_impl; [done|]. simpl. intros ? ->. by rewrite length_fmap. }
    pose proof (hcat_row_lengths toks _ Hrows' (feeds_columns _ _ _ _ Hfeeds)) as H2.
    apply Forall_forall. intros row Hrow.
    apply list_elem_of_lookup in Hrow as [i Hi].
    rewrite Forall2_lookup in H2. specialize (H2 i). rewrite Hi in H2.
    inversion H2 as [yr ? Hlen' Hy|]; subst.
    symmetry in Hy. rewrite list_lookup_fmap in Hy.
    destruct (x !! i); simplify_eq/=. lia.
  - intros eos row i Heos Hrow Hi. unfold stops in Hstops. rewrite Heos in Hstops.
    destruct Hstops as [Hall _].
    assert (∃ ts : list Z, toks = (λ t, [[t]]) <$> ts) as [ts ->].
    { clear -Hall. induction toks as [|tok toks IH]; [by exists []|].
      destruct (Hall 0%nat tok eq_refl) as (t & -> & _).
      destruct IH as [ts ->].
      { intros i tok Hi. destruct (Hall (S i) tok Hi) as (t' & -> & Ht'). exists t'.
        split; [done|]. intros He. specialize (Ht' He). simpl in Ht'. lia. }
      by exists (t :: ts). }
    destruct ts as [|t0 ts].
    { simpl in Hrow. apply list_elem_of_fmap in Hrow as (? & -> & _).
      by rewrite lookup_nil in Hi. }
    apply Forall_cons in Hrows as [Hx _]. simpl in Hx.
    destruct x as [|xr [|]]; simplify_eq/=.
    change (zip_with app [[]] [[t0]]) with [[] ++ [t0]] in Hrow.
    rewrite (hcat_single ts) in Hrow. apply list_elem_of_singleton in Hrow as ->.
    simpl in Hi.
    destruct (Hall i [[eos]]) as (t & Ht & Hend).
    { change (t0 :: ts) with ([t0] ++ ts) in Hi. simpl in Hi.
      change ([[t0]] :: ((λ t, [[t]]) <$> ts)) with ((λ t, [[t]]) <$> (t0 :: ts)).
      rewrite list_lookup_fmap, Hi. done. }
    simplify_eq. specialize (Hend eq_refl). simpl in *. rewrite length_fmap in Hend. done.
Qed.

(** *** Computations that leave a relation intact *)

Global Instance appends_preorder (P : @event elt → Prop) : PreOrder (appends P).
Proof.
  split.
  - intros k. exists []. by rewrite app_nil_r.
  - intros k1 k2 k3 (evs & H1 & HP) (evs' & H2 & HP'). exists (evs ++ evs').
    rewrite H2, H1, <- app_assoc. split; [done|]. by apply Forall_app.
Qed.

Global Instance keeps_preorder x : PreOrder (keeps (elt := elt) x).
Proof.
  split; [done|]. intros k1 k2 k3 [H1 H1'] [H2 H2']. split; congruence.
Qed.

Global Instance quiet_preorder : PreOrder (quiet (elt := elt)).
Proof.
  split.
  - intros k. split; reflexivity.
  - intros k1 k2 k3 [H1 H1'] [H2 H2']. split; etrans; done.
Qed.

Section Preserves.

Context (R : relation (@kernel elt)) `{!PreOrder R}.

Lemma preserves_bind {A B} (m : M A) (f : A → M B) :
  preserves R m → (∀ a, preserves R (f a)) → preserves R (m ≫= f).
Proof.
  intros Hm Hf k. unfold mbind, M_bind. specialize (Hm k).
  destruct (m k) as [[e|a] k1]; [done|]. simpl in Hm. etrans; [done|]. apply Hf.
Qed.

Lemma preserves_ret {A} (a : A) : preserves R (mret a).
Proof. intros k. reflexivity. Qed.

Lemma preserves_raise {A} e : preserves R (raise (A := A) e).
Proof. intros k. reflexivity. Qed.

Lemma preserves_lift {A} (r : exn + A) : preserves R (lift r).
Proof. intros k. reflexivity. Qed.

Lemma preserves_lookup_name x : preserves R (lookup_name x).
Proof. intros k. unfold lookup_name. destruct (globals k !! x); reflexivity. Qed.

Lemma preserves_load l : preserves R (load l).
Proof. intros k. unfold load. destruct (heap k !! l); reflexivity. Qed.

Lemma preserves_gets {A} (f : kernel → A) : preserves R (gets f).
Proof. intros k. reflexivity. Qed.

Lemma preserves_index {A} (l : list A) i : preserves R (index l i).
Proof. unfold index. destruct (l !! i); [apply preserves_ret|apply preserves_raise]. Qed.

End Preserves.

Lemma quiet_heap k h : quiet k (with_heap h k).
Proof. split; [exists []; by rewrite app_nil_r|done]. Qed.

Lemma quiet_event k (ev : @event elt) : ¬ is_generate ev → ¬ is_exists ev → quiet k (add_event ev k).
Proof. intros ? ?. split; [exists [ev]; split; [done|by repeat constructor]|done]. Qed.

Lemma quiet_assign k x v : x ≠ "device" →
  quiet k (Kernel (files k) (heap k) (<[x := v]> (globals k)) (trace k)).
Proof.
  intros Hx. split; [exists []; by rewrite app_nil_r|].
  split; [done|]. cbn. by rewrite lookup_insert_ne.
Qed.

Lemma preserves_store l c : preserves (elt := elt) quiet (store l c).
Proof. intros k. apply quiet_heap. Qed.

Lemma preserves_alloc c : preserves (elt := elt) quiet (alloc c).
Proof. intros k. apply (quiet_heap k (heap k ++ [c])). Qed.

Lemma preserves_log (ev : @event elt) : ¬ is_generate ev → ¬ is_exists ev → preserves (elt := elt) quiet (log ev).
Proof. intros ? ? k. by apply quiet_event. Qed.

Lemma preserves_assign x v : x ≠ "device" → preserves (elt := elt) quiet (assign x v).
Proof. intros ? k. by apply quiet_assign. Qed.

Create HintDb quiet.

#[local] Hint Extern 1 (PreOrder _) => apply _ : quiet.
#[local] Hint Resolve preserves_ret preserves_raise preserves_lift preserves_lookup_name
  preserves_load preserves_gets preserves_index preserves_store preserves_alloc : quiet.
#[local] Hint Extern 1 (preserves _ (assign _ _)) => apply preserves_assign; done : quiet.
#[local] Hint Extern 1 (preserves _ (log _)) => apply preserves_log; by intros [] : quiet.
#[local] Hint Extern 1 (preserves _ (print _)) => apply preserves_log; by intros [] : quiet.

Ltac quiet_steps :=
  repeat first [apply preserves_bind; [apply _| |intros] | solve [auto with quiet]].

Lemma preserves_call_model x l : preserves (elt := elt) quiet (call_model rt x l).
Proof. unfold call_model. quiet_steps. Qed.

Lemma preserves_tokenizer_call text : preserves (elt := elt) quiet (tokenizer_call rt text).
Proof. unfold tokenizer_call. quiet_steps. Qed.

#[local] Hint Resolve preserves_call_model preserves_tokenizer_call : quiet.

Lemma preserves_clean_up l n : preserves (elt := elt) quiet (clean_up l n).
Proof.
  intros k. destruct (heap k !! l) as [c|] eqn:Hl.
  - rewrite (clean_up_run _ _ _ _ Hl). apply quiet_heap.
  - rewrite (clean_up_dangling _ _ _ Hl). reflexivity.
Qed.

Lemma preserves_as_model v : preserves (elt := elt) quiet (as_model v).
Proof. destruct v; simpl; auto with quiet. Qed.

Lemma preserves_as_tokenizer v : preserves (elt := elt) quiet (as_tokenizer v).
Proof. destruct v; simpl; auto with quiet. Qed.

#[local] Hint Resolve preserves_as_model preserves_as_tokenizer : quiet.

Lemma preserves_get_kv_cache vm vt prompt :
  preserves (elt := elt) quiet (get_kv_cache rt vm vt prompt).
Proof. unfold get_kv_cache. quiet_steps. Qed.

Lemma preserves_as_cache v : preserves (elt := elt) quiet (as_cache v).
Proof. destruct v; simpl; auto with quiet. Qed.

Lemma preserves_as_int v : preserves (elt := elt) quiet (as_int v).
Proof. destruct v; simpl; auto with quiet. Qed.

#[local] Hint Resolve preserves_get_kv_cache preserves_clean_up preserves_as_model
  preserves_as_tokenizer preserves_as_cache preserves_as_int : quiet.

Lemma preserves_cell_env : preserves (elt := elt) quiet cell_env.
Proof. unfold cell_env. quiet_steps. Qed.

Lemma preserves_cell_load : preserves (elt := elt) quiet cell_load.
Proof. unfold cell_load. quiet_steps. Qed.

Lemma preserves_open_read path : preserves (elt := elt) quiet (open_read path).
Proof.
  unfold open_read. quiet_steps. destruct (_ !! _) as [[| |]|]; auto with quiet.
Qed.

#[local] Hint Resolve preserves_open_read : quiet.

Lemma suffixed_name_ne (p n x : string) :
  (∀ a s, p = String a s → ∀ b t, x = String b t → a ≠ b) → p ≠ "" → p +:+ n ≠ x.
Proof.
  intros H Hp E. destruct p as [|a s]; [done|]. destruct x as [|b t]; [done|].
  injection E as -> _. by eapply H.
Qed.

#[local] Hint Extern 2 (preserves _ (assign (_ +:+ _) _)) =>
  apply preserves_assign; apply suffixed_name_ne; [by intros ? ? [= <- _] ? ? [= <- _]|done]
  : quiet.

Lemma stuck_bind {A B} (m : @M elt A) (f : A → @M elt B) :
  preserves quiet m → (∀ a, stuck_on_device (f a)) → stuck_on_device (m ≫= f).
Proof.
  intros Hm Hf k Hd. unfold mbind, M_bind. specialize (Hm k).
  destruct (m k) as [[e|a] k1]; simpl in Hm; [by exists e|].
  destruct (Hf a k1) as (e & He & Hq).
  { destruct Hm as [_ [_ ->]]. done. }
  exists e. split; [done|]. by etrans.
Qed.

Lemma stuck_lookup {A} (f : value → @M elt A) :
  stuck_on_device (lookup_name "device" ≫= f).
Proof.
  intros k Hd. unfold mbind, M_bind, lookup_name. rewrite Hd.
  exists (NameError "device"). split; [done|reflexivity].
Qed.

Lemma cell_query_stuck n question : stuck_on_device (cell_query rt n question).
Proof.
  unfold cell_query.
  repeat first [apply stuck_lookup | apply stuck_bind; [solve [auto with quiet]|intros]].
Qed.

(** *** The notebook run from a fresh kernel *)

Lemma cell_env_run k : cell_env k = (inr tt, after_env k).
Proof. reflexivity. Qed.

Lemma cell_load_run k :
  is_Some (globals k !! "HF_TOKEN") → cell_load k = (inr tt, after_load k).
Proof.
  intros [v Hv]. unfold cell_load, mbind, M_bind, assign, lookup_name, print, log.
  cbn [globals files heap trace add_event].
  rewrite !lookup_insert_ne by done. rewrite Hv. cbn [globals files heap trace].
  rewrite !lookup_insert_ne by done. by rewrite Hv.
Qed.

Lemma stuck_bind_l {A B} (m : @M elt A) (f : A → @M elt B) :
  stuck_on_device m → stuck_on_device (m ≫= f).
Proof.
  intros Hm k Hd. destruct (Hm k Hd) as (e & He & Hq). unfold mbind, M_bind.
  destruct (m k) as [[e'|a] k1]; simpl in *; [|done]. by exists e'.
Qed.

Lemma knowledge_then_queries_stuck content :
  stuck_on_device
    ((assign "doc_text" (VStr (read_text content));;
      assign "system_prompt" (VStr (system_prompt_of (read_text content)));;
      vm ← lookup_name "model";
      vt ← lookup_name "tokenizer";
      cache ← get_kv_cache rt vm vt (system_prompt_of (read_text content));
      assign "ronan_cache" (VCache cache);;
      c ← load cache;
      k0 ← index (key_cache c) 0;
      assign "origin_len" (VInt (Z.of_nat (seq_len k0)));;
      print "KV cache built.") ≫= λ _, run_all [cell_query1 rt; cell_query2 rt]).
Proof.
  apply stuck_bind; [quiet_steps|intros _].
  cbn [run_all]. apply stuck_bind_l. apply cell_query_stuck.
Qed.

Lemma notebook_fresh_run fs r k' :
  run_all (notebook rt) (fresh fs) = (r, k') →
  ∃ e evs,
    r = inl e
    ∧ trace k'
      = [EvPrint "Environment and imports are set.";
         EvPrint "Loaded mistralai/Mistral-7B-Instruct-v0.1.";
         EvExists "document.txt"] ++ evs
    ∧ Forall (λ ev, ¬ is_generate ev ∧ ¬ is_exists ev) evs
    ∧ (fs !! "document.txt" = None → e = missing_document ∧ evs = [])
    ∧ (is_Some (fs !! "document.txt") → ∃ evs', evs = EvOpen "document.txt" :: evs').
Proof.
  intros Hrun.
  unfold notebook in Hrun. cbn [run_all] in Hrun.
  unfold mbind at 1, M_bind at 1 in Hrun. rewrite cell_env_run in Hrun.
  unfold mbind at 1, M_bind at 1 in Hrun. rewrite cell_load_run in Hrun by (by eexists).
  set (k2 := after_load (after_env (fresh fs))) in *.
  unfold mbind at 1, M_bind at 1 in Hrun. unfold cell_knowledge in Hrun.
  unfold mbind at 1, M_bind at 1 in Hrun. rewrite path_exists_run in Hrun.
  change (files k2) with fs in Hrun.
  destruct (fs !! "document.txt") as [node|] eqn:Hdoc.
  - rewrite bool_decide_true in Hrun by eauto.
    unfold mbind at 1, M_bind at 1 in Hrun. cbn [mret M_ret] in Hrun.
    unfold mbind at 1, M_bind at 1 in Hrun.
    rewrite open_read_outcome in Hrun.
    change (files (add_event (EvExists "document.txt") k2)) with fs in Hrun.
    rewrite Hdoc in Hrun.
    assert (∀ e : exn, r = inl e →
      k' = add_event (EvOpen "document.txt") (add_event (EvExists "document.txt") k2) →
      ∃ e evs,
        r = inl e
        ∧ trace k'
          = [EvPrint "Environment and imports are set.";
             EvPrint "Loaded mistralai/Mistral-7B-Instruct-v0.1.";
             EvExists "document.txt"] ++ evs
        ∧ Forall (λ ev, ¬ is_generate ev ∧ ¬ is_exists ev) evs
        ∧ (Some node = None → e = missing_document ∧ evs = [])
        ∧ (is_Some (Some node) → ∃ evs', evs = EvOpen "document.txt" :: evs')) as Hraised.
    { intros e -> ->. exists e, [EvOpen "document.txt"].
      split_and!; [done|done| |done|by eexists].
      constructor; [|done]. split; by intros []. }
    destruct node as [content| |];
      [|cbn in Hrun; injection Hrun as <- <-; by eapply Hraised..].
    clear Hraised.
    set (k4 := add_event (EvOpen "document.txt") (add_event (EvExists "document.txt") k2)) in *.
    destruct (knowledge_then_queries_stuck content k4) as (e & He & [(evs & Htr & Hevs) _]).
    { subst k4 k2. cbn. by rewrite !lookup_insert_ne, lookup_empty. }
    unfold mbind at 1, M_bind at 1 in He. unfold mbind at 1, M_bind at 1 in Htr.
    match type of Hrun with context [match ?t with _ => _ end] => destruct t as [[e1|[]] k5] end.
    + injection Hrun as <- <-. simpl in *. exists e1, (EvOpen "document.txt" :: evs).
      rewrite Htr. split_and!; [done|done| |done|by eexists].
      constructor; [|done]. split; by intros [].
    + cbn [run_all] in *. rewrite Hrun in He, Htr. simpl in *. subst r.
      exists e, (EvOpen "document.txt" :: evs).
      split_and!; [done|by rewrite Htr| |done|by eexists].
      constructor; [|done]. split; by intros [].
  - rewrite bool_decide_false in Hrun by (by intros [? ?]).
    unfold mbind at 1, M_bind at 1 in Hrun. cbn in Hrun. injection Hrun as <- <-.
    exists missing_document, [].
    split_and!; first [done | by intros [? ?]].
Qed.

(** C1, what the code does.  From a fresh kernel, whatever the files and
    the libraries, running the notebook's cells in order ends in an
    exception, and [generate] is never entered: the log holds no entry of a
    call to it. *)
Theorem notebook_never_reaches_generate fs :
  (∃ e, fst (run_all (notebook rt) (fresh fs)) = inl e)
  ∧ Forall (λ ev, ¬ is_generate ev) (trace (snd (run_all (notebook rt) (fresh fs)))).
Proof.
  destruct (run_all (notebook rt) (fresh fs)) as [r k'] eqn:Hrun.
  destruct (notebook_fresh_run _ _ _ Hrun) as (e & evs & -> & Htr & Hevs & _).
  split; [by exists e|]. simpl. rewrite Htr. apply Forall_app. split.
  - repeat constructor; by intros [].
  - eapply Forall_impl; [done|]. by intros ? [? _].
Qed.

(** *** Runs that test for no file *)

Lemma preserves_calm {A} (m : @M elt A) :
  preserves quiet m → preserves (appends (λ ev, ¬ is_exists ev)) m.
Proof.
  intros H k. destruct (H k) as [(evs & Htr & Hevs) _]. exists evs. split; [done|].
  eapply Forall_impl; [done|]. by intros ? [_ ?].
Qed.

Lemma preserves_to_device (R : relation (@kernel elt)) `{!PreOrder R} t v :
  preserves R (to_device rt t v).
Proof.
  destruct v as [|d|n| | | |]; simpl;
    try destruct (device_ok rt d); try destruct (ordinal_ok rt n); auto with quiet.
Qed.

Lemma calm_generate_loop n : ∀ out l next,
  preserves (appends (λ ev, ¬ is_exists ev)) (generate_loop rt n out l next).
Proof.
  induction n as [|n IH]; intros out l next; cbn [generate_loop]; [auto with quiet|].
  apply preserves_bind; [apply _|apply preserves_calm; auto with quiet|intros res].
  apply preserves_bind; [apply _|auto with quiet|intros lg].
  apply preserves_bind; [apply _|auto with quiet|intros out'].
  apply preserves_bind; [apply _| |intros [|]; [auto with quiet|apply IH]].
  destruct (eos_token_id rt); [|auto with quiet].
  apply preserves_bind; [apply _|auto with quiet|intros; auto with quiet].
Qed.

Lemma calm_generate x l n :
  preserves (appends (λ ev, ¬ is_exists ev)) (generate rt x l n).
Proof.
  unfold generate.
  apply preserves_bind; [apply _|auto with quiet|intros c].
  apply preserves_bind; [apply _| |intros _].
  { intros k. exists [EvGenerate x l c]. split; [done|]. repeat constructor. by intros []. }
  apply preserves_bind; [apply _|apply calm_generate_loop|intros; auto with quiet].
Qed.

Lemma calm_cell_query n question :
  preserves (appends (λ ev, ¬ is_exists ev)) (cell_query rt n question).
Proof.
  unfold cell_query.
  repeat first [apply calm_generate
               | apply preserves_to_device; apply _
               | solve [auto with quiet]
               | apply preserves_calm; solve [auto with quiet]
               | apply preserves_bind; [apply _| |intros]].
Qed.

Lemma knowledge_then_queries_calm content :
  preserves (appends (λ ev, ¬ is_exists ev))
    ((assign "doc_text" (VStr (read_text content));;
      assign "system_prompt" (VStr (system_prompt_of (read_text content)));;
      vm ← lookup_name "model";
      vt ← lookup_name "tokenizer";
      cache ← get_kv_cache rt vm vt (system_prompt_of (read_text content));
      assign "ronan_cache" (VCache cache);;
      c ← load cache;
      k0 ← index (key_cache c) 0;
      assign "origin_len" (VInt (Z.of_nat (seq_len k0)));;
      print "KV cache built.") ≫= λ _, run_all [cell_query1 rt; cell_query2 rt]).
Proof.
  apply preserves_bind; [apply _|apply preserves_calm; quiet_steps|intros _].
  cbn [run_all].
  apply preserves_bind; [apply _|apply calm_cell_query|intros _].
  apply preserves_bind; [apply _|apply calm_cell_query|intros _]. auto with quiet.
Qed.

Lemma notebook_run k r k' :
  run_all (notebook rt) k = (r, k') →
  ∃ evs,
    trace k'
      = trace k ++ [EvPrint "Environment and imports are set.";
                    EvPrint "Loaded mistralai/Mistral-7B-Instruct-v0.1.";
                    EvExists "document.txt"] ++ evs
    ∧ Forall (λ ev, ¬ is_exists ev) evs
    ∧ (files k !! "document.txt" = None → r = inl missing_document ∧ evs = [])
    ∧ (is_Some (files k !! "document.txt") → ∃ evs', evs = EvOpen "document.txt" :: evs').
Proof.
  intros Hrun.
  unfold notebook in Hrun. cbn [run_all] in Hrun.
  unfold mbind at 1, M_bind at 1 in Hrun. rewrite cell_env_run in Hrun.
  unfold mbind at 1, M_bind at 1 in Hrun. rewrite cell_load_run in Hrun.
  2:{ unfold after_env. cbn [globals]. rewrite !lookup_insert_ne by done.
      rewrite lookup_insert_eq. by eexists. }
  set (k2 := after_load (after_env k)) in *.
  assert (trace k2 = trace k ++ [EvPrint "Environment and imports are set.";
                                 EvPrint "Loaded mistralai/Mistral-7B-Instruct-v0.1."]) as Hk2.
  { subst k2. cbn [trace after_load after_env]. by rewrite <- app_assoc. }
  unfold mbind at 1, M_bind at 1 in Hrun. unfold cell_knowledge in Hrun.
  unfold mbind at 1, M_bind at 1 in Hrun. rewrite path_exists_run in Hrun.
  change (files k2) with (files k) in Hrun.
  destruct (files k !! "document.txt") as [node|] eqn:Hdoc.
  - rewrite bool_decide_true in Hrun by eauto.
    unfold mbind at 1, M_bind at 1 in Hrun. cbn [mret M_ret] in Hrun.
    unfold mbind at 1, M_bind at 1 in Hrun.
    rewrite open_read_outcome in Hrun.
    change (files (add_event (EvExists "document.txt") k2)) with (files k) in Hrun.
    rewrite Hdoc in Hrun.
    set (k4 := add_event (EvOpen "document.txt") (add_event (EvExists "document.txt") k2)) in *.
    assert (trace k4 = trace k ++ [EvPrint "Environment and imports are set.";
                                   EvPrint "Loaded mistralai/Mistral-7B-Instruct-v0.1.";
                                   EvExists "document.txt"] ++ [EvOpen "document.txt"]) as Hk4.
    { subst k4. cbn [trace add_event]. rewrite Hk2. by rewrite <- !app_assoc. }
    assert (∀ evs, trace k' = trace k4 ++ evs → Forall (λ ev, ¬ is_exists ev) evs →
      ∃ evs,
        trace k'
          = trace k ++ [EvPrint "Environment and imports are set.";
                        EvPrint "Loaded mistralai/Mistral-7B-Instruct-v0.1.";
                        EvExists "document.txt"] ++ evs
        ∧ Forall (λ ev, ¬ is_exists ev) evs
        ∧ (Some node = None → r = inl missing_document ∧ evs = [])
        ∧ (is_Some (Some node) → ∃ evs', evs = EvOpen "document.txt" :: evs')) as Hopened.
    { intros evs Htr Hevs. exists (EvOpen "document.txt" :: evs).
      split_and!; [|constructor; [by intros []|done]|done|by eexists].
      rewrite Htr, Hk4. by rewrite <- !app_assoc. }
    destruct node as [content| |];
      [|cbn in Hrun; injection Hrun as <- <-;
        apply (Hopened []); [by rewrite app_nil_r|done]..].
    destruct (knowledge_then_queries_calm content k4) as (evs & Htr & Hevs).
    unfold mbind at 1, M_bind at 1 in Htr.
    match type of Hrun with context [match ?t with _ => _ end] => destruct t as [[e1|[]] k5] end.
    + injection Hrun as <- <-. simpl in Htr. by apply (Hopened evs).
    + cbn [run_all] in *. rewrite Hrun in Htr. simpl in Htr. by apply (Hopened evs).
  - rewrite bool_decide_false in Hrun by (by intros [? ?]).
    unfold mbind at 1, M_bind at 1 in Hrun. cbn in Hrun. injection Hrun as <- <-.
    exists []. split_and!; [|done|done|by intros [? ?]].
    cbn [trace add_event]. rewrite Hk2, app_nil_r. by rewrite <- !app_assoc.
Qed.

(** C6.  In every run of the notebook's cells in order, from any kernel
    and with any libraries, one test for the existence of a file is made,
    that of [document.txt], after the two first cells have printed their
    notices: when the file is absent the run ends there with
    [FileNotFoundError], otherwise it goes on to open the file; nothing
    that follows tests for a file. *)
Theorem only_document_checked k :
  ∃ evs,
    trace (snd (run_all (notebook rt) k))
      = trace k ++ [EvPrint "Environment and imports are set.";
                    EvPrint "Loaded mistralai/Mistral-7B-Instruct-v0.1.";
                    EvExists "document.txt"] ++ evs
    ∧ Forall (λ ev, ¬ is_exists ev) evs
    ∧ (files k !! "document.txt" = None →
         fst (run_all (notebook rt) k) = inl missing_document ∧ evs = [])
    ∧ (is_Some (files k !! "document.txt") → ∃ evs', evs = EvOpen "document.txt" :: evs').
Proof.
  destruct (run_all (notebook rt) k) as [r k'] eqn:Hrun.
  by apply notebook_run.
Qed.

(** *** Shapes and the library contract *)

Lemma slice_to_full {A} (n : nat) (l : list A) : length l = n → slice_to (Z.of_nat n) l = l.
Proof.
  intros <-. unfold slice_to. destruct (Z.ltb_spec (Z.of_nat (length l)) 0); [lia|].
  rewrite Nat2Z.id. apply take_ge. lia.
Qed.

Lemma slice_seq_full b h n (t : tensor4 elt) : has_shape b h n t → slice_seq (Z.of_nat n) t = t.
Proof.
  intros [_ Ht]. unfold slice_seq. induction Ht as [|m t [_ Hm] _ IH]; [done|].
  rewrite fmap_cons. f_equal; [|done]. clear IH.
  induction Hm as [|r m Hr _ IH]; [done|]. rewrite fmap_cons. f_equal; [|done].
  by apply slice_to_full.
Qed.

Lemma truncated_full layers b h n c :
  cache_shape layers b h n c → truncated (Z.of_nat n) c = c.
Proof.
  intros (_ & _ & HK & HV). destruct c as [K V]. unfold truncated. simpl in *. f_equal.
  - induction HK as [|t K Ht _ IH]; [done|]. rewrite fmap_cons. f_equal; [|done].
    by eapply slice_seq_full.
  - induction HV as [|t V Ht _ IH]; [done|]. rewrite fmap_cons. f_equal; [|done].
    by eapply slice_seq_full.
Qed.

Lemma slice_to_twice {A} n s (l : list A) :
  0 ≤ n ≤ s → slice_to n (slice_to s l) = slice_to n l.
Proof.
  intros Hn. unfold slice_to. destruct (Z.ltb_spec n 0), (Z.ltb_spec s 0); try lia.
  rewrite take_take. f_equal. lia.
Qed.

Lemma slice_seq_twice n s (t : tensor4 elt) :
  0 ≤ n ≤ s → slice_seq n (slice_seq s t) = slice_seq n t.
Proof.
  intros Hn. unfold slice_seq. rewrite <- list_fmap_compose.
  apply list_fmap_ext. intros _ m _. simpl. rewrite <- list_fmap_compose.
  apply list_fmap_ext. intros _ r _. simpl. by apply slice_to_twice.
Qed.

Lemma truncated_twice n s c : 0 ≤ n ≤ s → truncated n (truncated s c) = truncated n c.
Proof.
  intros Hn. unfold truncated. simpl. rewrite <- !list_fmap_compose. f_equal.
  - apply list_fmap_ext. intros _ t _. simpl. by apply slice_seq_twice.
  - apply list_fmap_ext. intros _ t _. simpl. by apply slice_seq_twice.
Qed.

Lemma token_column_input (t : ids) : token_column 1 t → model_input t ∧ length t = 1%nat.
Proof.
  intros [Hl Hrows]. destruct t as [|r [|? ?]]; simplify_eq/=.
  apply Forall_cons in Hrows as [Hr _]. split; [|done].
  split_and!; [|done|simpl; lia]. unfold rect. simpl. by repeat constructor.
Qed.

Lemma tokens_input (row : list Z) : row ≠ [] → model_input [row] ∧ length [row] = 1%nat.
Proof.
  intros Hr. split; [|done]. split_and!; [unfold rect; simpl; by repeat constructor|done|].
  simpl. destruct row; [done|simpl; lia].
Qed.

Section Contract.

Context (layers heads : nat) (Hlib : library_contract rt layers heads).

Lemma after_calls_kept n c0 : ∀ xs c s,
  (n ≤ s)%nat →
  cache_shape layers 1 heads s c →
  truncated (Z.of_nat n) c = c0 →
  Forall (λ x, model_input x ∧ length x = 1%nat) xs →
  ∃ s', (n ≤ s')%nat ∧ cache_shape layers 1 heads s' (after_calls rt c xs)
        ∧ truncated (Z.of_nat n) (after_calls rt c xs) = c0.
Proof.
  induction xs as [|x xs IH]; intros c s Hn Hc Ht Hxs.
  - by exists s.
  - apply Forall_cons in Hxs as [[Hx Hlen] Hxs]. simpl.
    destruct (lc_extend _ _ _ Hlib x c s Hx) as [Hc1 Ht1]; [by rewrite Hlen|].
    rewrite Hlen in Hc1.
    apply (IH _ (s + shape_last x)%nat); [lia|done| |done].
    rewrite <- (truncated_twice (Z.of_nat n) (Z.of_nat s)) by lia. by rewrite Ht1.
Qed.

Lemma fed_inputs (row : list Z) xs :
  row ≠ [] → fed [row] 1 xs → Forall (λ x, model_input x ∧ length x = 1%nat) xs.
Proof.
  intros Hr Hfed. destruct xs as [|x rest]; [done|]. destruct Hfed as [-> Hrest].
  constructor; [by apply tokens_input|].
  eapply Forall_impl; [done|]. apply token_column_input.
Qed.

Lemma shape_seq_len s (t : tensor4 elt) : has_shape 1 heads s t → seq_len t = s.
Proof.
  intros [Hb Ht]. destruct t as [|m [|? ?]]; simplify_eq/=.
  apply Forall_cons in Ht as [[Hh Hm] _].
  pose proof (lc_heads _ _ _ Hlib). destruct m as [|r m]; [simpl in *; lia|].
  by apply Forall_cons in Hm as [? _].
Qed.

Lemma get_kv_cache_run prompt k :
  get_kv_cache rt VModel VTokenizer prompt k =
    (inr (length (heap k)),
     Kernel (files k)
       (heap k ++ [snd (forward rt [tokenize rt prompt] (mkCache [] []))])
       (globals k)
       (trace k ++ [EvGetKvCache prompt; EvTokenize prompt;
                    EvForward [tokenize rt prompt] (length (heap k)) (mkCache [] [])])).
Proof.
  unfold get_kv_cache, mbind at 1, M_bind at 1, log at 1.
  unfold mbind at 1, M_bind at 1, as_model. cbn [mret M_ret].
  unfold mbind at 1, M_bind at 1, as_tokenizer. cbn [mret M_ret].
  unfold mbind at 1, M_bind at 1, tokenizer_call, mbind at 1, M_bind at 1, log at 1.
  cbn [mret M_ret]. unfold mbind at 1, M_bind at 1, alloc.
  cbn [heap files globals trace add_event].
  unfold mbind at 1, M_bind at 1. erewrite call_model_run.
  2:{ cbn [heap]. by apply list_lookup_middle. }
  destruct (lc_returns _ _ _ Hlib [tokenize rt prompt] (mkCache [] [])) as (lg & -> & _).
  { apply tokens_input, (lc_tokens _ _ _ Hlib). }
  { by left. }
  cbn [mret M_ret]. f_equal.
  unfold with_heap, add_events. cbn [heap files globals trace]. f_equal.
  - replace (length (heap k)) with (length (heap k) + 0)%nat at 1 by lia.
    by rewrite insert_app_r.
  - by rewrite <- !app_assoc.
Qed.

Lemma prefill_layers prompt :
  length (key_cache (snd (forward rt [tokenize rt prompt] (mkCache [] [])))) = layers
  ∧ length (value_cache (snd (forward rt [tokenize rt prompt] (mkCache [] [])))) = layers
  ∧ Forall (λ t, has_shape 1 heads (length (tokenize rt prompt)) t
                 ∧ seq_len t = length (tokenize rt prompt))
           (key_cache (snd (forward rt [tokenize rt prompt] (mkCache [] [])))
            ++ value_cache (snd (forward rt [tokenize rt prompt] (mkCache [] [])))).
Proof.
  destruct (lc_prefill _ _ _ Hlib [tokenize rt prompt]) as (HlK & HlV & HK & HV).
  { apply tokens_input, (lc_tokens _ _ _ Hlib). }
  simpl in *. split_and!; [done|done|].
  apply Forall_app. split; (eapply Forall_impl; [done|]); intros t Ht;
    (split; [done|by apply shape_seq_len]).
Qed.

(** C5. With libraries that keep their contract, [get_kv_cache], given the
    loaded model and tokenizer, returns,
    for every prompt, a new cache object that holds one key and one value
    tensor per model layer, each spanning exactly as many positions as the
    tokenizer produced tokens for the prompt; it tokenizes the prompt once
    and calls the model once, on those tokens and the empty cache. *)
Theorem get_kv_cache_fills_every_layer prompt k :
  ∃ c,
    get_kv_cache rt VModel VTokenizer prompt k =
      (inr (length (heap k)),
       Kernel (files k) (heap k ++ [c]) (globals k)
         (trace k ++ [EvGetKvCache prompt; EvTokenize prompt;
                      EvForward [tokenize rt prompt] (length (heap k)) (mkCache [] [])]))
    ∧ length (key_cache c) = layers
    ∧ length (value_cache c) = layers
    ∧ Forall (λ t, has_shape 1 heads (length (tokenize rt prompt)) t
                   ∧ seq_len t = length (tokenize rt prompt))
             (key_cache c ++ value_cache c).
Proof.
  exists (snd (forward rt [tokenize rt prompt] (mkCache [] []))).
  split; [apply get_kv_cache_run|apply prefill_layers].
Qed.

Lemma generate_loop_returns n : ∀ out l next k c s,
  heap k !! l = Some c →
  cache_shape layers 1 heads s c →
  model_input next → length next = 1%nat → length out = 1%nat →
  ∃ out' k', generate_loop rt n out l next k = (inr out', k').
Proof.
  induction n as [|n IH]; intros out l next k c s Hl Hc Hin Hnext Hout; [by eexists _, _|].
  assert (l < length (heap k))%nat as Hlt by (by eapply lookup_lt_Some).
  cbn [generate_loop]. unfold mbind at 1, M_bind at 1. rewrite (call_model_run _ _ _ _ Hl).
  destruct (lc_returns _ _ _ Hlib next c Hin) as (lg & Hlg & Hrows).
  { right. exists s. by rewrite Hnext. }
  rewrite Hlg. cbn [fst snd].
  destruct (lc_extend _ _ _ Hlib next c s Hin) as [Hc1 _]; [by rewrite Hnext|].
  rewrite Hnext in Hc1.
  destruct next as [|row [|? ?]]; simplify_eq/=.
  destruct Hin as (_ & _ & Hrow). simpl in Hrow.
  apply Forall2_cons_inv_l in Hrows as (lrow & lg' & Hlen & Hnil & ->).
  apply Forall2_nil_inv_l in Hnil as ->.
  destruct (last lrow) as [v|] eqn:Hlast.
  2:{ apply last_None in Hlast. subst lrow. simpl in Hlen. lia. }
  unfold mbind at 1, M_bind at 1, lift at 1. cbn [last_position]. rewrite Hlast.
  cbv beta iota. unfold mbind at 1, M_bind at 1, lift at 1.
  destruct out as [|orow [|? ?]]; simplify_eq/=.
  set (k1 := with_heap _ _).
  assert (∃ out' k', generate_loop rt n [orow ++ [argmax rt v]] l [[argmax rt v]] k1
                     = (inr out', k')) as (out' & k' & Hrec).
  { eapply (IH _ _ _ _ _ (s + length row)%nat); [| | |done|done].
    - subst k1. cbn [heap with_heap]. by apply list_lookup_insert_eq.
    - done.
    - eapply proj1, token_column_input. split; [done|]. by repeat constructor. }
  unfold mbind at 1, M_bind at 1.
  destruct (eos_token_id rt) as [eos|].
  - unfold mbind at 1, M_bind at 1, lift at 1. cbn [mret M_ret].
    destruct (argmax rt v =? eos); [by eexists _, _|by eexists _, _].
  - cbn [mret M_ret]. by eexists _, _.
Qed.

(** Under the library contract [generate] does return when it is given the
    tokens of a text and a cache object filled by the same model. *)
Lemma generate_returns row l max_new_tokens k c s :
  heap k !! l = Some c →
  cache_shape layers 1 heads s c →
  row ≠ [] →
  ∃ out k', generate rt [row] l max_new_tokens k = (inr out, k').
Proof.
  intros Hl Hc Hrow. unfold generate, mbind at 1, M_bind at 1, load. rewrite Hl.
  unfold mbind at 1, M_bind at 1, log at 1. unfold mbind at 1, M_bind at 1.
  destruct (generate_loop_returns (Z.to_nat max_new_tokens) [row] l [row]
              (add_event (EvGenerate [row] l c) k) c s) as (out & k' & ->);
    [done|done|by apply tokens_input|done|done|].
  by eexists _, _.
Qed.

End Contract.

(** *** The cells under the library contract *)

Lemma assign_run x v k :
  assign x v k = (inr tt, with_globals (<[x := v]> (globals k)) k).
Proof. reflexivity. Qed.

Lemma lookup_name_run x v k : globals k !! x = Some v → lookup_name x k = (inr v, k).
Proof. intros H. unfold lookup_name. by rewrite H. Qed.

Lemma log_run (ev : @event elt) k : log ev k = (inr tt, add_event ev k).
Proof. reflexivity. Qed.

Lemma tokenizer_call_run text k :
  tokenizer_call rt text k = (inr [tokenize rt text], add_event (EvTokenize text) k).
Proof. reflexivity. Qed.

Ltac bind_step := unfold mbind at 1, M_bind at 1.
Tactic Notation "bind_step" "in" hyp(H) := unfold mbind at 1, M_bind at 1 in H.
Ltac kernel_simpl :=
  cbn [globals heap files trace with_globals with_heap add_event add_events fst snd].
Tactic Notation "kernel_simpl" "in" hyp(H) :=
  cbn [globals heap files trace with_globals with_heap add_event add_events fst snd] in H.

Section Cells.

Context (layers heads : nat) (Hlib : library_contract rt layers heads).

Lemma cell_knowledge_run k content :
  files k !! "document.txt" = Some (File content) →
  globals k !! "model" = Some VModel →
  globals k !! "tokenizer" = Some VTokenizer →
  cell_knowledge rt k =
    (inr tt,
     Kernel (files k)
       (heap k ++ [snd (forward rt [tokenize rt (system_prompt_of (read_text content))]
                          (mkCache [] []))])
       (<["origin_len" := VInt (Z.of_nat (length (tokenize rt (system_prompt_of (read_text content)))))]>
          (<["ronan_cache" := VCache (length (heap k))]>
             (<["system_prompt" := VStr (system_prompt_of (read_text content))]>
                (<["doc_text" := VStr (read_text content)]> (globals k)))))
       (trace k ++ [EvExists "document.txt"; EvOpen "document.txt";
                    EvGetKvCache (system_prompt_of (read_text content));
                    EvTokenize (system_prompt_of (read_text content));
                    EvForward [tokenize rt (system_prompt_of (read_text content))]
                      (length (heap k)) (mkCache [] []);
                    EvPrint "KV cache built."])).
Proof.
  intros Hdoc Hm Ht. unfold cell_knowledge.
  set (p := system_prompt_of (read_text content)).
  bind_step. rewrite path_exists_run, Hdoc, bool_decide_true by eauto.
  bind_step. cbn [mret M_ret].
  bind_step. rewrite (open_read_run _ _ content) by done.
  bind_step. rewrite assign_run. bind_step. rewrite assign_run.
  bind_step. rewrite (lookup_name_run _ VModel)
    by (kernel_simpl; by rewrite !lookup_insert_ne).
  bind_step. rewrite (lookup_name_run _ VTokenizer)
    by (kernel_simpl; by rewrite !lookup_insert_ne).
  bind_step. rewrite (get_kv_cache_run _ _ Hlib). kernel_simpl.
  bind_step. rewrite assign_run. kernel_simpl.
  bind_step. unfold load. kernel_simpl. rewrite list_lookup_middle by done.
  destruct (prefill_layers _ _ Hlib p) as (HlK & HlV & Hshape). subst p.
  set (c := snd (forward rt [tokenize rt (system_prompt_of (read_text content))]
                   (mkCache [] []))) in *.
  pose proof (lc_layers _ _ _ Hlib) as Hlay.
  destruct (key_cache c) as [|k0 K] eqn:HK; [simpl in HlK; lia|].
  bind_step. unfold index. change ((k0 :: K) !! 0%nat) with (Some k0).
  cbn [mret M_ret]. cbv beta iota.
  apply Forall_cons in Hshape as [[_ Hlen] _]. rewrite Hlen.
  bind_step. rewrite assign_run. kernel_simpl.
  unfold print. rewrite log_run. unfold add_event, with_globals. kernel_simpl.
  f_equal. f_equal. by rewrite <- !app_assoc.
Qed.


Ltac names := apply suffixed_name_ne; [by intros ? ? [= <- _] ? ? [= <- _]|done].
Ltac look := kernel_simpl; repeat (rewrite lookup_insert_ne; [|names]); done.

Lemma clean_up_ready l n c0 k :
  ready layers heads l n c0 k →
  clean_up l (Z.of_nat n) k = (inr tt, with_heap (<[l := c0]> (heap k)) k).
Proof.
  intros (_ & _ & _ & _ & c & s & Hl & Hns & (HlK & HlV & _) & Htr).
  rewrite (clean_up_run _ _ _ _ Hl), clean_loop_all by congruence. by rewrite <- Htr.
Qed.

Lemma forward_events_tail l (calls : list (ids * @DynamicCache elt)) :
  Forall is_tail_event (ev_forward l <$> calls).
Proof. apply Forall_fmap, Forall_true. by intros []. Qed.

Lemma to_device_accepted t v k :
  device_accepted rt v = true → to_device rt t v k = (inr t, k).
Proof.
  destruct v as [|d|z| | | |]; simpl; try done.
  - by intros ->.
  - by intros ->.
Qed.

Lemma to_device_rejected t v k :
  device_accepted rt v = false → ∃ e, to_device rt t v k = (inl e, k).
Proof.
  destruct v as [|d|z| | | |]; simpl; try done; try (intros ->); by eexists.
Qed.

Lemma usable_device_accepted g : usable_device rt g → to_accepts rt g.
Proof. intros (d & Hd & Hok). by exists (VStr d). Qed.

Lemma cell_query_spec i q l n c0 k r k' :
  ready layers heads l n c0 k →
  cache_shape layers 1 heads n c0 →
  cell_query rt i q k = (r, k') →
  ready layers heads l n c0 k'
  ∧ files k' = files k
  ∧ globals k' !! "device" = globals k !! "device"
  ∧ (globals k !! "device" = None → r = inl (NameError "device"))
  ∧ ∃ evs, trace k' = trace k ++ EvTokenize (q +:+ nl) :: evs
           ∧ query_events rt (globals k) l c0 q evs.
Proof.
  intros Hready Hc0 Hrun.
  pose proof Hready as (Hrc & Hol & Hm & Ht & c & s & Hl & Hns & Hshape & Htr).
  assert (l < length (heap k))%nat as Hlt by (by eapply lookup_lt_Some).
  pose proof (truncated_full _ _ _ _ _ Hc0) as Htr0.
  unfold cell_query in Hrun.
  bind_step in Hrun. rewrite assign_run in Hrun.
  bind_step in Hrun. rewrite (lookup_name_run _ (VCache l)) in Hrun
    by look.
  bind_step in Hrun. rewrite (lookup_name_run _ (VInt (Z.of_nat n))) in Hrun
    by look.
  bind_step in Hrun. cbn [as_cache mret M_ret] in Hrun.
  bind_step in Hrun. cbn [as_int mret M_ret] in Hrun.
  bind_step in Hrun. rewrite (clean_up_ready l n c0) in Hrun.
  2:{ unfold ready. kernel_simpl. repeat (rewrite lookup_insert_ne; [|names]).
      split_and!; try done. by exists c, s. }
  kernel_simpl in Hrun.
  bind_step in Hrun. rewrite (lookup_name_run _ VTokenizer) in Hrun
    by look.
  bind_step in Hrun. cbn [as_tokenizer mret M_ret] in Hrun.
  bind_step in Hrun. rewrite tokenizer_call_run in Hrun.
  set (g1 := <["question" +:+ i := VStr q]> (globals k)) in *.
  set (k3 := add_event (EvTokenize (q +:+ nl))
               (with_heap (<[l:=c0]> (heap k)) (with_globals g1 k))) in *.
  assert (ready layers heads l n c0 k3) as Hready3.
  { unfold ready. subst k3 g1. kernel_simpl. repeat (rewrite lookup_insert_ne; [|names]).
    split_and!; try done. exists c0, n. rewrite list_lookup_insert_eq by done. done. }
  assert (∀ e, (inl e, k3) = (r, k') → ¬ to_accepts rt (globals k) →
    ready layers heads l n c0 k' ∧ files k' = files k
    ∧ globals k' !! "device" = globals k !! "device"
    ∧ (globals k !! "device" = None → r = inl e)
    ∧ ∃ evs, trace k' = trace k ++ EvTokenize (q +:+ nl) :: evs
             ∧ query_events rt (globals k) l c0 q evs) as Hstop.
  { intros e [= <- <-] Hnu. split_and!; [done|done| |done|].
    - subst k3 g1. look.
    - exists []. split; [done|]. by left. }
  bind_step in Hrun. unfold lookup_name at 1 in Hrun.
  assert (globals k3 !! "device" = globals k !! "device") as Hdev.
  { subst k3 g1. look. }
  rewrite Hdev in Hrun.
  destruct (globals k !! "device") as [v|] eqn:Hd; cbv beta iota in Hrun.
  2:{ eapply (Hstop (NameError "device")); [done|]. intros (d & ? & _). congruence. }
  bind_step in Hrun.
  destruct (device_accepted rt v) eqn:Hacc.
  2:{ destruct (to_device_rejected [tokenize rt (q +:+ nl)] v k3 Hacc) as [e He].
      rewrite He in Hrun.
      edestruct (Hstop e) as (? & ? & ? & _ & ?);
        [exact Hrun|intros (v' & ? & ?); simplify_eq; congruence|by split_and!]. }
  rewrite (to_device_accepted _ v k3 Hacc) in Hrun.
  bind_step in Hrun. rewrite assign_run in Hrun.
  set (k4 := with_globals (<["input_ids_q" +:+ i := VIds [tokenize rt (q +:+ nl)]]> (globals k3)) k3) in *.
  assert (ready layers heads l n c0 k4) as Hready4.
  { destruct Hready3 as (? & ? & ? & ? & Hh). unfold ready. subst k4. kernel_simpl.
    repeat (rewrite lookup_insert_ne; [|names]). split_and!; done. }
  pose proof Hready4 as (Hrc4 & _ & Hm4 & _ & _).
  bind_step in Hrun. rewrite (lookup_name_run _ VModel) in Hrun by done.
  bind_step in Hrun. rewrite (lookup_name_run _ (VCache l)) in Hrun by done.
  bind_step in Hrun. cbn [as_model mret M_ret] in Hrun.
  bind_step in Hrun. cbn [as_cache mret M_ret] in Hrun.
  bind_step in Hrun.
  destruct (generate rt [tokenize rt (q +:+ nl)] l 50 k4) as [rg k5] eqn:Hgen.
  assert (heap k4 !! l = Some c0) as Hl4.
  { subst k4 k3. kernel_simpl. by apply list_lookup_insert_eq. }
  destruct (generate_spec _ _ _ _ _ _ Hgen)
    as [(Hnone & _)|(c1 & calls & c' & Hl1 & Hk5 & Hc' & Hfed & _ & _)]; [congruence|].
  rewrite Hl4 in Hl1. injection Hl1 as <-.
  destruct (after_calls_kept _ _ Hlib n c0 (fst <$> calls) c0 n) as (s' & Hns' & Hshape' & Htr');
    [done|done|done| |].
  { eapply fed_inputs; [|done]. apply (lc_tokens _ _ _ Hlib). }
  rewrite <- Hc' in *.
  assert (to_accepts rt (globals k)) as Hus by (by exists v).
  rewrite <- Hd.
  assert (∀ g evs, 
    (g !! "ronan_cache" = globals k4 !! "ronan_cache"
     ∧ g !! "origin_len" = globals k4 !! "origin_len"
     ∧ g !! "model" = globals k4 !! "model"
     ∧ g !! "tokenizer" = globals k4 !! "tokenizer"
     ∧ g !! "device" = globals k4 !! "device") →
    Forall is_tail_event evs →
    k' = with_globals g (add_events evs k5) →
    ready layers heads l n c0 k' ∧ files k' = files k
    ∧ globals k' !! "device" = globals k !! "device"
    ∧ (globals k !! "device" = None → r = inl (NameError "device"))
    ∧ ∃ evs, trace k' = trace k ++ EvTokenize (q +:+ nl) :: evs
             ∧ query_events rt (globals k) l c0 q evs) as Hend.
  { intros g evs (Hg1 & Hg2 & Hg3 & Hg4 & Hg5) Hevs ->. rewrite Hk5.
    destruct Hready4 as (? & ? & ? & ? & _).
    unfold ready. kernel_simpl.
    rewrite Hg1, Hg2, Hg3, Hg4, Hg5. split_and!; try done.
    - exists c', s'. rewrite list_lookup_insert_eq; [done|].
      subst k4 k3. kernel_simpl. by rewrite length_insert.
    - subst k4. kernel_simpl. rewrite lookup_insert_ne; [|names]. by rewrite Hdev, Hd.
    - congruence.
    - exists (EvGenerate [tokenize rt (q +:+ nl)] l c0 :: (ev_forward l <$> calls) ++ evs).
      split.
      + subst k4 k3. kernel_simpl. unfold add_event. kernel_simpl.
        by rewrite <- !app_assoc.
      + right. split; [done|]. eexists. split; [done|].
        apply Forall_app. split; [apply forward_events_tail|done]. }
  destruct rg as [e|out].
  { injection Hrun as <- <-. apply (Hend (globals k5) []); [|done|].
    - rewrite Hk5. done.
    - rewrite add_events_nil. unfold with_globals. by rewrite kernel_eta. }
  bind_step in Hrun. rewrite assign_run in Hrun.
  bind_step in Hrun. unfold index in Hrun.
  destruct (out !! 0%nat) as [row|].
  2:{ injection Hrun as <- <-.
      eapply (Hend (<["gen_ids_q" +:+ i := VIds out]> (globals k5)) []); [|done|].
      - rewrite Hk5. kernel_simpl. split_and!; look.
      - by rewrite add_events_nil. }
  cbn [mret M_ret] in Hrun.
  bind_step in Hrun. rewrite assign_run in Hrun.
  bind_step in Hrun. unfold print in Hrun. rewrite !log_run in Hrun.
  injection Hrun as <- <-.
  eapply (Hend (<["answer" +:+ i := VStr (decode rt row)]>
                  (<["gen_ids_q" +:+ i := VIds out]> (globals k5)))
               [EvPrint _; EvPrint _]); [|by repeat constructor|].
  - rewrite Hk5. kernel_simpl. split_and!; look.
  - unfold with_globals, add_events, add_event. kernel_simpl. by rewrite <- !app_assoc.
Qed.


Lemma query_events_device g g' l c0 q (evs : list (@event elt)) :
  g !! "device" = g' !! "device" →
  query_events rt g l c0 q evs → query_events rt g' l c0 q evs.
Proof.
  intros Hg. unfold query_events, to_accepts. by rewrite Hg.
Qed.

Lemma first_cells_run fs g content :
  fs !! "document.txt" = Some (File content) →
  run_all [cell_env; cell_load; cell_knowledge rt] (Kernel fs [] g [])
  = (inr tt,
     (Kernel fs
       [snd (forward rt [tokenize rt (system_prompt_of (read_text content))] (mkCache [] []))]
       (<["origin_len" := VInt (Z.of_nat (length (tokenize rt (system_prompt_of (read_text content)))))]>
          (<["ronan_cache" := VCache 0]>
             (<["system_prompt" := VStr (system_prompt_of (read_text content))]>
                (<["doc_text" := VStr (read_text content)]>
                   (globals (after_load (after_env (Kernel (elt := elt) fs [] g []))))))))
       [EvPrint "Environment and imports are set.";
        EvPrint "Loaded mistralai/Mistral-7B-Instruct-v0.1.";
        EvExists "document.txt"; EvOpen "document.txt";
        EvGetKvCache (system_prompt_of (read_text content));
        EvTokenize (system_prompt_of (read_text content));
        EvForward [tokenize rt (system_prompt_of (read_text content))] 0 (mkCache [] []);
        EvPrint "KV cache built."])).
Proof.
  intros Hdoc. cbn [run_all]. bind_step. rewrite cell_env_run.
  bind_step. rewrite cell_load_run.
  2:{ unfold after_env. kernel_simpl. rewrite !lookup_insert_ne by done.
      rewrite lookup_insert_eq. by eexists. }
  bind_step. rewrite (cell_knowledge_run _ content).
  - cbv beta iota. unfold after_load, after_env. kernel_simpl.
    cbn [run_all mret M_ret app length]. reflexivity.
  - done.
  - unfold after_load. kernel_simpl. by rewrite lookup_insert_eq.
  - unfold after_load. kernel_simpl. by rewrite lookup_insert_ne, lookup_insert_eq.
Qed.

Lemma built_cache_ready fs g content :
  cache_shape layers 1 heads
    (length (tokenize rt (system_prompt_of (read_text content))))
    (snd (forward rt [tokenize rt (system_prompt_of (read_text content))] (mkCache [] [])))
  ∧ ready layers heads 0
      (length (tokenize rt (system_prompt_of (read_text content))))
      (snd (forward rt [tokenize rt (system_prompt_of (read_text content))] (mkCache [] [])))
      (Kernel fs
       [snd (forward rt [tokenize rt (system_prompt_of (read_text content))] (mkCache [] []))]
       (<["origin_len" := VInt (Z.of_nat (length (tokenize rt (system_prompt_of (read_text content)))))]>
          (<["ronan_cache" := VCache 0]>
             (<["system_prompt" := VStr (system_prompt_of (read_text content))]>
                (<["doc_text" := VStr (read_text content)]>
                   (globals (after_load (after_env (Kernel (elt := elt) fs [] g []))))))))
       [EvPrint "Environment and imports are set.";
        EvPrint "Loaded mistralai/Mistral-7B-Instruct-v0.1.";
        EvExists "document.txt"; EvOpen "document.txt";
        EvGetKvCache (system_prompt_of (read_text content));
        EvTokenize (system_prompt_of (read_text content));
        EvForward [tokenize rt (system_prompt_of (read_text content))] 0 (mkCache [] []);
        EvPrint "KV cache built."]).
Proof.
  assert (cache_shape layers 1 heads
      (length (tokenize rt (system_prompt_of (read_text content))))
      (snd (forward rt [tokenize rt (system_prompt_of (read_text content))] (mkCache [] []))))
    as Hc0.
  { apply (lc_prefill _ _ _ Hlib [tokenize rt (system_prompt_of (read_text content))]).
    apply tokens_input, (lc_tokens _ _ _ Hlib). }
  split; [done|].
  unfold ready, after_load, after_env. kernel_simpl.
  split_and!;
    try (repeat first [rewrite lookup_insert_eq | rewrite lookup_insert_ne by done]; done).
  eexists _, _. split_and!; [done|done|done|]. by eapply truncated_full.
Qed.

Lemma run_all_app (cs cs' : list (@M elt unit)) k :
  run_all (cs ++ cs') k
  = match run_all cs k with
    | (inl e, k') => (inl e, k')
    | (inr _, k') => run_all cs' k'
    end.
Proof.
  revert k. induction cs as [|c cs IH]; intros k; [done|].
  cbn [app run_all]. unfold mbind, M_bind. destruct (c k) as [[e|[]] k1]; [done|].
  apply IH.
Qed.

(** From a fresh kernel with [document.txt] present and libraries that keep
    their contract, the run of the notebook ends in the first query cell
    with [NameError] on [device]. *)
Lemma notebook_stops_at_device fs content :
  fs !! "document.txt" = Some (File content) →
  fst (run_all (notebook rt) (fresh fs)) = inl (NameError "device").
Proof.
  intros Hdoc. destruct (built_cache_ready fs ∅ content) as [Hc0 Hready].
  change (notebook rt)
    with ([cell_env; cell_load; cell_knowledge rt] ++ [cell_query1 rt; cell_query2 rt]).
  rewrite run_all_app. unfold fresh. rewrite (first_cells_run fs ∅ content Hdoc).
  cbn [run_all]. bind_step.
  unfold cell_query1. destruct (cell_query rt "1" question1 _) as [r k'] eqn:H1.
  destruct (cell_query_spec _ _ _ _ _ _ _ _ Hready Hc0 H1) as (_ & _ & _ & Hr & _).
  rewrite Hr; [done|]. unfold after_load, after_env. kernel_simpl.
  by rewrite !lookup_insert_ne, lookup_empty.
Qed.

(** C4. With libraries that keep their contract and [document.txt]
    present, take a kernel that has run nothing yet, whatever names it
    already binds.  The first three cells build the cache once, as object 0
    in state [c0], every layer spanning [n] positions, [n] the number of
    tokens of the system prompt, and record [n] as [origin_len].  Running
    the two query cells after them, each on its own, adds to the log only
    the tokenizing of each question followed, when [device] is bound to a
    value that [Tensor.to] accepts, by one entry of [generate] that is given
    object 0 in exactly the state [c0], the model calls of that [generate],
    and printing; when [device] is unbound or bound to a value that
    [Tensor.to] does not accept, each query cell stops after tokenizing.
    The document is neither tokenized nor run through the model again, and
    after both cells object 0 still holds [c0] in its first [n] positions. *)
Theorem queries_start_from_built_cache fs g content :
  fs !! "document.txt" = Some (File content) →
  let k0 := Kernel fs [] g [] in
  let prompt := system_prompt_of (read_text content) in
  let n := length (tokenize rt prompt) in
  let c0 := snd (forward rt [tokenize rt prompt] (mkCache [] [])) in
  let k10 := snd (run_all [cell_env; cell_load; cell_knowledge rt] k0) in
  let k13 := exec (cell_query2 rt) (exec (cell_query1 rt) k10) in
  fst (run_all [cell_env; cell_load; cell_knowledge rt] k0) = inr tt
  ∧ heap k10 = [c0]
  ∧ globals k10 !! "ronan_cache" = Some (VCache 0)
  ∧ globals k10 !! "origin_len" = Some (VInt (Z.of_nat n))
  ∧ cache_shape layers 1 heads n c0
  ∧ trace k10 = [EvPrint "Environment and imports are set.";
                 EvPrint "Loaded mistralai/Mistral-7B-Instruct-v0.1.";
                 EvExists "document.txt"; EvOpen "document.txt";
                 EvGetKvCache prompt; EvTokenize prompt;
                 EvForward [tokenize rt prompt] 0 (mkCache [] []);
                 EvPrint "KV cache built."]
  ∧ ready layers heads 0 n c0 k13
  ∧ ∃ evs1 evs2,
      trace k13 = trace k10 ++ EvTokenize (question1 +:+ nl) :: evs1
                            ++ EvTokenize (question2 +:+ nl) :: evs2
      ∧ query_events rt g 0 c0 question1 evs1
      ∧ query_events rt g 0 c0 question2 evs2.
Proof.
  intros Hdoc k0 prompt n c0 k10 k13.
  subst k13 k10 k0 c0 n prompt.
  rewrite (first_cells_run fs g content Hdoc). cbn [fst snd].
  destruct (built_cache_ready fs g content) as [Hc0 Hready].
  set (k10 := Kernel fs _ _ _) in *.
  assert (globals k10 !! "device" = g !! "device") as Hdev.
  { subst k10. unfold after_load, after_env. kernel_simpl.
    by rewrite !lookup_insert_ne by done. }
  pose proof Hready as (Hrc & Hol & _).
  unfold exec, cell_query1, cell_query2.
  destruct (cell_query rt "1" question1 k10) as [r1 k12] eqn:H1.
  destruct (cell_query_spec _ _ _ _ _ _ _ _ Hready Hc0 H1)
    as (Hready2 & _ & Hdev2 & _ & evs1 & Htr1 & Hev1).
  cbn [snd].
  destruct (cell_query rt "2" question2 k12) as [r2 k13] eqn:H2.
  destruct (cell_query_spec _ _ _ _ _ _ _ _ Hready2 Hc0 H2)
    as (Hready3 & _ & _ & _ & evs2 & Htr2 & Hev2).
  cbn [snd]. split_and!; try done.
  exists evs1, evs2. split_and!.
  - rewrite Htr2, Htr1. by rewrite <- app_assoc.
  - by eapply query_events_device.
  - eapply query_events_device; [|done]. congruence.
Qed.

End Cells.

(** ** Further properties of the functions *)

(** *** clean_up: lengths out of range *)

Lemma clean_up_truncated n k l c :
  heap k !! l = Some c →
  length (key_cache c) = length (value_cache c) →
  clean_up l n k = (inr tt, with_heap (<[l := truncated n c]> (heap k)) k).
Proof. intros Hl Hwf. by rewrite (clean_up_run _ _ _ _ Hl), clean_loop_all. Qed.

Lemma truncated_ext n m (c : @DynamicCache elt) :
  (∀ t, t ∈ key_cache c ++ value_cache c → slice_seq n t = slice_seq m t) →
  truncated n c = truncated m c.
Proof.
  intros H. unfold truncated. f_equal; apply list_fmap_ext; intros i t Hi; apply H;
    apply elem_of_app; [left|right]; by eapply list_elem_of_lookup_2.
Qed.

Lemma slice_seq_ext n m (t : tensor4 elt) :
  Forall (Forall (λ r, slice_to n r = slice_to m r)) t → slice_seq n t = slice_seq m t.
Proof.
  intros H. unfold slice_seq. apply list_fmap_ext. intros i b Hb.
  rewrite Forall_forall in H. specialize (H b (list_elem_of_lookup_2 _ _ _ Hb)).
  apply list_fmap_ext. intros j r Hr.
  rewrite Forall_forall in H. apply H. by eapply list_elem_of_lookup_2.
Qed.

Lemma truncated_min n m (c : @DynamicCache elt) :
  0 ≤ n → 0 ≤ m → truncated n (truncated m c) = truncated (Z.min n m) c.
Proof.
  intros Hn Hm. unfold truncated. simpl. rewrite <- !list_fmap_compose.
  assert (∀ t : tensor4 elt, slice_seq n (slice_seq m t) = slice_seq (Z.min n m) t) as Ht.
  { intros t. unfold slice_seq. rewrite <- list_fmap_compose.
    apply list_fmap_ext. intros _ b _. simpl. rewrite <- list_fmap_compose.
    apply list_fmap_ext. intros _ r _. simpl. unfold slice_to.
    destruct (Z.ltb_spec n 0), (Z.ltb_spec m 0), (Z.ltb_spec (Z.min n m) 0); try lia.
    rewrite take_take. f_equal. lia. }
  f_equal; apply list_fmap_ext; intros _ t _; apply Ht.
Qed.

(** X1. Two [clean_up] calls in a row, with non-negative lengths, cut the
    cache to the shorter of the two lengths: the second call cannot bring
    back positions that the first one removed. *)
Theorem clean_up_twice_cuts_to_shorter k l c n m :
  heap k !! l = Some c →
  length (key_cache c) = length (value_cache c) →
  0 ≤ n → 0 ≤ m →
  clean_up l n (snd (clean_up l m k)) = clean_up l (Z.min n m) k.
Proof.
  intros Hl Hwf Hn Hm.
  assert (l < length (heap k))%nat as Hlt by (by eapply lookup_lt_Some).
  rewrite (clean_up_truncated m k l c), (clean_up_truncated (Z.min n m) k l c) by done.
  cbn [snd]. erewrite clean_up_truncated;
    [|cbn [heap with_heap]; by apply list_lookup_insert_eq
     |unfold truncated; simpl; rewrite !length_fmap; done].
  cbn [heap with_heap files globals trace].
  by rewrite list_insert_insert_eq, truncated_min.
Qed.


(** X3. A negative [origin_len] counts from the end: on a cache whose
    tensors all span [s] positions, [clean_up(cache, origin_len)] with
    [origin_len < 0] does what [clean_up(cache, max(0, s + origin_len))]
    does, dropping the last [-origin_len] positions of every tensor. *)
Theorem clean_up_negative_counts_from_end k l c layers b h s origin_len :
  heap k !! l = Some c →
  cache_shape layers b h s c →
  origin_len < 0 →
  clean_up l origin_len k = clean_up l (Z.max 0 (Z.of_nat s + origin_len)) k.
Proof.
  intros Hl (HlK & HlV & HK & HV) Hn.
  rewrite !(clean_up_truncated _ k l c) by congruence.
  do 3 f_equal. apply truncated_ext. intros t Ht.
  assert (has_shape b h s t) as [_ Hs].
  { apply elem_of_app in Ht as [Ht|Ht]; [rewrite Forall_forall in HK; by apply HK|].
    rewrite Forall_forall in HV; by apply HV. }
  apply slice_seq_ext. eapply Forall_impl; [exact Hs|]. simpl. intros m [_ Hm].
  eapply Forall_impl; [exact Hm|]. simpl. intros r Hr. unfold slice_to.
  destruct (Z.ltb_spec origin_len 0), (Z.ltb_spec (Z.max 0 (Z.of_nat s + origin_len)) 0);
    try lia.
  f_equal. lia.
Qed.

Lemma clean_loop_outcome n idxs : ∀ c,
  fst (clean_loop n idxs c)
  = if decide (Forall (λ j, (j < length (key_cache c))%nat
                            ∧ (j < length (value_cache c))%nat) idxs)
    then inr tt else inl IndexError.
Proof.
  induction idxs as [|i rest IH]; intros c; cbn [clean_loop].
  - by rewrite decide_True by constructor.
  - destruct (key_cache c !! i) as [kt|] eqn:Hk.
    2:{ cbn [fst]. rewrite decide_False; [done|]. intros HF.
        apply Forall_cons in HF as [[HiK _] _]. apply lookup_ge_None in Hk. lia. }
    apply lookup_lt_Some in Hk as HiK. cbn [value_cache set_key].
    destruct (value_cache c !! i) as [vt|] eqn:Hv.
    2:{ cbn [fst]. rewrite decide_False; [done|]. intros HF.
        apply Forall_cons in HF as [[_ HiV] _]. apply lookup_ge_None in Hv. lia. }
    apply lookup_lt_Some in Hv as HiV. rewrite IH.
    cbn [key_cache value_cache set_value set_key]. rewrite !length_insert.
    destruct (decide (Forall _ rest)) as [HF|HF].
    + rewrite decide_True; [done|]. by constructor.
    + rewrite decide_False; [done|]. intros HF'. by apply Forall_cons in HF' as [_ ?].
Qed.

(** X4. [clean_up] returns normally exactly when the cache holds at least
    as many value tensors as key tensors; otherwise it raises [IndexError].
    Either way it keeps the number of key and of value tensors, and touches
    no other cache object, no file, no global name and not the log. *)
Theorem clean_up_raises_on_missing_values k l c origin_len :
  heap k !! l = Some c →
  (fst (clean_up l origin_len k) = inr tt
     ↔ (length (key_cache c) ≤ length (value_cache c))%nat)
  ∧ ((length (value_cache c) < length (key_cache c))%nat →
       fst (clean_up l origin_len k) = inl IndexError)
  ∧ ∃ c', snd (clean_up l origin_len k) = with_heap (<[l := c']> (heap k)) k
          ∧ length (key_cache c') = length (key_cache c)
          ∧ length (value_cache c') = length (value_cache c).
Proof.
  intros Hl. rewrite (clean_up_run _ _ _ _ Hl). cbn [fst snd].
  rewrite clean_loop_outcome.
  destruct (clean_loop_frame origin_len (seq 0 (length (key_cache c))) c) as (HK & HV & _).
  split_and!; [| |by eexists].
  - destruct (decide (Forall _ _)) as [HF|HF].
    + split; [intros _|done]. rewrite Forall_forall in HF.
      destruct (length (key_cache c)) as [|n] eqn:E; [lia|].
      destruct (HF n) as [_ ?]; [apply elem_of_seq; lia|lia].
    + split; [done|]. intros Hle. destruct HF. apply Forall_forall.
      intros j Hj. apply elem_of_seq in Hj. lia.
  - intros Hlt. rewrite decide_False; [done|]. intros HF. rewrite Forall_forall in HF.
    destruct (HF (length (value_cache c))) as [_ ?]; [apply elem_of_seq; lia|lia].
Qed.

(** *** generate: the budget, the batch and the end of sequence *)

Lemma generate_result x l mnt k out k' :
  rect x →
  generate rt x l mnt k = (inr out, k') →
  ∃ c calls toks,
    heap k !! l = Some c
    ∧ k' = with_heap (<[l := after_calls rt c (fst <$> calls)]> (heap k))
             (add_events (EvGenerate x l c :: (ev_forward l <$> calls)) k)
    ∧ fed x (length x) (fst <$> calls)
    ∧ length toks = length calls
    ∧ stops rt (Z.to_nat mnt) toks
    ∧ Forall (λ tok, length tok = length x) toks
    ∧ Forall (Forall (λ row : list Z, length row = 1%nat)) toks
    ∧ out = hcat ((λ _, []) <$> x) toks.
Proof.
  intros Hrect Hrun.
  destruct (generate_spec _ _ _ _ _ _ Hrun)
    as [(_ & ? & _)|(c & calls & c' & Hl & -> & -> & Hfed & _ & Hres)]; [done|].
  destruct (Hres out eq_refl) as (toks & Hfeeds & Hlt & Hrows & Hstops & ->).
  exists c, calls, toks. split_and!; try done.
  - by eapply feeds_columns.
  - apply drop_hcat. by apply rect_dropped.
Qed.

Lemma hcat_rows (x : ids) toks :
  Forall (λ tok, length tok = length x) toks →
  Forall (Forall (λ row : list Z, length row = 1%nat)) toks →
  Forall (λ row, length row = length toks) (hcat ((λ _, []) <$> x) toks).
Proof.
  intros Hrows Hcols.
  assert (Forall (λ tok, length tok = length ((λ _, []) <$> x : ids)) toks) as Hrows'.
  { eapply Forall_impl; [exact Hrows|]. simpl. intros ? ->. by rewrite length_fmap. }
  pose proof (hcat_row_lengths toks _ Hrows' Hcols) as H2.
  apply Forall_forall. intros row Hrow.
  apply list_elem_of_lookup in Hrow as [i Hi].
  rewrite Forall2_lookup in H2. specialize (H2 i). rewrite Hi in H2.
  inversion H2 as [yr ? Hlen' Hy|]; subst.
  symmetry in Hy. rewrite list_lookup_fmap in Hy.
  destruct (x !! i); simplify_eq/=. lia.
Qed.

Lemma single_tokens (toks : list ids) :
  (∀ i tok, toks !! i = Some tok → ∃ t : Z, tok = [[t]]) →
  ∃ ts : list Z, toks = (λ t, [[t]]) <$> ts.
Proof.
  induction toks as [|tok toks IH]; intros Hall; [by exists []|].
  destruct (Hall 0%nat tok eq_refl) as (t & ->).
  destruct IH as [ts ->]; [intros i tok Hi; apply (Hall (S i) tok Hi)|].
  by exists (t :: ts).
Qed.

(** X5. With [max_new_tokens <= 0] the loop body never runs: [generate]
    does not call the model, leaves every cache object as it is, and returns
    one empty row per row of a rectangular input. *)
Theorem generate_without_budget x l max_new_tokens k c :
  max_new_tokens ≤ 0 →
  rect x →
  heap k !! l = Some c →
  generate rt x l max_new_tokens k
  = (inr ((λ _, []) <$> x), add_event (EvGenerate x l c) k).
Proof.
  intros Hm Hrect Hl. unfold generate, mbind at 1, M_bind at 1, load. rewrite Hl.
  unfold mbind at 1, M_bind at 1, log at 1.
  replace (Z.to_nat max_new_tokens) with 0%nat by lia.
  unfold mbind, M_bind. cbn [generate_loop]. unfold mret, M_ret. f_equal. f_equal.
  apply (drop_hcat _ [] _ _ (rect_dropped _ Hrect)).
Qed.

(** X6. [generate] stops short of [max_new_tokens] only on the
    end-of-sequence id: whenever it returns on a rectangular input, a row
    of the result either holds [max_new_tokens] tokens (none for a negative
    budget) or ends in the configured end-of-sequence id; with no such id
    configured every row holds [max_new_tokens] tokens. *)
Theorem generate_short_only_on_eos x l max_new_tokens k out k' :
  rect x →
  generate rt x l max_new_tokens k = (inr out, k') →
  Forall (λ row, length row = Z.to_nat max_new_tokens
                 ∨ ∃ eos, eos_token_id rt = Some eos ∧ last row = Some eos) out.
Proof.
  intros Hrect Hrun.
  destruct (generate_result _ _ _ _ _ _ Hrect Hrun)
    as (c & calls & toks & _ & _ & _ & _ & Hstops & Hrows & Hcols & ->).
  pose proof (hcat_rows _ _ Hrows Hcols) as Hlen.
  unfold stops in Hstops. destruct (eos_token_id rt) as [eos|].
  - destruct Hstops as [Hall [Hn|Hlast]].
    + eapply Forall_impl; [done|]. simpl. intros row ->. by left.
    + destruct (single_tokens toks) as [ts ->].
      { intros i tok Hi. destruct (Hall i tok Hi) as (t & -> & _). by exists t. }
      destruct ts as [|t0 ts]; [done|].
      apply Forall_cons in Hrows as [Hx _]. simpl in Hx.
      destruct x as [|xr [|]]; simplify_eq/=.
      rewrite (hcat_single ts [t0]). apply Forall_singleton. right. exists eos. split; [done|].
      change ([[t0]] :: ((λ t, [[t]]) <$> ts)) with ((λ t : Z, [[t]]) <$> (t0 :: ts)) in Hlast.
      rewrite fmap_last in Hlast. change ([t0] ++ ts) with (t0 :: ts).
      destruct (last (t0 :: ts)) as [t|]; by simplify_eq/=.
  - eapply Forall_impl; [done|]. simpl. intros row ->. left. congruence.
Qed.

(** X7. With an end-of-sequence id configured [generate] takes a batch of
    one row only: on an input with no or with several rows and
    [max_new_tokens >= 1] it raises, given that the model returns logits for
    as many rows as it is fed.  By then the model has been called once, on
    the whole input. *)
Theorem generate_with_eos_rejects_batch x l max_new_tokens k c eos :
  eos_token_id rt = Some eos →
  1 ≤ max_new_tokens →
  heap k !! l = Some c →
  length x ≠ 1%nat →
  (∀ lg, fst (forward rt x c) = inr lg → length lg = length x) →
  (∃ e, fst (generate rt x l max_new_tokens k) = inl e)
  ∧ trace (snd (generate rt x l max_new_tokens k))
    = trace k ++ [EvGenerate x l c; EvForward x l c].
Proof.
  intros Heos Hm Hl Hx Hlg.
  assert (l < length (heap k))%nat as Hlt by (by eapply lookup_lt_Some).
  destruct (generate rt x l max_new_tokens k) as [r k'] eqn:Hrun. cbn [fst snd].
  unfold generate, mbind at 1, M_bind at 1, load in Hrun. rewrite Hl in Hrun.
  unfold mbind at 1, M_bind at 1, log at 1 in Hrun. unfold mbind at 1, M_bind at 1 in Hrun.
  destruct (Z.to_nat max_new_tokens) as [|n] eqn:En; [lia|].
  cbn [generate_loop] in Hrun. unfold mbind at 1, M_bind at 1 in Hrun.
  rewrite (call_model_run x l _ c) in Hrun by done.
  set (k1 := with_heap _ _) in Hrun.
  assert (trace k1 = trace k ++ [EvGenerate x l c; EvForward x l c]) as Htr.
  { subst k1. cbn. by rewrite <- app_assoc. }
  assert (∀ e, (inl e, k1) = (r, k') →
    (∃ e', r = inl e') ∧ trace k' = trace k ++ [EvGenerate x l c; EvForward x l c])
    as Hraise.
  { intros e [= <- <-]. split; [by exists e|done]. }
  destruct (fst (forward rt x c)) as [e|lg] eqn:Hf; [by apply (Hraise e)|].
  specialize (Hlg lg eq_refl).
  unfold mbind at 1, M_bind at 1, lift at 1 in Hrun. cbv beta iota in Hrun.
  cbn [fst snd] in Hrun.
  destruct (last_position lg) as [e|v] eqn:Hv; [by apply (Hraise e)|].
  assert (length v = length lg) as Hvl.
  { clear -Hv. revert v Hv. induction lg as [|row lg IH]; intros v Hv; simpl in Hv.
    - by injection Hv as <-.
    - destruct (last row); [|done]. destruct (last_position lg); [done|].
      injection Hv as <-. simpl. f_equal. by apply IH. }
  unfold mbind at 1, M_bind at 1, lift at 1, cat_last in Hrun.
  rewrite decide_True in Hrun by (unfold argmax_keepdim; rewrite length_fmap; congruence).
  cbv beta iota in Hrun. unfold mbind at 1, M_bind at 1 in Hrun. rewrite Heos in Hrun.
  unfold mbind at 1, M_bind at 1, lift at 1 in Hrun.
  assert (∃ e, item (argmax_keepdim rt v) = inl e) as [e He].
  { unfold argmax_keepdim. destruct v as [|v0 [|v1 v]]; simpl in *; [by eexists| |by eexists].
    exfalso. apply Hx. congruence. }
  rewrite He in Hrun. by apply (Hraise e).
Qed.

(** *** generate: a larger budget *)

Lemma hcat_extends toks : ∀ (out : ids),
  Forall (λ tok, length tok = length out) toks →
  Forall2 (λ r r' : list Z, r `prefix_of` r') out (hcat out toks).
Proof.
  induction toks as [|tok toks IH]; intros out Hl; simpl.
  - apply Forall2_same_length_lookup_2; [done|]. intros i r r' Hr Hr'. by simplify_eq.
  - apply Forall_cons in Hl as [Hl Hls].
    assert (length (zip_with app out tok) = length out) as Hz by (rewrite length_zip_with; lia).
    specialize (IH (zip_with app out tok)). rewrite Hz in IH. specialize (IH Hls).
    apply Forall2_same_length_lookup_2.
    { apply Forall2_length in IH. lia. }
    intros i r r' Hr Hr'.
    destruct (lookup_lt_is_Some_2 tok i) as [t Ht].
    { apply lookup_lt_Some in Hr. lia. }
    assert (zip_with app out tok !! i = Some (r ++ t)) as Hzi.
    { rewrite lookup_zip_with, Hr. simpl. by rewrite Ht. }
    rewrite Forall2_lookup in IH. specialize (IH i). rewrite Hzi, Hr' in IH.
    inversion IH as [? ? Hp|]; subst. etrans; [|done]. by apply prefix_app_r.
Qed.

Lemma generate_loop_extends n out l next k o k1 :
  generate_loop rt n out l next k = (inr o, k1) →
  Forall2 (λ r r' : list Z, r `prefix_of` r') out o.
Proof.
  intros Hrun. destruct (heap k !! l) as [c|] eqn:Hl.
  - destruct (generate_loop_spec _ _ _ _ _ _ _ _ Hl Hrun) as (calls & c' & _ & _ & _ & _ & Hres).
    destruct (Hres o eq_refl) as (toks & _ & _ & Hrows & _ & ->). by apply hcat_extends.
  - destruct n as [|n]; simpl in Hrun.
    + injection Hrun as <- <-. apply Forall2_same_length_lookup_2; [done|].
      intros i r r' Hr Hr'. by simplify_eq.
    + unfold mbind at 1, M_bind at 1, call_model, mbind at 1, M_bind at 1, load in Hrun.
      by rewrite Hl in Hrun.
Qed.

Lemma generate_loop_budget n : ∀ n' out l next k o k1 o' k2,
  (n ≤ n')%nat →
  generate_loop rt n out l next k = (inr o, k1) →
  generate_loop rt n' out l next k = (inr o', k2) →
  Forall2 (λ r r' : list Z, r `prefix_of` r') o o'.
Proof.
  induction n as [|n IH]; intros n' out l next k o k1 o' k2 Hle Hrun Hrun'.
  - simpl in Hrun. injection Hrun as <- <-. by eapply generate_loop_extends.
  - destruct n' as [|n']; [lia|].
    cbn [generate_loop] in Hrun, Hrun'.
    unfold mbind at 1, M_bind at 1 in Hrun. unfold mbind at 1, M_bind at 1 in Hrun'.
    destruct (call_model rt next l k) as [[e|[lg l1]] k3]; [done|].
    unfold mbind at 1, M_bind at 1, lift at 1 in Hrun.
    unfold mbind at 1, M_bind at 1, lift at 1 in Hrun'. cbn [fst snd] in Hrun, Hrun'.
    destruct (last_position lg) as [e|v]; [done|]. cbv beta iota in Hrun, Hrun'.
    unfold mbind at 1, M_bind at 1, lift at 1 in Hrun.
    unfold mbind at 1, M_bind at 1, lift at 1 in Hrun'.
    destruct (cat_last out (argmax_keepdim rt v)) as [e|out1]; [done|].
    cbv beta iota in Hrun, Hrun'.
    unfold mbind at 1, M_bind at 1 in Hrun. unfold mbind at 1, M_bind at 1 in Hrun'.
    destruct (match eos_token_id rt with
              | Some eos => lift (item (argmax_keepdim rt v)) ≫= λ t : Z, mret (t =? eos)
              | None => mret false
              end k3) as [[e|stop] k4]; [done|].
    destruct stop.
    + injection Hrun as <- <-. injection Hrun' as <- <-.
      apply Forall2_same_length_lookup_2; [done|]. intros i r r' Hr Hr'. by simplify_eq.
    + eapply (IH n'); [lia|done|done].
Qed.

(** X8. A larger budget only appends: when [generate] returns for
    [max_new_tokens = m] and for a larger budget [m'], from the same kernel
    and on the same input, every row returned for [m] is the beginning of the
    row returned for [m']. *)
Theorem generate_larger_budget_extends x l m m' k out k1 out' k2 :
  m ≤ m' →
  generate rt x l m k = (inr out, k1) →
  generate rt x l m' k = (inr out', k2) →
  Forall2 (λ r r' : list Z, r `prefix_of` r') out out'.
Proof.
  intros Hle Hrun Hrun'. unfold generate in Hrun, Hrun'.
  unfold mbind at 1, M_bind at 1, load in Hrun. unfold mbind at 1, M_bind at 1, load in Hrun'.
  destruct (heap k !! l) as [c|]; [|done].
  unfold mbind at 1, M_bind at 1, log at 1 in Hrun.
  unfold mbind at 1, M_bind at 1, log at 1 in Hrun'.
  unfold mbind at 1, M_bind at 1 in Hrun. unfold mbind at 1, M_bind at 1 in Hrun'.
  destruct (generate_loop rt (Z.to_nat m) x l x _) as [[e|o] k3] eqn:Hloop; [done|].
  destruct (generate_loop rt (Z.to_nat m') x l x _) as [[e|o'] k4] eqn:Hloop'; [done|].
  injection Hrun as <- <-. injection Hrun' as <- <-.
  assert (Forall2 (λ r r' : list Z, r `prefix_of` r') o o') as Hp.
  { eapply (generate_loop_budget (Z.to_nat m) (Z.to_nat m')); [lia|done|done]. }
  apply Forall2_fmap. eapply Forall2_impl; [done|].
  intros r r' [t ->]. rewrite drop_app. by apply prefix_app_r.
Qed.

(** *** generate and clean_up on a cache the model filled *)

Lemma column_tokens (x : ids) (toks : list ids) :
  length x = 1%nat →
  Forall (λ tok, length tok = length x) toks →
  Forall (Forall (λ row : list Z, length row = 1%nat)) toks →
  ∃ ts : list Z, toks = (λ t, [[t]]) <$> ts.
Proof.
  intros Hx Hrows Hcols. apply single_tokens. intros i tok Hi.
  rewrite Forall_forall in Hrows. rewrite Forall_forall in Hcols.
  pose proof (Hrows tok (list_elem_of_lookup_2 _ _ _ Hi)) as Hr.
  pose proof (Hcols tok (list_elem_of_lookup_2 _ _ _ Hi)) as Hc.
  rewrite Hx in Hr. destruct tok as [|r [|? ?]]; simplify_eq/=.
  rewrite Forall_singleton in Hc. destruct r as [|t [|? ?]]; simplify_eq/=. by exists t.
Qed.

Lemma fed_positions (row : list Z) xs :
  fed [row] 1 xs →
  sum_list (shape_last <$> xs)
  = match xs with [] => 0%nat | _ :: rest => (length row + length rest)%nat end.
Proof.
  destruct xs as [|x rest]; [done|]. intros [-> Hrest]. simpl. f_equal.
  induction Hrest as [|t rest [Hl Hrows] _ IH]; [done|]. simpl. rewrite IH.
  destruct t as [|r [|? ?]]; simplify_eq/=. rewrite Forall_singleton in Hrows. lia.
Qed.

Section Filled.

Context (layers heads : nat) (Hlib : library_contract rt layers heads).

Lemma after_calls_shape : ∀ xs c s,
  cache_shape layers 1 heads s c →
  Forall (λ x, model_input x ∧ length x = 1%nat) xs →
  cache_shape layers 1 heads (s + sum_list (shape_last <$> xs)) (after_calls rt c xs).
Proof.
  induction xs as [|x xs IH]; intros c s Hc Hxs; simpl.
  - by rewrite Nat.add_0_r.
  - apply Forall_cons in Hxs as [[Hx Hlen] Hxs].
    destruct (lc_extend _ _ _ Hlib x c s Hx) as [Hc1 _]; [by rewrite Hlen|].
    rewrite Hlen in Hc1. rewrite Nat.add_assoc. by apply IH.
Qed.

(** What a run of [generate] on the tokens of a text and a filled cache
    comes to. *)
Lemma generate_on_filled row l mnt k c s :
  heap k !! l = Some c →
  cache_shape layers 1 heads s c →
  row ≠ [] →
  ∃ (new : list Z) (calls : list (ids * @DynamicCache elt)),
    generate rt [row] l mnt k
    = (inr [new],
       with_heap (<[l := after_calls rt c (fst <$> calls)]> (heap k))
         (add_events (EvGenerate [row] l c :: (ev_forward l <$> calls)) k))
    ∧ length new = length calls
    ∧ (length new ≤ Z.to_nat mnt)%nat
    ∧ fed [row] 1 (fst <$> calls)
    ∧ truncated (Z.of_nat s) (after_calls rt c (fst <$> calls)) = c
    ∧ cache_shape layers 1 heads
        (s + match new with [] => 0 | _ :: rest => length row + length rest end)
        (after_calls rt c (fst <$> calls))
    ∧ (length new = Z.to_nat mnt
       ∨ ∃ eos, eos_token_id rt = Some eos ∧ last new = Some eos).
Proof.
  intros Hl Hc Hrow.
  destruct (generate_returns _ _ Hlib row l mnt k c s Hl Hc Hrow) as (out & k' & Hrun).
  assert (rect [row]) as Hrect by (unfold rect; simpl; by repeat constructor).
  destruct (generate_spec _ _ _ _ _ _ Hrun)
    as [(? & _)|(c1 & calls & c' & Hl1 & -> & -> & Hfed & Hle & Hres)]; [congruence|].
  rewrite Hl in Hl1. injection Hl1 as <-.
  destruct (Hres out eq_refl) as (toks & Hfeeds & Hlt & Hrows & Hstops & Hout).
  rewrite (drop_hcat _ _ _ _ (rect_dropped _ Hrect)) in Hout.
  destruct (column_tokens [row] toks) as [ts ->];
    [done|done|by eapply feeds_columns|].
  simpl in Hout. rewrite (hcat_single ts []) in Hout. simpl in Hout. subst out.
  rewrite length_fmap in Hlt.
  pose proof (fed_inputs row _ Hrow Hfed) as Hin.
  exists ts, calls. split_and!; [done|done|lia|done| | |].
  - destruct (after_calls_kept _ _ Hlib s c (fst <$> calls) c s) as (_ & _ & _ & Ht);
      [done|done|by eapply truncated_full|done|done].
  - pose proof (after_calls_shape _ _ _ Hc Hin) as Hs.
    rewrite (fed_positions row) in Hs by done.
    destruct calls as [|call calls], ts as [|t ts]; simplify_eq/=; [done|].
    rewrite length_fmap in Hs. by rewrite Hlt.
  - unfold stops in Hstops. rewrite length_fmap in Hstops.
    destruct (eos_token_id rt) as [eos|]; [|by left].
    destruct Hstops as [_ [?|Hlast]]; [by left|]. right. exists eos. split; [done|].
    rewrite fmap_last in Hlast. by destruct (last ts); simplify_eq/=.
Qed.

(** X9. Under the library contract, [generate] on the tokens of a text
    and a filled cache object returns one row of new tokens and leaves the
    object extended in place: every layer then spans the positions it had,
    those of the input, and one for every new token but the last, which is
    never fed to the model; the positions it had are unchanged. *)
Theorem generate_extends_cache row l max_new_tokens k c s :
  heap k !! l = Some c →
  cache_shape layers 1 heads s c →
  row ≠ [] →
  ∃ new k' c',
    generate rt [row] l max_new_tokens k = (inr [new], k')
    ∧ heap k' = <[l := c']> (heap k)
    ∧ cache_shape layers 1 heads
        (s + match new with [] => 0 | _ :: rest => length row + length rest end) c'
    ∧ truncated (Z.of_nat s) c' = c.
Proof.
  intros Hl Hc Hrow.
  destruct (generate_on_filled row l max_new_tokens k c s Hl Hc Hrow)
    as (new & calls & Hrun & _ & _ & _ & Ht & Hs & _).
  by eexists new, _, _.
Qed.

(** X10. Under the library contract, [clean_up] with the length the cache
    had undoes what [generate] did to it: after [generate] on the tokens of
    a text and [clean_up(cache, s)], every cache object is exactly as it
    was before the call of [generate]. *)
Theorem clean_up_undoes_generate row l max_new_tokens k c s :
  heap k !! l = Some c →
  cache_shape layers 1 heads s c →
  row ≠ [] →
  ∃ out k1,
    generate rt [row] l max_new_tokens k = (inr out, k1)
    ∧ clean_up l (Z.of_nat s) k1 = (inr tt, with_heap (heap k) k1).
Proof.
  intros Hl Hc Hrow.
  assert (l < length (heap k))%nat as Hlt by (by eapply lookup_lt_Some).
  destruct (generate_on_filled row l max_new_tokens k c s Hl Hc Hrow)
    as (new & calls & Hrun & _ & _ & _ & Ht & (HlK & HlV & _) & _).
  eexists _, _. split; [done|].
  erewrite clean_up_run; [|cbn [heap with_heap]; by apply list_lookup_insert_eq].
  rewrite clean_loop_all by congruence.
  fold (truncated (Z.of_nat s) (after_calls rt c (fst <$> calls))). rewrite Ht.
  cbn [fst snd heap with_heap add_events files globals trace].
  by rewrite list_insert_insert_eq, list_insert_id.
Qed.

End Filled.

(** *** The answers of the query cells *)

Lemma bind_agree {A B} (m m' : @M elt A) (f f' : A → @M elt B) k k' :
  fst (m k) = fst (m' k') →
  (∀ a, fst (m k) = inr a → fst (f a (snd (m k))) = fst (f' a (snd (m' k')))) →
  fst ((m ≫= f) k) = fst ((m' ≫= f') k').
Proof.
  unfold mbind, M_bind. destruct (m k) as [[e|a] k1], (m' k') as [[e'|a'] k1']; simpl;
    intros H Hf; simplify_eq; [done|]. by apply Hf.
Qed.

Lemma bind_run {A B} (m : @M elt A) (f : A → @M elt B) k :
  (m ≫= f) k = match m k with
               | (inl e, k') => (inl e, k')
               | (inr a, k') => f a k'
               end.
Proof. reflexivity. Qed.

(** The outcome of the loop of [generate] depends on the kernel only
    through the state of the cache object it works on. *)
Lemma generate_loop_local n : ∀ out l l' next k k' c,
  heap k !! l = Some c → heap k' !! l' = Some c →
  fst (generate_loop rt n out l next k) = fst (generate_loop rt n out l' next k').
Proof.
  induction n as [|n IH]; intros out l l' next k k' c Hl Hl'; [done|].
  assert (l < length (heap k))%nat as Hlt by (by eapply lookup_lt_Some).
  assert (l' < length (heap k'))%nat as Hlt' by (by eapply lookup_lt_Some).
  cbn [generate_loop].
  rewrite (bind_run (call_model rt next l) _ k), (bind_run (call_model rt next l') _ k').
  rewrite (call_model_run _ _ _ _ Hl), (call_model_run _ _ _ _ Hl').
  destruct (fst (forward rt next c)) as [e|lg]; [done|]. cbn [fst snd].
  apply bind_agree; [done|]. intros v _. cbn [lift snd].
  apply bind_agree; [done|]. intros out1 _. cbn [lift snd].
  apply bind_agree.
  { destruct (eos_token_id rt); [|done]. by apply bind_agree. }
  intros stop _. destruct stop; [done|].
  assert (∀ k1 : @kernel elt,
    snd (match eos_token_id rt with
         | Some eos => lift (item (argmax_keepdim rt v)) ≫= λ t : Z, mret (t =? eos)
         | None => mret false
         end k1) = k1) as Hpure.
  { intros k1. destruct (eos_token_id rt); [|done].
    unfold mbind, M_bind, lift. by destruct (item _). }
  rewrite !Hpure. eapply IH; cbn [heap with_heap]; by apply list_lookup_insert_eq.
Qed.

Lemma generate_local x l l' mnt k k' c :
  heap k !! l = Some c → heap k' !! l' = Some c →
  fst (generate rt x l mnt k) = fst (generate rt x l' mnt k').
Proof.
  intros Hl Hl'. unfold generate.
  rewrite (bind_run (load l) _ k), (bind_run (load l') _ k'). unfold load. rewrite Hl, Hl'.
  rewrite (bind_run (log _) _ k), (bind_run (log _) _ k'). rewrite !log_run.
  apply bind_agree; [|done]. by eapply generate_loop_local.
Qed.

Lemma printed_app (evs evs' : list (@event elt)) :
  printed (evs ++ evs') = printed evs ++ printed evs'.
Proof. apply omap_app. Qed.

Lemma printed_forward l (calls : list (ids * @DynamicCache elt)) :
  printed (ev_forward l <$> calls) = [].
Proof. by induction calls. Qed.

Section QueryAnswers.

Context (layers heads : nat) (Hlib : library_contract rt layers heads).

Ltac names := apply suffixed_name_ne; [by intros ? ? [= <- _] ? ? [= <- _]|done].
Ltac look := kernel_simpl; repeat (rewrite lookup_insert_ne; [|names]); done.

(** A query cell run to its end, from a kernel that is ready for it and
    binds a usable device. *)
Lemma cell_query_run i q l n c0 k d :
  ready layers heads l n c0 k →
  cache_shape layers 1 heads n c0 →
  globals k !! "device" = Some (VStr d) →
  device_ok rt d = true →
  ∃ (new : list Z) (calls : list (ids * @DynamicCache elt)),
    fst (generate rt [tokenize rt (q +:+ nl)] 0 50 (Kernel ∅ [c0] ∅ [])) = inr [new]
    ∧ (length new ≤ 50)%nat
    ∧ (length new = 50%nat ∨ ∃ eos, eos_token_id rt = Some eos ∧ last new = Some eos)
    ∧ truncated (Z.of_nat n) (after_calls rt c0 (fst <$> calls)) = c0
    ∧ (∃ s, (n ≤ s)%nat
            ∧ cache_shape layers 1 heads s (after_calls rt c0 (fst <$> calls)))
    ∧ cell_query rt i q k
      = (inr tt,
         Kernel (files k) (<[l := after_calls rt c0 (fst <$> calls)]> (heap k))
           (<["answer" +:+ i := VStr (decode rt new)]>
              (<["gen_ids_q" +:+ i := VIds [new]]>
                 (<["input_ids_q" +:+ i := VIds [tokenize rt (q +:+ nl)]]>
                    (<["question" +:+ i := VStr q]> (globals k)))))
           (trace k ++ [EvTokenize (q +:+ nl); EvGenerate [tokenize rt (q +:+ nl)] l c0]
              ++ (ev_forward l <$> calls)
              ++ [EvPrint ("Q" +:+ i +:+ ": " +:+ q);
                  EvPrint ("A" +:+ i +:+ ": " +:+ decode rt new)])).
Proof.
  intros Hready Hc0 Hd Hok.
  pose proof Hready as (Hrc & Hol & Hm & Ht & c & s & Hl & Hns & Hshape & Htr).
  assert (l < length (heap k))%nat as Hlt by (by eapply lookup_lt_Some).
  set (x := [tokenize rt (q +:+ nl)]).
  set (g1 := <["question" +:+ i := VStr q]> (globals k)).
  set (k3 := add_event (EvTokenize (q +:+ nl))
               (with_heap (<[l:=c0]> (heap k)) (with_globals g1 k))).
  set (k4 := with_globals (<["input_ids_q" +:+ i := VIds x]> g1) k3).
  assert (heap k4 !! l = Some c0) as Hl4.
  { subst k4 k3. kernel_simpl. by apply list_lookup_insert_eq. }
  destruct (generate_on_filled layers heads Hlib (tokenize rt (q +:+ nl)) l 50 k4 c0 n Hl4 Hc0)
    as (new & calls & Hgen & Hlen & Hle & Hfed & Htrunc & Hshape' & Hend);
    [apply (lc_tokens _ _ _ Hlib)|].
  fold x in Hgen.
  exists new, calls. split_and!.
  - rewrite <- (generate_local x l 0 50 k4 (Kernel ∅ [c0] ∅ []) c0 Hl4 eq_refl).
    by rewrite Hgen.
  - lia.
  - done.
  - done.
  - eexists. split; [|done]. lia.
  - unfold cell_query.
    bind_step. rewrite assign_run.
    bind_step. rewrite (lookup_name_run _ (VCache l)) by look.
    bind_step. rewrite (lookup_name_run _ (VInt (Z.of_nat n))) by look.
    bind_step. cbn [as_cache mret M_ret].
    bind_step. cbn [as_int mret M_ret].
    bind_step. rewrite (clean_up_ready layers heads l n c0).
    2:{ unfold ready. kernel_simpl. repeat (rewrite lookup_insert_ne; [|names]).
        split_and!; try done. by exists c, s. }
    kernel_simpl.
    bind_step. rewrite (lookup_name_run _ VTokenizer) by look.
    bind_step. cbn [as_tokenizer mret M_ret].
    bind_step. rewrite tokenizer_call_run. fold g1 k3.
    bind_step. rewrite (lookup_name_run _ (VStr d)) by (subst k3 g1; look).
    bind_step. unfold to_device. rewrite Hok. cbn [mret M_ret].
    bind_step. rewrite assign_run. fold x. change (globals k3) with g1. fold k4.
    bind_step. rewrite (lookup_name_run _ VModel) by (subst k4 k3 g1; look).
    bind_step. rewrite (lookup_name_run _ (VCache l)) by (subst k4 k3 g1; look).
    bind_step. cbn [as_model mret M_ret].
    bind_step. cbn [as_cache mret M_ret].
    bind_step. rewrite Hgen.
    bind_step. rewrite assign_run.
    bind_step. unfold index. change ([new] !! 0%nat) with (Some new). cbn [mret M_ret].
    bind_step. rewrite assign_run.
    bind_step. unfold print. rewrite !log_run.
    subst k4 k3 g1. unfold with_globals, with_heap, add_events, add_event. kernel_simpl.
    f_equal. f_equal.
    + by rewrite list_insert_insert_eq.
    + by rewrite <- !app_assoc.
Qed.

Lemma cell_query_answer i q l n c0 k :
  ready layers heads l n c0 k →
  cache_shape layers 1 heads n c0 →
  usable_device rt (globals k) →
  ∃ a,
    answer_to rt c0 q = Some a
    ∧ fst (cell_query rt i q k) = inr tt
    ∧ globals (exec (cell_query rt i q) k) !! ("answer" +:+ i) = Some (VStr a)
    ∧ (∀ x, ("answer" +:+ i) ≠ x → ("gen_ids_q" +:+ i) ≠ x → ("input_ids_q" +:+ i) ≠ x →
            ("question" +:+ i) ≠ x →
            globals (exec (cell_query rt i q) k) !! x = globals k !! x)
    ∧ printed (trace (exec (cell_query rt i q) k))
      = printed (trace k) ++ ["Q" +:+ i +:+ ": " +:+ q; "A" +:+ i +:+ ": " +:+ a]
    ∧ ready layers heads l n c0 (exec (cell_query rt i q) k)
    ∧ usable_device rt (globals (exec (cell_query rt i q) k)).
Proof.
  intros Hready Hc0 (d & Hd & Hok).
  destruct (cell_query_run i q l n c0 k d Hready Hc0 Hd Hok)
    as (new & calls & Href & _ & _ & Htrunc & (s & Hns & Hshape) & Hrun).
  pose proof Hready as (Hrc & Hol & Hm & Ht & c & _ & Hl & _).
  assert (l < length (heap k))%nat as Hlt by (by eapply lookup_lt_Some).
  exists (decode rt new). unfold exec. rewrite Hrun. kernel_simpl.
  split_and!.
  - unfold answer_to. by rewrite Href.
  - done.
  - by rewrite lookup_insert_eq.
  - intros x ? ? ? ?. by rewrite !lookup_insert_ne.
  - rewrite !printed_app, printed_forward. done.
  - unfold ready. kernel_simpl. repeat (rewrite lookup_insert_ne; [|names]).
    split_and!; try done. exists (after_calls rt c0 (fst <$> calls)), s.
    by rewrite list_lookup_insert_eq.
  - exists d. by repeat (rewrite lookup_insert_ne; [|names]).
Qed.

Lemma queries_keep_ready l n c0 earlier : ∀ k,
  ready layers heads l n c0 k →
  cache_shape layers 1 heads n c0 →
  usable_device rt (globals k) →
  ready layers heads l n c0 (after_queries rt earlier k)
  ∧ usable_device rt (globals (after_queries rt earlier k)).
Proof.
  induction earlier as [|[j q'] earlier IH]; intros k Hready Hc0 Hdev; [done|].
  destruct (cell_query_answer j q' l n c0 k Hready Hc0 Hdev)
    as (_ & _ & _ & _ & _ & _ & Hready1 & Hdev1).
  by apply IH.
Qed.

Lemma built_ready fs g content earlier :
  fs !! "document.txt" = Some (File content) →
  usable_device rt g →
  let c0 := snd (forward rt [tokenize rt (system_prompt_of (read_text content))]
                   (mkCache [] [])) in
  let n := length (tokenize rt (system_prompt_of (read_text content))) in
  cache_shape layers 1 heads n c0
  ∧ ready layers heads 0 n c0 (after_queries rt earlier (built rt fs g))
  ∧ usable_device rt (globals (after_queries rt earlier (built rt fs g))).
Proof.
  intros Hdoc Hdev c0 n.
  destruct (built_cache_ready _ _ Hlib fs g content) as [Hc0 Hready].
  unfold built. rewrite (first_cells_run _ _ Hlib fs g content Hdoc). cbn [snd].
  split; [done|]. apply queries_keep_ready; [done|done|].
  destruct Hdev as (d & Hd & Hok). exists d. split; [|done].
  unfold after_load, after_env. kernel_simpl. by rewrite !lookup_insert_ne by done.
Qed.

(** X11. Under the library contract, with [document.txt] present and a
    usable device bound beforehand: after the first three cells and any
    sequence of query cells, a further query cell runs to its end, and the
    answer it binds and prints is determined by its question and by the
    cache as built from the document alone.  It is the decoding of what
    [generate] returns on the question's tokens and a cache in the state the
    knowledge cell left, whatever was asked before. *)
Theorem query_answer_from_built_cache fs g content earlier i q :
  fs !! "document.txt" = Some (File content) →
  usable_device rt g →
  let c0 := snd (forward rt [tokenize rt (system_prompt_of (read_text content))]
                   (mkCache [] [])) in
  let k := after_queries rt earlier (built rt fs g) in
  ∃ a,
    answer_to rt c0 q = Some a
    ∧ fst (cell_query rt i q k) = inr tt
    ∧ globals (exec (cell_query rt i q) k) !! ("answer" +:+ i) = Some (VStr a)
    ∧ printed (trace (exec (cell_query rt i q) k))
      = printed (trace k) ++ ["Q" +:+ i +:+ ": " +:+ q; "A" +:+ i +:+ ": " +:+ a].
Proof.
  intros Hdoc Hdev c0 k.
  destruct (built_ready fs g content earlier Hdoc Hdev) as (Hc0 & Hready & Hdevk).
  destruct (cell_query_answer i q _ _ _ k Hready Hc0 Hdevk)
    as (a & ? & ? & ? & _ & ? & _ & _).
  by exists a.
Qed.

(** X12. Under the library contract, with [document.txt] present and a
    usable device bound beforehand: after the first three cells and any
    sequence of query cells, a query cell binds to [gen_ids_q] one row of
    new tokens and to [answer] its decoding; the row holds 50 tokens, the
    default budget of [generate], unless it ends in the end-of-sequence id,
    in which case it may be shorter. *)
Theorem query_answer_within_budget fs g content earlier i q :
  fs !! "document.txt" = Some (File content) →
  usable_device rt g →
  let k := after_queries rt earlier (built rt fs g) in
  ∃ new,
    globals (exec (cell_query rt i q) k) !! ("gen_ids_q" +:+ i) = Some (VIds [new])
    ∧ globals (exec (cell_query rt i q) k) !! ("answer" +:+ i) = Some (VStr (decode rt new))
    ∧ (length new ≤ 50)%nat
    ∧ ((length new < 50)%nat → ∃ eos, eos_token_id rt = Some eos ∧ last new = Some eos).
Proof.
  intros Hdoc Hdev k.
  destruct (built_ready fs g content earlier Hdoc Hdev) as (Hc0 & Hready & (d & Hd & Hok)).
  destruct (cell_query_run i q _ _ _ k d Hready Hc0 Hd Hok)
    as (new & calls & _ & Hle & Hend & _ & _ & Hrun).
  exists new. unfold exec. rewrite Hrun. kernel_simpl. split_and!.
  - rewrite lookup_insert_ne; [|names]. by rewrite lookup_insert_eq.
  - by rewrite lookup_insert_eq.
  - done.
  - intros Hlt. destruct Hend as [?|?]; [lia|done].
Qed.

(** X13. Under the library contract, with [document.txt] present and a
    usable device bound beforehand, the two query cells of the notebook give
    the same two answers in either order: after the first three cells and
    both query cells, in the order of the notebook or in the opposite order,
    [answer1] and [answer2] are bound to the same texts. *)
Theorem answers_independent_of_order fs g content :
  fs !! "document.txt" = Some (File content) →
  usable_device rt g →
  let k12 := exec (cell_query2 rt) (exec (cell_query1 rt) (built rt fs g)) in
  let k21 := exec (cell_query1 rt) (exec (cell_query2 rt) (built rt fs g)) in
  ∃ a1 a2,
    globals k12 !! "answer1" = Some (VStr a1)
    ∧ globals k21 !! "answer1" = Some (VStr a1)
    ∧ globals k12 !! "answer2" = Some (VStr a2)
    ∧ globals k21 !! "answer2" = Some (VStr a2).
Proof.
  intros Hdoc Hdev k12 k21. subst k12 k21. unfold cell_query1, cell_query2.
  destruct (built_ready fs g content [] Hdoc Hdev) as (Hc0 & Hready & Hdevk).
  cbn [after_queries foldl] in Hready, Hdevk.
  destruct (cell_query_answer "1" question1 _ _ _ _ Hready Hc0 Hdevk)
    as (a1 & Ha1 & _ & Hg1 & _ & _ & Hready1 & Hdev1).
  destruct (cell_query_answer "2" question2 _ _ _ _ Hready1 Hc0 Hdev1)
    as (a2 & Ha2 & _ & Hg12 & Hkeep12 & _ & _ & _).
  destruct (cell_query_answer "2" question2 _ _ _ _ Hready Hc0 Hdevk)
    as (a2' & Ha2' & _ & Hg2 & _ & _ & Hready2 & Hdev2).
  destruct (cell_query_answer "1" question1 _ _ _ _ Hready2 Hc0 Hdev2)
    as (a1' & Ha1' & _ & Hg21 & Hkeep21 & _ & _ & _).
  assert (a1' = a1) as -> by congruence. assert (a2' = a2) as -> by congruence.
  exists a1, a2. split_and!; [|done|done|].
  - rewrite (Hkeep12 "answer1") by done. done.
  - rewrite (Hkeep21 "answer2") by done. done.
Qed.

(** X14. Under the library contract, with [document.txt] present and a
    usable device bound beforehand, the notebook runs to its end; it prints
    the three notices of the first cells and then each question with its
    answer, each answer being the one determined by the question and the
    cache built from the document. *)
Theorem notebook_completes_with_device fs g content :
  fs !! "document.txt" = Some (File content) →
  usable_device rt g →
  let c0 := snd (forward rt [tokenize rt (system_prompt_of (read_text content))]
                   (mkCache [] [])) in
  ∃ a1 a2,
    answer_to rt c0 question1 = Some a1
    ∧ answer_to rt c0 question2 = Some a2
    ∧ fst (run_all (notebook rt) (Kernel fs [] g [])) = inr tt
    ∧ printed (trace (snd (run_all (notebook rt) (Kernel fs [] g []))))
      = ["Environment and imports are set.";
         "Loaded mistralai/Mistral-7B-Instruct-v0.1.";
         "KV cache built.";
         "Q1: " +:+ question1; "A1: " +:+ a1;
         "Q2: " +:+ question2; "A2: " +:+ a2].
Proof.
  intros Hdoc Hdev c0.
  destruct (built_cache_ready _ _ Hlib fs g content) as [Hc0 Hready].
  change (notebook rt)
    with ([cell_env; cell_load; cell_knowledge rt] ++ [cell_query1 rt; cell_query2 rt]).
  rewrite run_all_app, (first_cells_run _ _ Hlib fs g content Hdoc).
  set (k10 := Kernel fs _ _ _) in *.
  assert (usable_device rt (globals k10)) as Hdev10.
  { destruct Hdev as (d & Hd & Hok). exists d. split; [|done].
    subst k10. unfold after_load, after_env. kernel_simpl.
    by rewrite !lookup_insert_ne by done. }
  destruct (cell_query_answer "1" question1 _ _ _ k10 Hready Hc0 Hdev10)
    as (a1 & Ha1 & Hr1 & _ & _ & Hp1 & Hready1 & Hdev1).
  destruct (cell_query_answer "2" question2 _ _ _ _ Hready1 Hc0 Hdev1)
    as (a2 & Ha2 & Hr2 & _ & _ & Hp2 & _ & _).
  exists a1, a2. split; [done|]. split; [done|].
  cbn [run_all]. unfold cell_query1, cell_query2, exec in *.
  rewrite bind_run. destruct (cell_query rt "1" question1 k10) as [r1 k12].
  cbn [fst snd] in *. subst r1.
  rewrite bind_run. destruct (cell_query rt "2" question2 k12) as [r2 k13].
  cbn [fst snd] in *. subst r2. cbn [mret M_ret fst snd].
  split; [done|]. rewrite Hp2, Hp1. subst k10. reflexivity.
Qed.

End QueryAnswers.

(** *** Stripping and the system prompt *)

(** X15. The system prompt holds the text of the document as it was read,
    between a fixed header and a fixed footer: [strip] removes only the line
    break before the header and the one after the footer, and no character
    of the document, whatever white space the document begins or ends
    with. *)
Theorem system_prompt_keeps_document doc_text :
  system_prompt_of doc_text
  = "<|system|>" +:+ nl
    +:+ "You are an assistant who provides concise factual answers." +:+ nl
    +:+ "<|user|>" +:+ nl
    +:+ "Context:" +:+ nl
    +:+ doc_text
    +:+ nl +:+ "Question:".
Proof.
  unfold system_prompt_of, strip.
  set (middle := String.list_ascii_of_string
         ("|system|>" +:+ nl
          +:+ "You are an assistant who provides concise factual answers." +:+ nl
          +:+ "<|user|>" +:+ nl +:+ "Context:" +:+ nl)
       ++ String.list_ascii_of_string doc_text
       ++ String.list_ascii_of_string (nl +:+ "Question")).
  transitivity (strip_by isspace
    (String.string_of_list_ascii (["010"%char] ++ "<"%char :: middle ++ ":"%char :: ["010"%char]))).
  - f_equal. rewrite <- (String.string_of_list_ascii_of_string (_ +:+ _)). f_equal.
    subst middle. rewrite !list_ascii_app. unfold nl.
    cbn [String.list_ascii_of_string app]. by rewrite <- !app_assoc.
  - rewrite strip_by_between by (repeat constructor).
    rewrite <- (String.string_of_list_ascii_of_string (_ +:+ _)). f_equal.
    subst middle. rewrite !list_ascii_app. unfold nl.
    cbn [String.list_ascii_of_string app]. by rewrite <- !app_assoc.
Qed.

(** *** get_env: what it raises, what it leaves alone, what it returns *)

Lemma get_env_loop_raises lines : ∀ d e, get_env_loop lines d = inl e → e = ValueError.
Proof.
  induction lines as [|line lines IH]; intros d e H; simpl in H; [done|].
  destruct (split "=" (strip line)) as [|a [|b [|? ?]]]; try by injection H.
  by eapply IH.
Qed.

(** X16. [get_env] opens a path only after the test for its existence
    has succeeded, so it never raises [FileNotFoundError].  What it raises
    is [ValueError], with a text file at the path it chose;
    [IsADirectoryError], with a directory there; or [PermissionError], with
    a file there that cannot be read.  It only reads: the files, the cache
    objects and the global names are as before, whether it returns or
    raises. *)
Theorem get_env_raises_no_missing_file k :
  (∀ e, fst (get_env k) = inl e →
     (e = ValueError ∧ ∃ content, files k !! chosen_env_path (files k) = Some (File content))
     ∨ (e = IsADirectoryError ∧ files k !! chosen_env_path (files k) = Some Directory)
     ∨ (e = PermissionError ∧ files k !! chosen_env_path (files k) = Some Unreadable))
  ∧ files (snd (get_env k)) = files k
  ∧ heap (snd (get_env k)) = heap k
  ∧ globals (snd (get_env k)) = globals k.
Proof.
  rewrite get_env_run. cbv zeta.
  destruct (files k !! chosen_env_path (files k)) as [[content| |]|] eqn:Hf;
    (split; [|done]); intros e He; cbn [fst] in He.
  - left. split; [by eapply get_env_loop_raises|by eexists].
  - right. left. by simplify_eq.
  - right. right. by simplify_eq.
  - done.
Qed.

(** X17. What [get_env] returns is clean: no key and no value holds an
    "=" or a line break, no key begins with white space, and no value
    begins or ends with a double quote. *)
Theorem get_env_entries_clean k d key v :
  fst (get_env k) = inr d →
  d !! key = Some v →
  count_char "=" key = 0%nat ∧ count_char "=" v = 0%nat
  ∧ count_char "010" key = 0%nat ∧ count_char "010" v = 0%nat
  ∧ (∀ a, first_char key = Some a → isspace a = false)
  ∧ first_char v ≠ Some "034"%char ∧ last_char v ≠ Some "034"%char.
Proof.
  intros Hd Hv. apply get_env_success in Hd.
  rewrite (get_env_loop_lookup _ _ _ key Hd), lookup_empty in Hv.
  destruct (last_value key (env_lines (files k))) as [v'|] eqn:Hlast; [|done].
  injection Hv as ->.
  apply last_value_entry in Hlast as (line & Hin & Hentry).
  assert (count_char "010" (strip line) = 0%nat) as Hnl.
  { unfold env_lines in Hin. destruct (chosen_env_file (files k)); [|by apply elem_of_nil in Hin].
    by eapply strip_line_no_newline. }
  unfold line_entry in Hentry.
  destruct (split "=" (strip line)) as [|key' [|value [|? ?]]] eqn:Hsplit; try done.
  injection Hentry as -> <-.
  destruct (split_pieces "=" (strip line) key) as [Hk1 Hk2]; [rewrite Hsplit; by left|].
  destruct (split_pieces "=" (strip line) value) as [Hv1 Hv2];
    [rewrite Hsplit; right; by left|].
  pose proof (Hk2 "010"%char). pose proof (Hv2 "010"%char).
  pose proof (count_strip_by_le
    (λ a, existsb (Ascii.eqb a) (String.list_ascii_of_string quote)) "=" value).
  pose proof (count_strip_by_le
    (λ a, existsb (Ascii.eqb a) (String.list_ascii_of_string quote)) "010" value).
  unfold strip_chars. split_and!; try lia.
  - intros a Ha. apply (strip_by_first_char isspace line).
    by eapply split_first_char.
  - intros Hq. by apply strip_by_first_char in Hq.
  - intros Hq. by apply strip_by_last_char in Hq.
Qed.

(** X18. [get_env] reads back an env file written one entry per line, as
    [KEY=VALUE] or [KEY="VALUE"]: when keys and values hold no "=" and no
    line break, keys do not begin with white space, and values neither
    begin or end with a double quote nor, when written bare, end with white
    space, the result is the dictionary of the entries, a later line
    overriding an earlier one with the same key. *)
Theorem get_env_reads_back k entries :
  chosen_env_file (files k) = Some (env_text entries) →
  Forall (λ '(quoted, key, value), readable quoted key value) entries →
  fst (get_env k) = inr (env_dict_of entries).
Proof.
  intros Hfile H. rewrite (get_env_text k _ Hfile).
  rewrite file_lines_env_text by done. by apply get_env_loop_env_lines.
Qed.

(** *** The placeholders of the env cell *)

Lemma get_kv_cache_unloaded vt prompt k :
  get_kv_cache rt VNone vt prompt k
  = (inl AttributeError, add_event (EvGetKvCache prompt) k).
Proof. reflexivity. Qed.

(** X19. The env cell binds [model] and [tokenizer] to [None].  Run right
    after it, without the cell that loads the model, the knowledge cell
    reads the document, enters [get_kv_cache] with the system prompt, and
    [get_kv_cache] raises [AttributeError] at its first line, as it does
    whenever the model it is given is [None]: nothing is tokenized, no
    cache object is created, and [ronan_cache] and [origin_len] are left as
    they were. *)
Theorem knowledge_cell_needs_loaded_model k content :
  files k !! "document.txt" = Some (File content) →
  fst (cell_knowledge rt (exec cell_env k)) = inl AttributeError
  ∧ heap (exec (cell_knowledge rt) (exec cell_env k)) = heap k
  ∧ globals (exec (cell_knowledge rt) (exec cell_env k)) !! "ronan_cache"
    = globals k !! "ronan_cache"
  ∧ globals (exec (cell_knowledge rt) (exec cell_env k)) !! "origin_len"
    = globals k !! "origin_len"
  ∧ trace (exec (cell_knowledge rt) (exec cell_env k))
    = trace k ++ [EvPrint "Environment and imports are set.";
                  EvExists "document.txt"; EvOpen "document.txt";
                  EvGetKvCache (system_prompt_of (read_text content))]
  ∧ (∀ tokenizer prompt k1,
       get_kv_cache rt VNone tokenizer prompt k1
       = (inl AttributeError, add_event (EvGetKvCache prompt) k1)).
Proof.
  intros Hdoc. unfold exec. rewrite cell_env_run. cbn [snd].
  destruct (cell_knowledge rt (after_env k)) as [r k'] eqn:Hrun. cbn [fst snd].
  unfold cell_knowledge in Hrun.
  bind_step in Hrun. rewrite path_exists_run in Hrun.
  change (files (after_env k)) with (files k) in Hrun.
  rewrite Hdoc, bool_decide_true in Hrun by eauto.
  bind_step in Hrun. cbn [mret M_ret] in Hrun.
  bind_step in Hrun. rewrite (open_read_run _ _ content) in Hrun by done.
  bind_step in Hrun. rewrite assign_run in Hrun.
  bind_step in Hrun. rewrite assign_run in Hrun.
  bind_step in Hrun. rewrite (lookup_name_run _ VNone) in Hrun
    by (unfold after_env; kernel_simpl; rewrite !lookup_insert_ne by done;
        by rewrite lookup_insert_eq).
  bind_step in Hrun. rewrite (lookup_name_run _ VNone) in Hrun
    by (unfold after_env; kernel_simpl; rewrite !lookup_insert_ne by done;
        by rewrite lookup_insert_eq).
  bind_step in Hrun. rewrite get_kv_cache_unloaded in Hrun. injection Hrun as <- <-.
  unfold after_env. kernel_simpl. split_and!; [done|done| | | |].
  - by rewrite !lookup_insert_ne by done.
  - by rewrite !lookup_insert_ne by done.
  - unfold add_event. kernel_simpl. by rewrite <- !app_assoc.
  - apply get_kv_cache_unloaded.
Qed.
End Proofs.

(** ** The small runtime keeps the library contract *)

Import Toy.

Lemma toy_states_shape (x : ids) :
  rect x → has_shape (length x) 1 (shape_last x) (new_states x).
Proof.
  unfold rect, has_shape, new_states. generalize (shape_last x). intros n Hx.
  split; [by rewrite length_fmap|].
  apply Forall_fmap. eapply Forall_impl; [done|]. intros row Hrow. simpl.
  split; [done|]. repeat constructor. by rewrite length_fmap.
Qed.

Lemma toy_cat_shape s n (old new : tensor4 Z) : ∀ b,
  has_shape b 1 s old → has_shape b 1 n new →
  has_shape b 1 (s + n) (cat_seq old new)
  ∧ slice_seq (Z.of_nat s) (cat_seq old new) = old.
Proof.
  revert new. induction old as [|m old IH]; intros new b [Hb Ho] [Hb' Hn].
  - split; [|done]. destruct new; simplify_eq/=. by split.
  - destruct new as [|m' new]; [simplify_eq/=|].
    apply Forall_cons in Ho as [[Hm Hr] Ho]. apply Forall_cons in Hn as [[Hm' Hr'] Hn].
    destruct m as [|r [|? ?]]; simplify_eq/=. destruct m' as [|r' [|? ?]]; simplify_eq/=.
    apply Forall_cons in Hr as [Hr _]. apply Forall_cons in Hr' as [Hr' _].
    destruct (IH new (length old)) as [[Hl Hc] Hs]; [by split|by split|].
    split.
    + split; [simpl; by rewrite Hl|]. constructor; [|done].
      split; [done|]. repeat constructor. rewrite length_app. lia.
    + rewrite Hs. do 2 f_equal.
      unfold slice_to. destruct (Z.ltb_spec (Z.of_nat s) 0); [lia|].
      rewrite Nat2Z.id, <- Hr. apply take_app_length.
Qed.

Lemma toy_contract eos : library_contract (toy eos) 2 1.
Proof.
  split.
  - lia.
  - lia.
  - done.
  - intros x c _ _. eexists. split; [done|]. simpl.
    induction x as [|xr x IH]; [constructor|]. rewrite !fmap_cons. constructor; [|done].
    by rewrite length_fmap.
  - intros x (Hx & _ & _). pose proof (toy_states_shape x Hx) as Hs.
    simpl. unfold cache_shape, update. simpl.
    split_and!; [done|done|..]; repeat (apply Forall_cons; split; [done|]); apply Forall_nil_2.
  - intros x [K V] s (Hx & _ & _) (HlK & HlV & HK & HV). simpl in *.
    pose proof (toy_states_shape x Hx) as Hs.
    destruct K as [|k0 [|k1 [|? ?]]]; simplify_eq/=.
    destruct V as [|v0 [|v1 [|? ?]]]; simplify_eq/=.
    apply Forall_cons in HK as [Hk0 HK]. apply Forall_cons in HK as [Hk1 _].
    apply Forall_cons in HV as [Hv0 HV]. apply Forall_cons in HV as [Hv1 _].
    destruct (toy_cat_shape _ _ _ _ _ Hk0 Hs) as [? ?].
    destruct (toy_cat_shape _ _ _ _ _ Hk1 Hs) as [? ?].
    destruct (toy_cat_shape _ _ _ _ _ Hv0 Hs) as [? ?].
    destruct (toy_cat_shape _ _ _ _ _ Hv1 Hs) as [? ?].
    unfold cache_shape, update, truncated. simpl. split.
    + split_and!; [done|done|..];
        repeat (apply Forall_cons; split; [done|]); apply Forall_nil_2.
    + by repeat f_equal.
Qed.

(** ** The properties at concrete inputs *)

Lemma clean_up_truncates_witness :
  ∃ c', clean_up 0 2 k_clean = (inr tt, with_heap (<[0%nat := c']> (heap k_clean)) k_clean)
    ∧ length (key_cache c') = length (key_cache c3)
    ∧ length (value_cache c') = length (value_cache c3)
    ∧ (∀ i t, key_cache c3 !! i = Some t →
         ∃ t', key_cache c' !! i = Some t' ∧ first_positions (Z.to_nat 2) t t')
    ∧ (∀ i t, value_cache c3 !! i = Some t →
         ∃ t', value_cache c' !! i = Some t' ∧ first_positions (Z.to_nat 2) t t').
Proof.
  apply (clean_up_truncates k_clean 0%nat c3 2);
    [reflexivity|reflexivity|lia|repeat constructor..].
Defined.

Lemma clean_up_idempotent_witness :
  clean_up 0 2 (snd (clean_up 0 2 k_clean)) = clean_up 0 2 k_clean.
Proof. apply (clean_up_idempotent k_clean 0%nat 2). lia. Defined.

(** A negative [origin_len] drops positions from the end, every time. *)
Example clean_up_negative_not_idempotent :
  heap (snd (clean_up 0 (-1) k_clean)) = [mkCache [[[[[1]; [2]]]]] [[[[[4]; [5]]]]]]
  ∧ heap (snd (clean_up 0 (-1) (snd (clean_up 0 (-1) k_clean))))
    = [mkCache [[[[[1]]]]] [[[[[4]]]]]].
Proof. split; reflexivity. Qed.

Lemma generate_token_by_token_witness :
  ∃ c calls toks,
    heap k_gen !! 0%nat = Some c
    ∧ trace (snd (generate (toy None) [[1; 2]] 0 2 k_gen))
      = trace k_gen ++ EvGenerate [[1; 2]] 0 c :: (ev_forward 0 <$> calls)
    ∧ feeds (toy None) [[1; 2]] c calls toks
    ∧ length calls = length toks
    ∧ (1 ≤ length toks ≤ Z.to_nat 2)%nat
    ∧ Forall (Forall (λ row : list Z, length row = 1%nat)) toks
    ∧ [[3; 0]] = hcat ((λ _, []) <$> [[1; 2]]) toks.
Proof.
  apply (generate_token_by_token (toy None) [[1; 2]] 0%nat 2 k_gen [[3; 0]]
           (snd (generate (toy None) [[1; 2]] 0 2 k_gen)));
    [lia|repeat constructor|vm_compute; reflexivity].
Defined.

Lemma generate_stops_at_eos_witness :
  ∃ c calls,
    trace (snd (generate (toy (Some 0)) [[1; 2]] 0 5 k_gen))
      = trace k_gen ++ EvGenerate [[1; 2]] 0 c :: (ev_forward 0 <$> calls)
    ∧ (length calls ≤ Z.to_nat 5)%nat
    ∧ Forall (λ row, length row = length calls) [[3; 0]]
    ∧ ∀ eos row i, eos_token_id (toy (Some 0)) = Some eos →
        row ∈ [[3; 0]] → row !! i = Some eos → S i = length row.
Proof.
  apply (generate_stops_at_eos (toy (Some 0)) [[1; 2]] 0%nat 5 k_gen [[3; 0]]
           (snd (generate (toy (Some 0)) [[1; 2]] 0 5 k_gen)));
    [lia|repeat constructor|vm_compute; reflexivity].
Defined.

Lemma get_kv_cache_fills_every_layer_witness :
  ∃ c,
    get_kv_cache (toy None) VModel VTokenizer "Hi" (fresh ∅) =
      (inr (length (heap (fresh (elt := Z) ∅))),
       Kernel (files (fresh (elt := Z) ∅)) (heap (fresh ∅) ++ [c]) (globals (fresh (elt := Z) ∅))
         (trace (fresh ∅) ++ [EvGetKvCache "Hi"; EvTokenize "Hi";
                      EvForward [tokenize (toy None) "Hi"] (length (heap (fresh (elt := Z) ∅)))
                        (mkCache [] [])]))
    ∧ length (key_cache c) = 2%nat
    ∧ length (value_cache c) = 2%nat
    ∧ Forall (λ t, has_shape 1 1 (length (tokenize (toy None) "Hi")) t
                   ∧ seq_len t = length (tokenize (toy None) "Hi"))
             (key_cache c ++ value_cache c).
Proof.
  apply (get_kv_cache_fills_every_layer (toy None) 2 1 (toy_contract None) "Hi" (fresh ∅)).
Defined.

(** C2 as stated fails: the first model call of [generate] is fed the whole
    input, here two tokens, not one produced token. *)
Lemma generate_first_call_feeds_input :
  ¬ one_token_inputs (trace (snd (generate (toy None) [[1; 2]] 0 2 k_gen))).
Proof.
  intros H. specialize (H [[1; 2]] 0%nat (mkCache [] [])).
  assert (Forall (λ row : list Z, length row = 1%nat) [[1; 2]]) as Hrow.
  { apply H. vm_compute. right. left. }
  apply Forall_cons in Hrow as [Hlen _]. simpl in Hlen. lia.
Qed.

(** The run of the notebook on the small runtime, [document.txt] present:
    the first query cell raises [NameError] on [device] right after
    tokenizing its question. *)
Example notebook_run_on_toy :
  fst (run_all (notebook (toy (Some 3))) (fresh doc_fs)) = inl (NameError "device")
  ∧ last (trace (snd (run_all (notebook (toy (Some 3))) (fresh doc_fs))))
    = Some (EvTokenize (question1 +:+ nl)).
Proof. split; vm_compute; reflexivity. Qed.

Lemma queries_start_from_built_cache_witness :
  let k0 := Kernel doc_fs [] cpu_globals [] in
  let prompt := system_prompt_of (read_text "Priya") in
  let n := length (tokenize (toy (Some 3)) prompt) in
  let c0 := snd (forward (toy (Some 3)) [tokenize (toy (Some 3)) prompt] (mkCache [] [])) in
  let k10 := snd (run_all [cell_env; cell_load; cell_knowledge (toy (Some 3))] k0) in
  let k13 := exec (cell_query2 (toy (Some 3))) (exec (cell_query1 (toy (Some 3))) k10) in
  fst (run_all [cell_env; cell_load; cell_knowledge (toy (Some 3))] k0) = inr tt
  ∧ heap k10 = [c0]
  ∧ globals k10 !! "ronan_cache" = Some (VCache 0)
  ∧ globals k10 !! "origin_len" = Some (VInt (Z.of_nat n))
  ∧ cache_shape 2 1 1 n c0
  ∧ trace k10 = [EvPrint "Environment and imports are set.";
                 EvPrint "Loaded mistralai/Mistral-7B-Instruct-v0.1.";
                 EvExists "document.txt"; EvOpen "document.txt";
                 EvGetKvCache prompt; EvTokenize prompt;
                 EvForward [tokenize (toy (Some 3)) prompt] 0 (mkCache [] []);
                 EvPrint "KV cache built."]
  ∧ ready 2 1 0 n c0 k13
  ∧ ∃ evs1 evs2,
      trace k13 = trace k10 ++ EvTokenize (question1 +:+ nl) :: evs1
                            ++ EvTokenize (question2 +:+ nl) :: evs2
      ∧ query_events (toy (Some 3)) cpu_globals 0 c0 question1 evs1
      ∧ query_events (toy (Some 3)) cpu_globals 0 c0 question2 evs2.
Proof.
  apply (queries_start_from_built_cache (toy (Some 3)) 2 1 (toy_contract (Some 3))
           doc_fs cpu_globals "Priya").
  reflexivity.
Defined.

(** With [device] bound beforehand, both query cells do enter [generate],
    on the same cache object, each time in the state in which the knowledge
    cell left it. *)
Example both_queries_generate_on_toy :
  let k10 := snd (run_all [cell_env; cell_load; cell_knowledge (toy (Some 3))]
                    (Kernel doc_fs [] cpu_globals [])) in
  let k13 := exec (cell_query2 (toy (Some 3))) (exec (cell_query1 (toy (Some 3))) k10) in
  omap (λ ev, match ev with EvGenerate x l c => Some (x, l, c) | _ => None end) (trace k13)
  = [([tokenize (toy (Some 3)) (question1 +:+ nl)], 0%nat, default (mkCache [] []) (heap k10 !! 0%nat));
     ([tokenize (toy (Some 3)) (question2 +:+ nl)], 0%nat, default (mkCache [] []) (heap k10 !! 0%nat))].
Proof. vm_compute. reflexivity. Qed.

(** [get_env] on concrete files: a well-formed [.env], a line with two "=",
    a blank last line, and a directory named [env]. *)
Example get_env_on_files :
  fst (get_env (fresh (elt := Z)
         {[ ".env" := File ("HF_TOKEN=" +:+ quote +:+ "abc" +:+ quote +:+ nl
                            +:+ "A=1" +:+ nl +:+ "A=2") ]}))
    = inr {[ "HF_TOKEN" := "abc"; "A" := "2" ]}
  ∧ fst (get_env (fresh (elt := Z) {[ "env" := File ("A=1=2" +:+ nl) ]})) = inl ValueError
  ∧ fst (get_env (fresh (elt := Z) {[ "env" := File ("A=1" +:+ nl +:+ nl) ]})) = inl ValueError
  ∧ fst (get_env (fresh (elt := Z) {[ "env" := Directory ]})) = inl IsADirectoryError.
Proof. split_and!; vm_compute; reflexivity. Qed.

Lemma get_env_spec_witness :
  let k := fresh (elt := Z) {[ ".env" := File ("A=1" +:+ nl +:+ "A=2") ]} in
  let ls := ["A=1" +:+ nl; "A=2"] in
  lines_of_chosen (files k) ls
  ∧ (files k !! chosen_env_path (files k) = None →
       fst (get_env k) = inr ∅
       ∧ printed (trace (snd (get_env k)))
         = printed (trace k) ++ ["No .env or env file found; HF_TOKEN may not be set."])
  ∧ (∀ content, files k !! chosen_env_path (files k) = Some (File content) →
       ((∃ d, fst (get_env k) = inr d) ↔ Forall (λ line, count_char "=" line = 1%nat) ls)
       ∧ (¬ Forall (λ line, count_char "=" line = 1%nat) ls →
            fst (get_env k) = inl ValueError)
       ∧ (∀ d, fst (get_env k) = inr d →
            ∀ key value, d !! key = Some value ↔ last_entry ls key value))
  ∧ (files k !! chosen_env_path (files k) = Some Directory →
       fst (get_env k) = inl IsADirectoryError)
  ∧ (files k !! chosen_env_path (files k) = Some Unreadable →
       fst (get_env k) = inl PermissionError).
Proof.
  intros k ls.
  assert (lines_of_chosen (files k) ls) as H.
  { split; [reflexivity|]. simpl. split_and!; [|exists "A=2", ""; by split_and!; [| |right|]|done].
    exists "A=1", nl. split_and!; [done|done|left; by left|done]. }
  split; [exact H|]. exact (proj2 (get_env_spec k) ls H).
Defined.

(** C9 as stated fails: with a directory named [env] and no [.env], no
    line fails to split, and [get_env] raises [IsADirectoryError]. *)
Lemma get_env_raises_on_directory :
  ¬ succeeds_when_lines_split (fresh (elt := Z) {[ "env" := Directory ]}).
Proof.
  intros H. destruct (H []) as [_ Hok]; [reflexivity|].
  destruct (Hok (Forall_nil_2 _)) as [d Hd]. vm_compute in Hd. discriminate Hd.
Qed.

(** ** The further properties at concrete inputs *)

Lemma generate_without_budget_witness :
  generate (toy None) [[1; 2]] 0 0 k_gen
  = (inr ((λ _, []) <$> [[1; 2]]), add_event (EvGenerate [[1; 2]] 0 (mkCache [] [])) k_gen).
Proof.
  apply (generate_without_budget (toy None) [[1; 2]] 0%nat 0 k_gen (mkCache [] []));
    [lia|repeat constructor|reflexivity].
Defined.

Lemma generate_short_only_on_eos_witness :
  Forall (λ row, length row = Z.to_nat 5
                 ∨ ∃ eos, eos_token_id (toy (Some 0)) = Some eos ∧ last row = Some eos)
         [[3; 0]].
Proof.
  apply (generate_short_only_on_eos (toy (Some 0)) [[1; 2]] 0%nat 5 k_gen [[3; 0]]
           (snd (generate (toy (Some 0)) [[1; 2]] 0 5 k_gen)));
    [repeat constructor|vm_compute; reflexivity].
Defined.

Lemma generate_with_eos_rejects_batch_witness :
  (∃ e, fst (generate (toy (Some 0)) [[1]; [2]] 0 5 k_gen) = inl e)
  ∧ trace (snd (generate (toy (Some 0)) [[1]; [2]] 0 5 k_gen))
    = trace k_gen ++ [EvGenerate [[1]; [2]] 0 (mkCache [] []);
                      EvForward [[1]; [2]] 0 (mkCache [] [])].
Proof.
  apply (generate_with_eos_rejects_batch (toy (Some 0)) [[1]; [2]] 0%nat 5 k_gen (mkCache [] []) 0);
    [reflexivity|lia|reflexivity|simpl; lia|].
  intros lg. vm_compute. intros [= <-]. reflexivity.
Defined.

Lemma generate_extends_cache_witness :
  ∃ new k' c',
    generate (toy None) [[1; 2]] 0 4 k_doc = (inr [new], k')
    ∧ heap k' = <[0%nat := c']> (heap k_doc)
    ∧ cache_shape 2 1 1
        (3 + match new with [] => 0 | _ :: rest => length [1; 2] + length rest end) c'
    ∧ truncated (Z.of_nat 3) c' = c_doc.
Proof.
  apply (generate_extends_cache (toy None) 2 1 (toy_contract None) [1; 2] 0%nat 4 k_doc c_doc 3);
    [reflexivity|vm_compute; repeat constructor|done].
Defined.

Lemma clean_up_undoes_generate_witness :
  ∃ out k1,
    generate (toy None) [[1; 2]] 0 4 k_doc = (inr out, k1)
    ∧ clean_up 0 (Z.of_nat 3) k1 = (inr tt, with_heap (heap k_doc) k1).
Proof.
  apply (clean_up_undoes_generate (toy None) 2 1 (toy_contract None) [1; 2] 0%nat 4 k_doc c_doc 3);
    [reflexivity|vm_compute; repeat constructor|done].
Defined.

Lemma clean_up_twice_cuts_to_shorter_witness :
  clean_up 0 1 (snd (clean_up 0 2 k_clean)) = clean_up 0 (Z.min 1 2) k_clean.
Proof.
  apply (clean_up_twice_cuts_to_shorter k_clean 0%nat c3 1 2); [reflexivity|reflexivity|lia|lia].
Defined.


Lemma clean_up_negative_counts_from_end_witness :
  clean_up 0 (-1) k_clean = clean_up 0 (Z.max 0 (Z.of_nat 3 + -1)) k_clean.
Proof.
  apply (clean_up_negative_counts_from_end k_clean 0%nat c3 1 1 1 3 (-1));
    [reflexivity|vm_compute; repeat constructor|lia].
Defined.

Lemma clean_up_raises_on_missing_values_witness :
  (fst (clean_up 0 2 k_short) = inr tt
     ↔ (length (key_cache c_short) ≤ length (value_cache c_short))%nat)
  ∧ ((length (value_cache c_short) < length (key_cache c_short))%nat →
       fst (clean_up 0 2 k_short) = inl IndexError)
  ∧ ∃ c', snd (clean_up 0 2 k_short) = with_heap (<[0%nat := c']> (heap k_short)) k_short
          ∧ length (key_cache c') = length (key_cache c_short)
          ∧ length (value_cache c') = length (value_cache c_short).
Proof. apply (clean_up_raises_on_missing_values k_short 0%nat c_short 2). reflexivity. Defined.

Lemma query_answer_from_built_cache_witness :
  let c0 := snd (forward (toy (Some 3))
                   [tokenize (toy (Some 3)) (system_prompt_of (read_text "Priya"))]
                   (mkCache [] [])) in
  let k := after_queries (toy (Some 3)) [("1", question1)]
             (built (toy (Some 3)) doc_fs cpu_globals) in
  ∃ a,
    answer_to (toy (Some 3)) c0 question2 = Some a
    ∧ fst (cell_query (toy (Some 3)) "2" question2 k) = inr tt
    ∧ globals (exec (cell_query (toy (Some 3)) "2" question2) k) !! ("answer" +:+ "2")
      = Some (VStr a)
    ∧ printed (trace (exec (cell_query (toy (Some 3)) "2" question2) k))
      = printed (trace k) ++ ["Q" +:+ "2" +:+ ": " +:+ question2; "A" +:+ "2" +:+ ": " +:+ a].
Proof.
  apply (query_answer_from_built_cache (toy (Some 3)) 2 1 (toy_contract (Some 3))
           doc_fs cpu_globals "Priya" [("1", question1)] "2" question2);
    [reflexivity|exists "cpu"; split; reflexivity].
Defined.

Lemma query_answer_within_budget_witness :
  let k := after_queries (toy (Some 3)) [("1", question1)]
             (built (toy (Some 3)) doc_fs cpu_globals) in
  ∃ new,
    globals (exec (cell_query (toy (Some 3)) "2" question2) k) !! ("gen_ids_q" +:+ "2")
      = Some (VIds [new])
    ∧ globals (exec (cell_query (toy (Some 3)) "2" question2) k) !! ("answer" +:+ "2")
      = Some (VStr (decode (toy (Some 3)) new))
    ∧ (length new ≤ 50)%nat
    ∧ ((length new < 50)%nat →
         ∃ eos, eos_token_id (toy (Some 3)) = Some eos ∧ last new = Some eos).
Proof.
  apply (query_answer_within_budget (toy (Some 3)) 2 1 (toy_contract (Some 3))
           doc_fs cpu_globals "Priya" [("1", question1)] "2" question2);
    [reflexivity|exists "cpu"; split; reflexivity].
Defined.

Lemma answers_independent_of_order_witness :
  let k12 := exec (cell_query2 (toy (Some 3)))
               (exec (cell_query1 (toy (Some 3))) (built (toy (Some 3)) doc_fs cpu_globals)) in
  let k21 := exec (cell_query1 (toy (Some 3)))
               (exec (cell_query2 (toy (Some 3))) (built (toy (Some 3)) doc_fs cpu_globals)) in
  ∃ a1 a2,
    globals k12 !! "answer1" = Some (VStr a1)
    ∧ globals k21 !! "answer1" = Some (VStr a1)
    ∧ globals k12 !! "answer2" = Some (VStr a2)
    ∧ globals k21 !! "answer2" = Some (VStr a2).
Proof.
  apply (answers_independent_of_order (toy (Some 3)) 2 1 (toy_contract (Some 3))
           doc_fs cpu_globals "Priya");
    [reflexivity|exists "cpu"; split; reflexivity].
Defined.

Lemma notebook_completes_with_device_witness :
  let c0 := snd (forward (toy (Some 3))
                   [tokenize (toy (Some 3)) (system_prompt_of (read_text "Priya"))]
                   (mkCache [] [])) in
  ∃ a1 a2,
    answer_to (toy (Some 3)) c0 question1 = Some a1
    ∧ answer_to (toy (Some 3)) c0 question2 = Some a2
    ∧ fst (run_all (notebook (toy (Some 3))) (Kernel doc_fs [] cpu_globals [])) = inr tt
    ∧ printed (trace (snd (run_all (notebook (toy (Some 3))) (Kernel doc_fs [] cpu_globals []))))
      = ["Environment and imports are set.";
         "Loaded mistralai/Mistral-7B-Instruct-v0.1.";
         "KV cache built.";
         "Q1: " +:+ question1; "A1: " +:+ a1;
         "Q2: " +:+ question2; "A2: " +:+ a2].
Proof.
  apply (notebook_completes_with_device (toy (Some 3)) 2 1 (toy_contract (Some 3))
           doc_fs cpu_globals "Priya");
    [reflexivity|exists "cpu"; split; reflexivity].
Defined.

Lemma get_env_entries_clean_witness :
  count_char "=" "HF_TOKEN" = 0%nat ∧ count_char "=" "abc" = 0%nat
  ∧ count_char "010" "HF_TOKEN" = 0%nat ∧ count_char "010" "abc" = 0%nat
  ∧ (∀ a, first_char "HF_TOKEN" = Some a → isspace a = false)
  ∧ first_char "abc" ≠ Some "034"%char ∧ last_char "abc" ≠ Some "034"%char.
Proof.
  apply (get_env_entries_clean
           (fresh (elt := Z)
              {[ ".env" := File ("HF_TOKEN=" +:+ quote +:+ "abc" +:+ quote +:+ nl) ]})
           {[ "HF_TOKEN" := "abc" ]} "HF_TOKEN" "abc");
    vm_compute; reflexivity.
Defined.

Lemma get_env_reads_back_witness :
  fst (get_env (fresh (elt := Z)
         {[ ".env" := File (env_text [(true, "HF_TOKEN", "abc"); (false, "A", "1"); (false, "A", "2")]) ]}))
  = inr (env_dict_of [(true, "HF_TOKEN", "abc"); (false, "A", "1"); (false, "A", "2")]).
Proof.
  apply (get_env_reads_back
           (fresh (elt := Z)
              {[ ".env" := File (env_text [(true, "HF_TOKEN", "abc"); (false, "A", "1"); (false, "A", "2")]) ]})
           [(true, "HF_TOKEN", "abc"); (false, "A", "1"); (false, "A", "2")]);
    [vm_compute; reflexivity|].
  repeat constructor; try (intros ? [= <-]; reflexivity); try (intros _ ? [= <-]; reflexivity);
    by intros [=].
Defined.

Lemma generate_larger_budget_extends_witness :
  Forall2 (λ r r' : list Z, r `prefix_of` r') [[3; 0]] [[3; 0; 1; 2; 3]].
Proof.
  apply (generate_larger_budget_extends (toy None) [[1; 2]] 0%nat 2 5 k_gen
           [[3; 0]] (snd (generate (toy None) [[1; 2]] 0 2 k_gen))
           [[3; 0; 1; 2; 3]] (snd (generate (toy None) [[1; 2]] 0 5 k_gen)));
    [lia|vm_compute; reflexivity|vm_compute; reflexivity].
Defined.

Lemma knowledge_cell_needs_loaded_model_witness :
  fst (cell_knowledge (toy None) (exec cell_env (fresh doc_fs))) = inl AttributeError
  ∧ heap (exec (cell_knowledge (toy None)) (exec cell_env (fresh doc_fs))) = heap (fresh doc_fs)
  ∧ globals (exec (cell_knowledge (toy None)) (exec cell_env (fresh doc_fs))) !! "ronan_cache"
    = globals (fresh (elt := Z) doc_fs) !! "ronan_cache"
  ∧ globals (exec (cell_knowledge (toy None)) (exec cell_env (fresh doc_fs))) !! "origin_len"
    = globals (fresh (elt := Z) doc_fs) !! "origin_len"
  ∧ trace (exec (cell_knowledge (toy None)) (exec cell_env (fresh doc_fs)))
    = trace (fresh doc_fs) ++ [EvPrint "Environment and imports are set.";
                               EvExists "document.txt"; EvOpen "document.txt";
                               EvGetKvCache (system_prompt_of (read_text "Priya"))]
  ∧ (∀ tokenizer prompt k1,
       get_kv_cache (toy None) VNone tokenizer prompt k1
       = (inl AttributeError, add_event (EvGetKvCache prompt) k1)).
Proof.
  apply (knowledge_cell_needs_loaded_model (toy None) (fresh doc_fs) "Priya"). reflexivity.
Defined.
